(** * V-Split: the engine adapter and its UI guards

    A shallow embedding of the parts of V-Split that carry logic:

    - [services/ffmpegService.ts]: [FFmpegService.load] (fetch the worker
      script, patch its relative imports, package it, initialise the engine)
      and [FFmpegService.splitVideo] (mount, segment, drain the outputs);
    - [components/VideoUploader.tsx]: [validateAndPass] and the drag, drop
      and change handlers that call it;
    - [components/ClipSettings.tsx] and [App.tsx]: the segment-duration
      setting, [handleFileSelect], [handleSplit] and [handleReset].

    JavaScript strings are sequences of UTF-16 code units.  The browser and
    the FFmpeg engine are external: they are an interface ([Platform]) the
    adapter is written against, and a small simulated platform ([Sim])
    instantiates it for concrete runs. *)

From Stdlib Require Import ZArith List String Ascii Bool Lia.
From Stdlib Require Import DecimalString DecimalPos.
Import ListNotations.

Local Open Scope Z_scope.
Local Open Scope list_scope.

(* ================================================================== *)
(** * JavaScript strings *)
(* ================================================================== *)

(** A string is the list of its UTF-16 code units. *)
Definition jsstring := list Z.

Fixpoint js (s : string) : jsstring :=
  match s with
  | EmptyString => []
  | String a s' => Z.of_N (N_of_ascii a) :: js s'
  end.

Definition squote : Z := 39.
Definition dquote : Z := 34.

Fixpoint jsstring_eqb (a b : jsstring) : bool :=
  match a, b with
  | [], [] => true
  | x :: a', y :: b' => (x =? y) && jsstring_eqb a' b'
  | _, _ => false
  end.

(** [s.startsWith(p)] *)
Fixpoint startsWith (p s : jsstring) : bool :=
  match p, s with
  | [], _ => true
  | x :: p', y :: s' => (x =? y) && startsWith p' s'
  | _ :: _, [] => false
  end.

(** [s.endsWith(p)] *)
Definition endsWith (p s : jsstring) : bool :=
  startsWith (rev p) (rev s).

(** The remainder of [s] after the literal [p], when [s] begins with it. *)
Fixpoint stripPrefix (p s : jsstring) : option jsstring :=
  match p, s with
  | [], _ => Some s
  | x :: p', y :: s' => if x =? y then stripPrefix p' s' else None
  | _ :: _, [] => None
  end.

(** ECMAScript [WhiteSpace] and [LineTerminator] code points: what [\s]
    matches, and what [parseInt] skips. *)
Definition is_space (c : Z) : bool :=
  (c =? 9) || (c =? 10) || (c =? 11) || (c =? 12) || (c =? 13) || (c =? 32)
  || (c =? 160) || (c =? 5760) || ((8192 <=? c) && (c <=? 8202))
  || (c =? 8232) || (c =? 8233) || (c =? 8239) || (c =? 8287)
  || (c =? 12288) || (c =? 65279).

(** The code units [.] does not match. *)
Definition is_line_terminator (c : Z) : bool :=
  (c =? 10) || (c =? 13) || (c =? 8232) || (c =? 8233).

(** The character class of the two quote characters. *)
Definition is_quote (c : Z) : bool := (c =? squote) || (c =? dquote).

(* ================================================================== *)
(** * Patching the worker script ([load], step 2) *)
(* ================================================================== *)

Definition baseURL : jsstring :=
  js "https://cdn.jsdelivr.net/npm/@ffmpeg/ffmpeg@0.12.10/dist/esm".
Definition coreBase : jsstring :=
  js "https://cdn.jsdelivr.net/npm/@ffmpeg/core@0.12.6/dist/esm".

(** ** Regular expressions

    The fragment of ECMAScript patterns the service uses, matched by
    backtracking as the language prescribes: alternatives are tried in
    order, and a quantifier gives back or takes up one repetition at a
    time.  Without the [u] flag a pattern works on code units. *)

Module Regex.

Inductive regex : Type :=
  | Lit (c : Z)                          (* a literal character *)
  | Class (p : Z -> bool)                (* a character class *)
  | Star (greedy : bool) (p : Z -> bool) (* a class repeated, greedy or lazy *)
  | Group (r : regex)                    (* the capture group *)
  | Cat (r1 r2 : regex).                 (* one pattern after another *)

(** What a match attempt yields: the capture, if the group took part, and
    the text after the match. *)
Definition outcome : Type := option (option jsstring * jsstring).

(** The repetition of a class before the continuation [k]: the greedy one
    first tries to take one more character, the lazy one first tries to
    go on without. *)
Fixpoint star (greedy : bool) (p : Z -> bool) (s : jsstring)
    (k : jsstring -> outcome) : outcome :=
  match s with
  | c :: s' =>
      if p c then
        if greedy then
          match star greedy p s' k with
          | Some r => Some r
          | None => k s
          end
        else
          match k s with
          | Some r => Some r
          | None => star greedy p s' k
          end
      else k s
  | [] => k s
  end.

(** Matching [r] at the head of [s], then the continuation [k] on what is
    left; [cap] is the capture so far. *)
Fixpoint run (r : regex) (s : jsstring) (cap : option jsstring)
    (k : jsstring -> option jsstring -> outcome) : outcome :=
  match r with
  | Lit c =>
      match s with
      | x :: s' => if c =? x then k s' cap else None
      | [] => None
      end
  | Class p =>
      match s with
      | x :: s' => if p x then k s' cap else None
      | [] => None
      end
  | Star greedy p => star greedy p s (fun rest => k rest cap)
  | Group r1 =>
      run r1 s cap
        (fun rest _ => k rest (Some (firstn (List.length s - List.length rest) s)))
  | Cat r1 r2 => run r1 s cap (fun rest cap1 => run r2 rest cap1 k)
  end.

(** One attempt at the head of [s]. *)
Definition exec (r : regex) (s : jsstring) : outcome :=
  run r s None (fun rest cap => Some (cap, rest)).

(** The literal [l] followed by [r]. *)
Fixpoint lits (l : jsstring) (r : regex) : regex :=
  match l with
  | [] => r
  | c :: l' => Cat (Lit c) (lits l' r)
  end.

(** The dot: any code unit but a line terminator. *)
Definition dot (c : Z) : bool := negb (is_line_terminator c).

End Regex.

Module Patch.

Import Regex.

(** The pattern of [load]: the word [from], white space (greedy, possibly
    none), a quote of either kind, a dot and a slash, the capture group
    holding a lazy run of any characters, and a quote of either kind. *)
Definition importPattern : regex :=
  lits (js "from")
    (Cat (Star true is_space)
       (Cat (Class is_quote)
          (lits (js "./")
             (Cat (Group (Star false dot)) (Class is_quote))))).

(** The replacement callback: [(match, p1) => `from '${baseURL}/${p1}'`]. *)
Definition replacement (p1 : jsstring) : jsstring :=
  js "from '" ++ baseURL ++ js "/" ++ p1 ++ [squote].

(** What the template prints for the group: its text, or [undefined]
    had it not taken part in the match. *)
Definition groupText (cap : option jsstring) : jsstring :=
  match cap with
  | Some p1 => p1
  | None => js "undefined"
  end.

(** [String.prototype.replace] with this global pattern: matches are
    sought left to right, each search resuming after the previous match;
    where no match starts the character is copied.  (The pattern matches
    no empty string, so the search always moves on.) *)
Fixpoint replaceAll (fuel : nat) (s : jsstring) : jsstring :=
  match fuel with
  | O => s
  | S k =>
      match exec importPattern s with
      | Some (cap, rest) => replacement (groupText cap) ++ replaceAll k rest
      | None =>
          match s with
          | [] => []
          | c :: s' => c :: replaceAll k s'
          end
      end
  end.

(** Every step consumes at least one code unit, so the length of the text
    is enough fuel. *)
Definition patchWorker (workerScript : jsstring) : jsstring :=
  replaceAll (List.length workerScript) workerScript.

(** ** The pattern, unfolded

    What an attempt of [importPattern] comes to once the backtracking is
    resolved; [exec_importPattern] below proves the two agree. *)


(** The greedy run of white space: what follows it in the pattern is a
    quote, which is not white space, so no shorter run can lead to a match. *)
Fixpoint skipSpaces (s : jsstring) : jsstring :=
  match s with
  | c :: s' => if is_space c then skipSpaces s' else s
  | [] => []
  end.

(** The lazy capture group and the closing quote: the capture runs to the
    first quote of either kind and cannot cross a line terminator.  Returns
    the capture and what follows the quote. *)
Fixpoint lazyCapture (s : jsstring) : option (jsstring * jsstring) :=
  match s with
  | [] => None
  | c :: s' =>
      if is_quote c then Some ([], s')
      else if is_line_terminator c then None
      else match lazyCapture s' with
           | Some (p1, rest) => Some (c :: p1, rest)
           | None => None
           end
  end.

(** The literal [from], white space, an opening quote, the literal [./],
    the lazy capture, a closing quote.  Returns the captured group and the
    text after the match. *)
Definition matchImport (s : jsstring) : option (jsstring * jsstring) :=
  match stripPrefix (js "from") s with
  | None => None
  | Some s1 =>
      match skipSpaces s1 with
      | q :: s2 =>
          if is_quote q then
            match stripPrefix (js "./") s2 with
            | Some s3 => lazyCapture s3
            | None => None
            end
          else None
      | [] => None
      end
  end.

(** ** The pattern, declaratively *)

(** A relative module reference: [from], optional white space, a quote,
    [./], a name free of quotes and line terminators, a quote. *)
Definition relRef (ws : jsstring) (q1 : Z) (name : jsstring) (q2 : Z) : jsstring :=
  js "from" ++ ws ++ q1 :: js "./" ++ name ++ [q2].

Definition name_char (c : Z) : bool :=
  negb (is_quote c) && negb (is_line_terminator c).

Definition refOk (ws : jsstring) (q1 : Z) (name : jsstring) (q2 : Z) : Prop :=
  forallb is_space ws = true /\ is_quote q1 = true
  /\ forallb name_char name = true /\ is_quote q2 = true.

(** [s] begins with a relative reference to [name], followed by [rest]. *)
Definition refAt (s name rest : jsstring) : Prop :=
  exists ws q1 q2, refOk ws q1 name q2 /\ s = relRef ws q1 name q2 ++ rest.

(** The absolute reference the patch writes for [name]. *)
Definition absRef (name : jsstring) : jsstring :=
  js "from '" ++ baseURL ++ js "/" ++ name ++ [squote].

(** No attempt of the pattern succeeds at a position inside [pre] when
    [tail] follows it. *)
Fixpoint noEarlierMatch (pre tail : jsstring) : bool :=
  match pre with
  | [] => true
  | c :: pre' =>
      match matchImport (pre ++ tail) with
      | Some _ => false
      | None => noEarlierMatch pre' tail
      end
  end.

(** The word [from] starts nowhere in [t]. *)
Fixpoint noFrom (t : jsstring) : bool :=
  match t with
  | [] => true
  | c :: t' =>
      match stripPrefix (js "from") t with
      | Some _ => false
      | None => noFrom t'
      end
  end.

(** A relative reference by its parts: white space, opening quote, name,
    closing quote. *)
Record Ref : Type := mkRef {
  ref_ws : jsstring;
  ref_open : Z;
  ref_name : jsstring;
  ref_close : Z
}.

(** A script given as stretches of other text, each followed by a relative
    reference, and a last stretch of text. *)
Fixpoint script (segs : list (jsstring * Ref)) (last : jsstring) : jsstring :=
  match segs with
  | [] => last
  | (t, r) :: segs' =>
      t ++ relRef (ref_ws r) (ref_open r) (ref_name r) (ref_close r)
        ++ script segs' last
  end.

(** The same script with every reference made absolute. *)
Fixpoint absolute (segs : list (jsstring * Ref)) (last : jsstring) : jsstring :=
  match segs with
  | [] => last
  | (t, r) :: segs' => t ++ absRef (ref_name r) ++ absolute segs' last
  end.

Definition segOk (seg : jsstring * Ref) : Prop :=
  noFrom (fst seg) = true
  /\ refOk (ref_ws (snd seg)) (ref_open (snd seg)) (ref_name (snd seg))
           (ref_close (snd seg)).

(** [s] contains a relative reference somewhere. *)
Definition hasRelRef (s : jsstring) : Prop :=
  exists pre tail name rest, s = pre ++ tail /\ refAt tail name rest.

End Patch.

(* ================================================================== *)
(** * Files and blobs *)
(* ================================================================== *)

(** A DOM [File]: its name, MIME type and size attributes and the bytes it
    gives access to.  The uploader reads [type] and [size]; the adapter
    reads [type] and passes the file on without looking at its bytes. *)
Record File : Type := mkFile {
  file_name : jsstring;
  file_type : jsstring;
  file_size : Z;
  file_data : list Z
}.

(** [new File([file], name, { type })]: a new handle on the same bytes. *)
Definition renameFile (file : File) (name type : jsstring) : File :=
  {| file_name := name; file_type := type;
     file_size := file_size file; file_data := file_data file |}.

(** [new File([new Blob([data], { type })], name, { type })]. *)
Definition fileOfData (data : list Z) (name type : jsstring) : File :=
  {| file_name := name; file_type := type;
     file_size := Z.of_nat (List.length data); file_data := data |}.

(* ================================================================== *)
(** * VideoUploader: [validateAndPass] *)
(* ================================================================== *)

Module Uploader.

(** The component state [error] and the calls made to the [onFileSelect]
    prop, oldest first. *)
Record State : Type := mkState {
  error : option jsstring;
  selected : list File
}.

Definition sizeLimit : Z := 5 * 1024 * 1024 * 1024.

Definition setError (e : option jsstring) (st : State) : State :=
  {| error := e; selected := selected st |}.

Definition onFileSelect (file : File) (st : State) : State :=
  {| error := error st; selected := selected st ++ [file] |}.

Definition validateAndPass (file : File) (st : State) : State :=
  if negb (startsWith (js "video/") (file_type file)) then
    setError (Some (js "Please upload a valid video file.")) st
  else if file_size file >? sizeLimit then
    setError (Some (js "For browser performance, please use videos under 5GB.")) st
  else
    onFileSelect file (setError None st).

End Uploader.

(* ================================================================== *)
(** * ClipSettings: the duration input *)
(* ================================================================== *)

Module Settings.

Definition is_digit (c : Z) : bool := (48 <=? c) && (c <=? 57).

Definition hexValue (c : Z) : option Z :=
  if (48 <=? c) && (c <=? 57) then Some (c - 48)
  else if (97 <=? c) && (c <=? 102) then Some (c - 87)
  else if (65 <=? c) && (c <=? 70) then Some (c - 55)
  else None.

Definition digitValue (radix : Z) (c : Z) : option Z :=
  if radix =? 16 then hexValue c
  else if is_digit c then Some (c - 48) else None.

Fixpoint trimStart (s : jsstring) : jsstring :=
  match s with
  | c :: s' => if is_space c then trimStart s' else s
  | [] => []
  end.

(** The longest prefix of radix digits, folded into its value; [None] when
    there is no digit at all. *)
Fixpoint digits (radix : Z) (acc : option Z) (s : jsstring) : option Z :=
  match s with
  | [] => acc
  | c :: s' =>
      match digitValue radix c with
      | Some d =>
          digits radix (Some (match acc with Some a => a * radix + d | None => d end)) s'
      | None => acc
      end
  end.

(** [parseInt(s)] with no radix argument: leading white space is skipped, a
    sign is read, [0x] or [0X] selects radix 16, and the longest digit
    prefix is the result.  [None] stands for [NaN].  The result is kept as
    the exact integer the digits denote; the Number it becomes is that
    integer rounded to a double (an infinity when out of range), which has
    the same sign, is zero exactly when the integer is, and is at least 1
    exactly when the integer is. *)
Definition parseInt (s : jsstring) : option Z :=
  let s1 := trimStart s in
  let '(sign, s2) :=
    match s1 with
    | c :: s' => if c =? 45 then (-1, s')
                 else if c =? 43 then (1, s') else (1, s1)
    | [] => (1, s1)
    end in
  let '(radix, s3) :=
    match s2 with
    | z :: x :: s' =>
        if (z =? 48) && ((x =? 120) || (x =? 88)) then (16, s') else (10, s2)
    | _ => (10, s2)
    end in
  match digits radix None s3 with
  | Some n => Some (sign * n)
  | None => None
  end.

(** [x || 1] on the outcome of [parseInt]: [NaN] and zero are falsy. *)
Definition orOne (x : option Z) : Z :=
  match x with
  | Some n => if n =? 0 then 1 else n
  | None => 1
  end.

(** The [onChange] handler of the duration input: the value handed to
    [setDuration] is [Math.max(1, parseInt(value) || 1)]. *)
Definition onChange (value : jsstring) : Z :=
  Z.max 1 (orOne (parseInt value)).

End Settings.

(* ================================================================== *)
(** * App: the state the split action reads *)
(* ================================================================== *)

Module App.

Inductive AppState : Type :=
  IDLE | LOADING_CORE | READY | PROCESSING | COMPLETED | ERROR.

(** The [useState] cells of [App] that [handleSplit] and the settings panel
    touch, with [splitCalls] recording the arguments of every
    [splitVideo] invocation, oldest first. *)
Record State : Type := mkState {
  state : AppState;
  videoFile : option File;
  splitDuration : Z;
  progress : Z;
  outputFiles : list File;
  serviceReady : bool;
  splitCalls : list (File * Z)
}.

(** The initial render: [ffmpegRef.current] is still [null]. *)
Definition init : State :=
  {| state := IDLE; videoFile := None; splitDuration := 30; progress := 0;
     outputFiles := []; serviceReady := false; splitCalls := [] |}.

(** What can happen to the component. *)
Inductive Event : Type :=
  | Mounted                              (* the effect creating the service *)
  | CoreLoaded (ok : bool)               (* the preload promise settles *)
  | FileSelected (file : File)           (* handleFileSelect *)
  | ChangeFile                           (* the Change button *)
  | DurationInput (value : jsstring)     (* ClipSettings onChange *)
  | SplitClicked                         (* handleSplit, up to the await *)
  | SplitSettled (result : option (list File))  (* the await resumes *)
  | Reset                                (* handleReset *)
  | ProgressReported (p : Z).            (* the callback given to splitVideo *)

(** One event.  Events are taken in any state; the page offers some of its
    controls only in some states, so every history of the page is a
    history here. *)
Definition step (ev : Event) (s : State) : State :=
  match ev with
  | Mounted =>
      if serviceReady s then s
      else {| state := LOADING_CORE; videoFile := videoFile s;
              splitDuration := splitDuration s; progress := progress s;
              outputFiles := outputFiles s; serviceReady := true;
              splitCalls := splitCalls s |}
  | CoreLoaded ok =>
      {| state := if ok then READY else ERROR; videoFile := videoFile s;
         splitDuration := splitDuration s; progress := progress s;
         outputFiles := outputFiles s; serviceReady := serviceReady s;
         splitCalls := splitCalls s |}
  | FileSelected file =>
      {| state := state s; videoFile := Some file;
         splitDuration := splitDuration s; progress := progress s;
         outputFiles := outputFiles s; serviceReady := serviceReady s;
         splitCalls := splitCalls s |}
  | ChangeFile =>
      {| state := state s; videoFile := None;
         splitDuration := splitDuration s; progress := progress s;
         outputFiles := outputFiles s; serviceReady := serviceReady s;
         splitCalls := splitCalls s |}
  | DurationInput value =>
      {| state := state s; videoFile := videoFile s;
         splitDuration := Settings.onChange value; progress := progress s;
         outputFiles := outputFiles s; serviceReady := serviceReady s;
         splitCalls := splitCalls s |}
  | SplitClicked =>
      match videoFile s with
      | Some file =>
          if serviceReady s then
            {| state := PROCESSING; videoFile := videoFile s;
               splitDuration := splitDuration s; progress := 0;
               outputFiles := outputFiles s; serviceReady := serviceReady s;
               splitCalls := splitCalls s ++ [(file, splitDuration s)] |}
          else s
      | None => s
      end
  | SplitSettled (Some resultFiles) =>
      {| state := COMPLETED; videoFile := videoFile s;
         splitDuration := splitDuration s; progress := progress s;
         outputFiles := resultFiles; serviceReady := serviceReady s;
         splitCalls := splitCalls s |}
  | SplitSettled None =>
      {| state := ERROR; videoFile := videoFile s;
         splitDuration := splitDuration s; progress := progress s;
         outputFiles := outputFiles s; serviceReady := serviceReady s;
         splitCalls := splitCalls s |}
  | Reset =>
      {| state := READY; videoFile := None;
         splitDuration := splitDuration s; progress := 0;
         outputFiles := []; serviceReady := serviceReady s;
         splitCalls := splitCalls s |}
  | ProgressReported p =>
      {| state := state s; videoFile := videoFile s;
         splitDuration := splitDuration s; progress := p;
         outputFiles := outputFiles s; serviceReady := serviceReady s;
         splitCalls := splitCalls s |}
  end.

(** The state after a history of events, oldest first. *)
Definition run (evs : list Event) : State :=
  fold_left (fun s ev => step ev s) evs init.

(** The setting is at least 1, and so was the duration of every
    [splitVideo] invocation so far. *)
Definition durationOk (s : State) : Prop :=
  1 <= splitDuration s /\ Forall (fun c => 1 <= snd c) (splitCalls s).

End App.

(* ================================================================== *)
(** * Thrown values, log entries, the platform *)
(* ================================================================== *)

(** What a [catch] clause can receive: an [Error] object, or some other
    non-nullish value (a promise may reject with a plain string), given by
    its string conversion. *)
Inductive JsThrown : Type :=
  | JsError (message : jsstring)
  | JsOther (repr : jsstring).

(** [error instanceof Error ? error.message : String(error)] *)
Definition errorText (err : JsThrown) : jsstring :=
  match err with
  | JsError message => message
  | JsOther repr => repr
  end.

(** [`${error.message}`]: a value that is not an [Error] has no such
    property, and the template prints [undefined]. *)
Definition messageProp (err : JsThrown) : jsstring :=
  match err with
  | JsError message => message
  | JsOther _ => js "undefined"
  end.

(** The outcome of an awaited call: fulfilled with a value, or rejected. *)
Definition result (A : Type) : Type := (A + JsThrown)%type.

Inductive LogType : Type := info | error | success.

Record LogEntry : Type := mkLog {
  log_type : LogType;
  message : jsstring;
  timestamp : Z
}.

(** What [fetch] resolves to: the [ok] flag, the status text, and what
    [text()] resolves to. *)
Record Response : Type := mkResponse {
  ok : bool;
  statusText : jsstring;
  text : result jsstring
}.

(** An entry of [listDir]. *)
Record FSNode : Type := mkNode {
  name : jsstring;
  isDir : bool
}.

Record LoadConfig : Type := mkConfig {
  coreURL : jsstring;
  wasmURL : jsstring;
  workerURL : jsstring;
  classWorkerURL : jsstring
}.

(** The browser globals and the [FFmpeg] object the service calls, over a
    state [P] that stands for everything outside the service: network,
    object-URL registry, clock, and the engine with its file systems.
    An engine call returns the new state, the messages the engine emitted
    on its [log] event meanwhile, and its outcome. *)
Class Platform (P : Type) : Type := {
  dateNow : P -> Z;
  crossOriginIsolated : P -> bool;
  fetch : jsstring -> P -> P * result Response;
  createObjectURL : jsstring -> jsstring -> P -> P * jsstring;
  toBlobURL : jsstring -> jsstring -> P -> P * result jsstring;
  ffLoad : LoadConfig -> P -> P * list jsstring * result unit;
  ffCreateDir : jsstring -> P -> P * list jsstring * result unit;
  ffMount : jsstring -> list File -> jsstring -> P -> P * list jsstring * result unit;
  ffExec : list jsstring -> P -> P * list jsstring * result Z;
  ffUnmount : jsstring -> P -> P * list jsstring * result unit;
  ffDeleteDir : jsstring -> P -> P * list jsstring * result unit;
  ffListDir : jsstring -> P -> P * list jsstring * result (list FSNode);
  ffReadFile : jsstring -> P -> P * list jsstring * result (list Z);
  ffDeleteFile : jsstring -> P -> P * list jsstring * result unit
}.

(** The calls the service makes on the platform, with their arguments. *)
Inductive Call : Type :=
  | CFetch (url : jsstring)
  | CCreateObjectURL (content type : jsstring)
  | CToBlobURL (url mimeType : jsstring)
  | CLoad (config : LoadConfig)
  | CCreateDir (path : jsstring)
  | CMount (fsType : jsstring) (files : list File) (mountPoint : jsstring)
  | CExec (args : list jsstring)
  | CUnmount (mountPoint : jsstring)
  | CDeleteDir (path : jsstring)
  | CListDir (path : jsstring)
  | CReadFile (path : jsstring)
  | CDeleteFile (path : jsstring).

Definition isExec (c : Call) : bool :=
  match c with CExec _ => true | _ => false end.

(** ** Numbers as text

    [Number.prototype.toString] on a Number whose value is an integer.  An
    integer of the embedding stands for the Number nearest to it. *)

Module Num.

(** The decimal digits of an integer, with a minus sign when negative. *)
Definition intDigits (n : Z) : jsstring :=
  js (NilZero.string_of_int (Z.to_int n)).

(** The Number a non-negative integer becomes: itself below 2^53; from
    there on, rounded to 53 significant bits, a tie going to the even
    significand.  A result of 2^1024 or more stands for [Infinity]. *)
Definition toDouble (n : Z) : Z :=
  if n <? 2 ^ 53 then n
  else
    let e := Z.log2 n - 52 in
    let q := Z.shiftr n e in
    let r := n - Z.shiftl q e in
    let half := Z.shiftl 1 (e - 1) in
    Z.shiftl (if (half <? r) || ((r =? half) && Z.odd q) then q + 1 else q) e.

(** A decimal [s * 10^(n-k)], with [k] the number of digits of [s], and
    its value. *)
Record Repr : Type := mkRepr { repr_s : Z; repr_n : Z; repr_value : Z }.

(** The decimals of [k] digits that read back as the double [x], which has
    [len] digits: [x] cut to [k] digits, or that plus one, possibly with
    one digit more in all. *)
Definition candidates (x len k : Z) : list Repr :=
  flat_map
    (fun n =>
       let p := 10 ^ (n - k) in
       let s0 := x / p in
       filter (fun c => (10 ^ (k - 1) <=? repr_s c) && (repr_s c <? 10 ^ k)
                        && (toDouble (repr_value c) =? x))
              [mkRepr s0 n (s0 * p); mkRepr (s0 + 1) n ((s0 + 1) * p)])
    [len; len + 1].

(** Of two candidates the one closer to [x]; at the same distance, the one
    with the even [s]. *)
Definition closer (x : Z) (a b : Repr) : Repr :=
  let da := Z.abs (repr_value a - x) in
  let db := Z.abs (repr_value b - x) in
  if da <? db then a
  else if db <? da then b
  else if Z.even (repr_s a) then a else b.

Definition closest (x : Z) (l : list Repr) : option Repr :=
  match l with
  | [] => None
  | c :: rest => Some (fold_left (closer x) rest c)
  end.

(** The fewest digits that read back as [x]: [k] goes up from 1, and
    seventeen digits tell any two doubles apart. *)
Fixpoint shortest (fuel : nat) (x len k : Z) : Repr :=
  match fuel with
  | O => mkRepr x len x
  | S fuel' =>
      match closest x (candidates x len k) with
      | Some c => c
      | None => shortest fuel' x len (k + 1)
      end
  end.

(** The digits of [s] filled with zeros up to [n] digits when [n] is at
    most 21, and the exponent notation beyond. *)
Definition format (c : Repr) : jsstring :=
  let ds := intDigits (repr_s c) in
  let k := Z.of_nat (List.length ds) in
  if repr_n c <=? 21 then ds ++ repeat 48 (Z.to_nat (repr_n c - k))
  else
    match ds with
    | [] => []
    | [d] => [d] ++ js "e+" ++ intDigits (repr_n c - 1)
    | d :: rest => d :: 46 :: rest ++ js "e+" ++ intDigits (repr_n c - 1)
    end.

(** The text of a double that is a non-negative integer.  Below 2^53
    every integer is a double of its own, so the digits that read back as
    [x] are the digits of [x]. *)
Definition numberText (x : Z) : jsstring :=
  if x <? 2 ^ 53 then intDigits x
  else format (shortest 17 x (Z.of_nat (List.length (intDigits x))) 1).

End Num.

(** [n.toString()], for the Number the integer [n] becomes. *)
Definition numToString (n : Z) : jsstring :=
  let x := Num.toDouble (Z.abs n) in
  let body := if 2 ^ 1024 <=? x then js "Infinity" else Num.numberText x in
  if n <? 0 then 45 :: body else body.

(* ================================================================== *)
(** * FFmpegService *)
(* ================================================================== *)

(** The service object and what it has told its environment.  [logs] is
    what [logCallback] received, [progress] what [onProgress] received,
    [warnings] what went to [console.warn], [calls] the platform calls
    made; all oldest first.  The two callbacks are sinks: they record their
    argument and return. *)
Record World (P : Type) : Type := mkWorld {
  loaded : bool;
  host : P;
  logs : list LogEntry;
  progress : list Z;
  warnings : list JsThrown;
  calls : list Call
}.

Arguments mkWorld {P}.
Arguments loaded {P}.
Arguments host {P}.
Arguments logs {P}.
Arguments progress {P}.
Arguments warnings {P}.
Arguments calls {P}.

(** A computation of the service: it steps the world and either returns a
    value or throws.  Awaited calls are taken one after the other: a call of
    the service runs to its end before anything else touches it. *)
Definition M (P A : Type) : Type := World P -> World P * result A.

Section Monad.

Context {P : Type}.

Definition ret {A} (a : A) : M P A := fun w => (w, inl a).

Definition throw {A} (e : JsThrown) : M P A := fun w => (w, inr e).

Definition bind {A B} (m : M P A) (k : A -> M P B) : M P B :=
  fun w =>
    match m w with
    | (w1, inl a) => k a w1
    | (w1, inr e) => (w1, inr e)
    end.

(** [try { body } catch (error) { handler }] *)
Definition tryCatch {A} (body : M P A) (handler : JsThrown -> M P A) : M P A :=
  fun w =>
    match body w with
    | (w1, inl a) => (w1, inl a)
    | (w1, inr e) => handler e w1
    end.

Definition when (b : bool) (m : M P unit) : M P unit :=
  if b then m else ret tt.

End Monad.

Declare Scope service_scope.
Delimit Scope service_scope with service.
Notation "x <- m ;; k" := (bind m (fun x => k))
  (at level 61, m at next level, right associativity) : service_scope.
Notation "m ;; k" := (bind m (fun _ => k))
  (at level 61, right associativity) : service_scope.

Section ServiceCode.

Context {P : Type} `{Platform P}.

Local Open Scope service_scope.

Definition withHost (w : World P) (p : P) (c : Call) : World P :=
  {| loaded := loaded w; host := p; logs := logs w; progress := progress w;
     warnings := warnings w; calls := calls w ++ [c] |}.

(** [private log(type, message)]: hands a fresh entry to [logCallback]. *)
Definition log (type : LogType) (msg : jsstring) : M P unit :=
  fun w =>
    ({| loaded := loaded w; host := host w;
        logs := logs w ++ [mkLog type msg (dateNow (host w))];
        progress := progress w; warnings := warnings w; calls := calls w |},
     inl tt).

(** The constructor's hook: every message of the engine's [log] event is
    logged as [info]. *)
Fixpoint relay (msgs : list jsstring) : M P unit :=
  match msgs with
  | [] => ret tt
  | m :: rest => log info m ;; relay rest
  end.

(** A browser call: the host steps, the call is recorded. *)
Definition browser {A} (c : Call) (op : P -> P * result A) : M P A :=
  fun w => let '(p, r) := op (host w) in (withHost w p c, r).

(** An engine call: the host steps, the call is recorded, the engine's log
    messages are relayed. *)
Definition engine {A} (c : Call) (op : P -> P * list jsstring * result A) : M P A :=
  fun w =>
    let '(p, msgs, r) := op (host w) in
    let '(w1, _) := relay msgs (withHost w p c) in
    (w1, r).

Definition onProgress (value : Z) : M P unit :=
  fun w =>
    ({| loaded := loaded w; host := host w; logs := logs w;
        progress := progress w ++ [value]; warnings := warnings w;
        calls := calls w |}, inl tt).

Definition consoleWarn (e : JsThrown) : M P unit :=
  fun w =>
    ({| loaded := loaded w; host := host w; logs := logs w;
        progress := progress w; warnings := warnings w ++ [e];
        calls := calls w |}, inl tt).

Definition setLoaded (b : bool) : M P unit :=
  fun w =>
    ({| loaded := b; host := host w; logs := logs w;
        progress := progress w; warnings := warnings w;
        calls := calls w |}, inl tt).

Definition getLoaded : M P bool := fun w => (w, inl (loaded w)).

Definition getIsolated : M P bool :=
  fun w => (w, inl (crossOriginIsolated (host w))).

(** [await p] for an already settled promise. *)
Definition await {A} (r : result A) : M P A := fun w => (w, r).

Definition noImportsWarning : jsstring :=
  js "Warning: No imports patched in worker script. Regex might be mismatched.".

Definition workerScriptURL : jsstring := baseURL ++ js "/worker.js".
Definition coreScriptURL : jsstring := coreBase ++ js "/ffmpeg-core.js".
Definition coreWasmURL : jsstring := coreBase ++ js "/ffmpeg-core.wasm".

(** The [try] block of [load], first part: the capability check and the
    fetch of the worker script as text. *)
Definition fetchWorkerScript : M P jsstring :=
  log info (js "Checking environment capabilities...") ;;
  isolated <- getIsolated ;;
  when (negb isolated)
    (log info (js "Note: SharedArrayBuffer is not available. Using single-threaded core.")) ;;
  log info (js "Loading FFmpeg resources...") ;;
  log info (js "Fetching worker script...") ;;
  workerResp <- browser (CFetch workerScriptURL) (fetch workerScriptURL) ;;
  when (negb (ok workerResp))
    (throw (JsError (js "Failed to fetch worker: " ++ statusText workerResp))) ;;
  await (text workerResp).

(** Second part: patch the relative imports, warn when nothing changed,
    and turn the script into a blob URL. *)
Definition packageWorker (oldScript : jsstring) : M P jsstring :=
  log info (js "Patching worker imports...") ;;
  let workerScript := Patch.patchWorker oldScript in
  when (jsstring_eqb workerScript oldScript) (log info noImportsWarning) ;;
  workerURL <- browser (CCreateObjectURL workerScript (js "text/javascript"))
                 (fun p => let '(p1, u) :=
                             createObjectURL workerScript (js "text/javascript") p in
                           (p1, inl u)) ;;
  log info (js "Created worker blob: " ++ workerURL) ;;
  ret workerURL.

(** Third part: core and wasm as blob URLs, then the engine's own [load]
    with all four URLs given, then the flag. *)
Definition initEngine (workerURL : jsstring) : M P unit :=
  coreURL <- browser (CToBlobURL coreScriptURL (js "text/javascript"))
               (toBlobURL coreScriptURL (js "text/javascript")) ;;
  wasmURL <- browser (CToBlobURL coreWasmURL (js "application/wasm"))
               (toBlobURL coreWasmURL (js "application/wasm")) ;;
  log info (js "Initializing FFmpeg engine...") ;;
  let config := mkConfig coreURL wasmURL workerURL workerURL in
  engine (CLoad config) (ffLoad config) ;;
  setLoaded true ;;
  log success (js "FFmpeg core loaded successfully.").

Definition loadBody : M P unit :=
  oldScript <- fetchWorkerScript ;;
  workerURL <- packageWorker oldScript ;;
  initEngine workerURL.

(** The [catch] block of [load]. *)
Definition loadHandler (err : JsThrown) : M P unit :=
  let msg := errorText err in
  log error (js "Failed to load FFmpeg: " ++ msg) ;;
  throw (JsError (js "FFmpeg Load Error: " ++ msg)).

Definition load : M P unit :=
  l <- getLoaded ;;
  if l then ret tt else tryCatch loadBody loadHandler.

Definition inputFileName : jsstring := js "input.mp4".
Definition mountDir : jsstring := js "/input_mount".
Definition inputPath : jsstring := mountDir ++ js "/" ++ inputFileName.
Definition outputPattern : jsstring := js "output_%03d.mp4".

(** The argument list handed to [exec]. *)
Definition execArgs (segmentDuration : Z) : list jsstring :=
  [ js "-i"; inputPath;
    js "-c"; js "copy";
    js "-map"; js "0";
    js "-f"; js "segment";
    js "-segment_time"; numToString segmentDuration;
    js "-reset_timestamps"; js "1";
    outputPattern ].

(** The test of the drain loop on a directory entry. *)
Definition isOutput (f : FSNode) : bool :=
  negb (isDir f) && startsWith (js "output_") (name f)
  && endsWith (js ".mp4") (name f).

(** The [for (const f of dir)] loop, with [files] the array built so far. *)
Fixpoint drain (dir : list FSNode) (files : list File) : M P (list File) :=
  match dir with
  | [] => ret files
  | f :: rest =>
      if isOutput f then
        data <- engine (CReadFile (name f)) (ffReadFile (name f)) ;;
        let files' := files ++ [fileOfData data (name f) (js "video/mp4")] in
        engine (CDeleteFile (name f)) (ffDeleteFile (name f)) ;;
        drain rest files'
      else drain rest files
  end.

(** [unmount(mountDir); deleteDir(mountDir)], as both cleanup sites run it. *)
Definition cleanup : M P unit :=
  engine (CUnmount mountDir) (ffUnmount mountDir) ;;
  engine (CDeleteDir mountDir) (ffDeleteDir mountDir).

(** The first statements of the [try] block of [splitVideo]: create the
    mount point and mount the input there. *)
Definition mountStep (safeFile : File) : M P unit :=
  log info (js "Mounting input file...") ;;
  engine (CCreateDir mountDir) (ffCreateDir mountDir) ;;
  engine (CMount (js "WORKERFS") [safeFile] mountDir)
         (ffMount (js "WORKERFS") [safeFile] mountDir).

(** The rest of the [try] block. *)
Definition segmentStep (segmentDuration : Z) : M P (list File) :=
  log info (js "Starting segmentation (Duration: "
            ++ numToString segmentDuration ++ js "s)...") ;;
  onProgress 10 ;;
  engine (CExec (execArgs segmentDuration)) (ffExec (execArgs segmentDuration)) ;;
  onProgress 80 ;;
  log success (js "Segmentation complete. Processing output files...") ;;
  tryCatch cleanup consoleWarn ;;
  dir <- engine (CListDir (js ".")) (ffListDir (js ".")) ;;
  files <- drain dir [] ;;
  onProgress 100 ;;
  ret files.

(** The [catch] block of [splitVideo]. *)
Definition splitHandler (err : JsThrown) : M P (list File) :=
  tryCatch cleanup (fun _ => ret tt) ;;
  log error (js "Processing failed: " ++ messageProp err) ;;
  throw err.

(** [if (!this.loaded) await this.load();] *)
Definition ensureLoaded : M P unit :=
  l <- getLoaded ;;
  when (negb l) load.

Definition splitVideo (file : File) (segmentDuration : Z) : M P (list File) :=
  ensureLoaded ;;
  let safeFile := renameFile file inputFileName (file_type file) in
  tryCatch (mountStep safeFile ;; segmentStep segmentDuration) splitHandler.

End ServiceCode.

(* ================================================================== *)
(** * Notions the statements are made of *)
(* ================================================================== *)


(** The engine keeps its outputs in a working directory.  [workDir] names
    its entries; the three laws say what the adapter relies on: a listing
    shows every entry, reading a file creates none, and a successful
    [deleteFile] creates none and leaves no entry of that name. *)
Class Memfs (P : Type) `{Platform P} : Type := {
  workDir : P -> list FSNode;
  listDir_complete :
    forall p p' msgs dir f,
      ffListDir (js ".") p = (p', msgs, inl dir) ->
      In f (workDir p') -> In f dir;
  readFile_frame :
    forall path p p' msgs r f,
      ffReadFile path p = (p', msgs, r) ->
      In f (workDir p') -> In f (workDir p);
  deleteFile_removes :
    forall path p p' msgs f,
      ffDeleteFile path p = (p', msgs, inl tt) ->
      In f (workDir p') -> In f (workDir p) /\ name f <> path
}.

(** What the fetch of the worker script amounts to for [load]: its text,
    or the value thrown on the way. *)
Definition fetched (r : result Response) : result jsstring :=
  match r with
  | inr e => inr e
  | inl resp =>
      if ok resp then text resp
      else inr (JsError (js "Failed to fetch worker: " ++ statusText resp))
  end.

Section Failures.

Context {P : Type} `{Platform P}.

(** A step of [load] fails, started on host state [p], with [e] the value
    thrown inside the [try] block. *)
Inductive BootFailure (p : P) : JsThrown -> Prop :=
  | FetchRejected p1 e :
      fetch workerScriptURL p = (p1, inr e) ->
      BootFailure p e
  | FetchNotOk p1 resp :
      fetch workerScriptURL p = (p1, inl resp) ->
      ok resp = false ->
      BootFailure p (JsError (js "Failed to fetch worker: " ++ statusText resp))
  | TextRejected p1 resp e :
      fetch workerScriptURL p = (p1, inl resp) ->
      ok resp = true ->
      text resp = inr e ->
      BootFailure p e
  | CoreRejected p1 resp script p2 url p3 e :
      fetch workerScriptURL p = (p1, inl resp) ->
      ok resp = true ->
      text resp = inl script ->
      createObjectURL (Patch.patchWorker script) (js "text/javascript") p1 = (p2, url) ->
      toBlobURL coreScriptURL (js "text/javascript") p2 = (p3, inr e) ->
      BootFailure p e
  | WasmRejected p1 resp script p2 url p3 core p4 e :
      fetch workerScriptURL p = (p1, inl resp) ->
      ok resp = true ->
      text resp = inl script ->
      createObjectURL (Patch.patchWorker script) (js "text/javascript") p1 = (p2, url) ->
      toBlobURL coreScriptURL (js "text/javascript") p2 = (p3, inl core) ->
      toBlobURL coreWasmURL (js "application/wasm") p3 = (p4, inr e) ->
      BootFailure p e
  | EngineRejected p1 resp script p2 url p3 core p4 wasm p5 msgs e :
      fetch workerScriptURL p = (p1, inl resp) ->
      ok resp = true ->
      text resp = inl script ->
      createObjectURL (Patch.patchWorker script) (js "text/javascript") p1 = (p2, url) ->
      toBlobURL coreScriptURL (js "text/javascript") p2 = (p3, inl core) ->
      toBlobURL coreWasmURL (js "application/wasm") p3 = (p4, inl wasm) ->
      ffLoad (mkConfig core wasm url url) p4 = (p5, msgs, inr e) ->
      BootFailure p e.

(** The mount step of [splitVideo] fails on host state [p] with [e]:
    either [createDir] or [mount] rejects. *)
Inductive MountFailure (safeFile : File) (p : P) : JsThrown -> Prop :=
  | CreateDirRejected p1 msgs e :
      ffCreateDir mountDir p = (p1, msgs, inr e) ->
      MountFailure safeFile p e
  | MountRejected p1 msgs1 p2 msgs2 e :
      ffCreateDir mountDir p = (p1, msgs1, inl tt) ->
      ffMount (js "WORKERFS") [safeFile] mountDir p1 = (p2, msgs2, inr e) ->
      MountFailure safeFile p e.

End Failures.

(* ================================================================== *)
(** * The [try] block of [splitVideo], stage by stage *)
(* ================================================================== *)

Section Stages.

Context {P : Type} `{Platform P}.

Local Open Scope service_scope.

(** From the entry announcing the segmentation to the entry after [exec]. *)
Definition execStep (segmentDuration : Z) : M P unit :=
  log info (js "Starting segmentation (Duration: "
            ++ numToString segmentDuration ++ js "s)...") ;;
  onProgress 10 ;;
  engine (CExec (execArgs segmentDuration)) (ffExec (execArgs segmentDuration)) ;;
  onProgress 80 ;;
  log success (js "Segmentation complete. Processing output files...").

(** The [try] block up to the end of the cleanup that follows [exec]:
    what has run when [listDir] is called. *)
Definition listingReady (safeFile : File) (segmentDuration : Z) : M P unit :=
  mountStep safeFile ;;
  execStep segmentDuration ;;
  tryCatch cleanup consoleWarn.

(** The end of the [try] block: the listing, the loop over it, the last
    progress report. *)
Definition collectStep : M P (list File) :=
  dir <- engine (CListDir (js ".")) (ffListDir (js ".")) ;;
  files <- drain dir [] ;;
  onProgress 100 ;;
  ret files.

(** The [try] block of [splitVideo], entered in world [w], fails with
    [e]: an engine call rejects with [e] in the host state the statements
    before it have led to.  For the loop, [pre] are the entries it went
    through before it came to [f]. *)
Inductive TryFailure (safeFile : File) (d : Z) (w : World P) : JsThrown -> Prop :=
  | MountStepFailed e :
      MountFailure safeFile (host w) e ->
      TryFailure safeFile d w e
  | ExecRejected wm p msgs e :
      mountStep safeFile w = (wm, inl tt) ->
      ffExec (execArgs d) (host wm) = (p, msgs, inr e) ->
      TryFailure safeFile d w e
  | ListDirRejected wl p msgs e :
      listingReady safeFile d w = (wl, inl tt) ->
      ffListDir (js ".") (host wl) = (p, msgs, inr e) ->
      TryFailure safeFile d w e
  | ReadFileRejected wl wd dir pre f post acc wq p msgs e :
      listingReady safeFile d w = (wl, inl tt) ->
      engine (CListDir (js ".")) (ffListDir (js ".")) wl = (wd, inl dir) ->
      dir = pre ++ f :: post ->
      isOutput f = true ->
      drain pre [] wd = (wq, inl acc) ->
      ffReadFile (name f) (host wq) = (p, msgs, inr e) ->
      TryFailure safeFile d w e
  | DeleteFileRejected wl wd dir pre f post acc wq data wr p msgs e :
      listingReady safeFile d w = (wl, inl tt) ->
      engine (CListDir (js ".")) (ffListDir (js ".")) wl = (wd, inl dir) ->
      dir = pre ++ f :: post ->
      isOutput f = true ->
      drain pre [] wd = (wq, inl acc) ->
      engine (CReadFile (name f)) (ffReadFile (name f)) wq = (wr, inl data) ->
      ffDeleteFile (name f) (host wr) = (p, msgs, inr e) ->
      TryFailure safeFile d w e.

End Stages.

(* ================================================================== *)
(** * Specifications of service computations *)
(* ================================================================== *)

Section Specs.

Context {P : Type}.

(** From a world satisfying [pre], [m] either returns [a] in a world
    satisfying [post a], or throws [e] in a world satisfying [exc e]. *)
Definition triple {A} (pre : World P -> Prop) (m : M P A)
    (post : A -> World P -> Prop) (exc : JsThrown -> World P -> Prop) : Prop :=
  forall w, pre w ->
    match m w with
    | (w', inl a) => post a w'
    | (w', inr e) => exc e w'
    end.

(** [m] moves the world along [R], whatever its outcome. *)
Definition frames {A} (R : World P -> World P -> Prop) (m : M P A) : Prop :=
  forall w, R w (fst (m w)).

(** [m] never throws. *)
Definition total {A} (m : M P A) : Prop :=
  forall w, exists a, snd (m w) = inl a.

(** The view [f] of the world is the same before and after. *)
Definition same {X} (f : World P -> X) : World P -> World P -> Prop :=
  fun w w' => f w' = f w.

(** The view [f] of the world only grows at its end. *)
Definition grows {X} (f : World P -> list X) : World P -> World P -> Prop :=
  fun w w' => exists extra, f w' = f w ++ extra.

(** The [exec] calls made so far. *)
Definition execs (w : World P) : list Call := filter isExec (calls w).

(** The progress values a call may have reported when it throws. *)
Definition partialProgress (base : list Z) (w : World P) : Prop :=
  progress w = base \/ progress w = base ++ [10] \/ progress w = base ++ [10; 80].

(** The entries of the engine's working directory that the drain loop
    takes for outputs. *)
Definition leftovers `{Platform P} `{!Memfs P} (w : World P) : list FSNode :=
  filter isOutput (workDir (host w)).

End Specs.

(** A sequence of progress values never goes down. *)
Fixpoint nonDecreasing (l : list Z) : bool :=
  match l with
  | x :: ((y :: _) as rest) => (x <=? y) && nonDecreasing rest
  | _ => true
  end.

(** Every output carries the MIME type of the input. *)
Definition sameContainer (input : File) (outputs : list File) : bool :=
  forallb (fun f => jsstring_eqb (file_type f) (file_type input)) outputs.

(* ================================================================== *)
(** * A simulated platform *)
(* ================================================================== *)

Module Sim.

(** A deterministic stand-in for browser and engine: the worker fetch
    yields [worker]; [exec] writes the [pending] files into the working
    directory; any call listed by [fault] rejects instead of running. *)
Record State : Type := mkState {
  clock : Z;
  isolated : bool;
  worker : result Response;
  urls : Z;
  fault : Call -> option JsThrown;
  pending : list (jsstring * list Z);
  memfs : list (FSNode * list Z);
  dirs : list jsstring;
  mounts : list jsstring
}.

Definition tick (p : State) : State :=
  {| clock := clock p + 1; isolated := isolated p; worker := worker p;
     urls := urls p; fault := fault p; pending := pending p;
     memfs := memfs p; dirs := dirs p; mounts := mounts p |}.

Definition newURL (p : State) : State * jsstring :=
  ({| clock := clock p + 1; isolated := isolated p; worker := worker p;
      urls := urls p + 1; fault := fault p; pending := pending p;
      memfs := memfs p; dirs := dirs p; mounts := mounts p |},
   js "blob:sim/" ++ numToString (urls p)).

Definition withFs (p : State) (pend : list (jsstring * list Z))
    (fs : list (FSNode * list Z)) (ds ms : list jsstring) : State :=
  {| clock := clock p + 1; isolated := isolated p; worker := worker p;
     urls := urls p; fault := fault p; pending := pend;
     memfs := fs; dirs := ds; mounts := ms |}.

Definition member (x : jsstring) (l : list jsstring) : bool :=
  existsb (jsstring_eqb x) l.

Definition remove (x : jsstring) (l : list jsstring) : list jsstring :=
  filter (fun y => negb (jsstring_eqb y x)) l.

Definition isFile (path : jsstring) (e : FSNode * list Z) : bool :=
  negb (isDir (fst e)) && jsstring_eqb (name (fst e)) path.

Definition enoent : JsThrown := JsOther (js "ErrnoError: FS error").

(** An engine call that honours the fault plan. *)
Definition guarded {A} (c : Call) (p : State)
    (run : State * list jsstring * result A) : State * list jsstring * result A :=
  match fault p c with
  | Some e => (tick p, [], inr e)
  | None => run
  end.

Definition simFetch (url : jsstring) (p : State) : State * result Response :=
  match fault p (CFetch url) with
  | Some e => (tick p, inr e)
  | None => (tick p, worker p)
  end.

Definition simToBlobURL (url mimeType : jsstring) (p : State) : State * result jsstring :=
  match fault p (CToBlobURL url mimeType) with
  | Some e => (tick p, inr e)
  | None => let '(p1, u) := newURL p in (p1, inl u)
  end.

Definition simLoad (config : LoadConfig) (p : State) :=
  guarded (CLoad config) p (tick p, [js "ffmpeg core ready"], inl tt).

Definition simCreateDir (path : jsstring) (p : State) :=
  guarded (CCreateDir path) p
    (if member path (dirs p) then (tick p, [], inr enoent)
     else (withFs p (pending p) (memfs p) (dirs p ++ [path]) (mounts p), [], inl tt)).

Definition simMount (fsType : jsstring) (files : list File) (mountPoint : jsstring)
    (p : State) :=
  guarded (CMount fsType files mountPoint) p
    (if member mountPoint (dirs p) then
       (withFs p (pending p) (memfs p) (dirs p) (mounts p ++ [mountPoint]), [], inl tt)
     else (tick p, [], inr enoent)).

Definition simExec (args : list jsstring) (p : State) :=
  guarded (CExec args) p
    (withFs p []
       (memfs p ++ map (fun e => (mkNode (fst e) false, snd e)) (pending p))
       (dirs p) (mounts p),
     map (fun e => js "Opening for writing: " ++ fst e) (pending p),
     inl 0).

Definition simUnmount (mountPoint : jsstring) (p : State) :=
  guarded (CUnmount mountPoint) p
    (if member mountPoint (mounts p) then
       (withFs p (pending p) (memfs p) (dirs p) (remove mountPoint (mounts p)), [], inl tt)
     else (tick p, [], inr enoent)).

Definition simDeleteDir (path : jsstring) (p : State) :=
  guarded (CDeleteDir path) p
    (if member path (dirs p) then
       (withFs p (pending p) (memfs p) (remove path (dirs p)) (mounts p), [], inl tt)
     else (tick p, [], inr enoent)).

Definition simListDir (path : jsstring) (p : State) :=
  guarded (CListDir path) p (tick p, [], inl (map fst (memfs p))).

Definition simReadFile (path : jsstring) (p : State) :=
  guarded (CReadFile path) p
    match find (isFile path) (memfs p) with
    | Some e => (tick p, [], inl (snd e))
    | None => (tick p, [], inr enoent)
    end.

Definition simDeleteFile (path : jsstring) (p : State) :=
  guarded (CDeleteFile path) p
    (if existsb (isFile path) (memfs p) then
       (withFs p (pending p)
          (filter (fun e => negb (jsstring_eqb (name (fst e)) path)) (memfs p))
          (dirs p) (mounts p), [], inl tt)
     else (tick p, [], inr enoent)).

#[global] Instance platform : Platform State := {|
  dateNow := clock;
  crossOriginIsolated := isolated;
  fetch := simFetch;
  createObjectURL := fun _ _ p => newURL p;
  toBlobURL := simToBlobURL;
  ffLoad := simLoad;
  ffCreateDir := simCreateDir;
  ffMount := simMount;
  ffExec := simExec;
  ffUnmount := simUnmount;
  ffDeleteDir := simDeleteDir;
  ffListDir := simListDir;
  ffReadFile := simReadFile;
  ffDeleteFile := simDeleteFile
|}.

(** ** Scenarios *)

Definition noFault : Call -> option JsThrown := fun _ => None.

(** A worker script with imports in both styles, minified and spaced. *)
Definition mixedScript : jsstring :=
  js "import{FFmpeg}from" ++ [dquote] ++ js "./classes.js" ++ [dquote]
  ++ js ";import { x } from './util.js';let ffmpeg;".

Definition plainScript : jsstring := js "let ffmpeg;self.onmessage=null;".

Definition okResponse (body : jsstring) : result Response :=
  inl (mkResponse true (js "OK") (inl body)).

Definition notFound : result Response :=
  inl (mkResponse false (js "Not Found") (inl (js "<html>404</html>"))).

Definition fresh (w : result Response) (f : Call -> option JsThrown)
    (outs : list (jsstring * list Z)) : State :=
  {| clock := 1000; isolated := false; worker := w; urls := 0; fault := f;
     pending := outs; memfs := []; dirs := []; mounts := [] |}.

Definition twoClips : list (jsstring * list Z) :=
  [ (js "output_000.mp4", [0; 0; 0; 24]); (js "output_001.mp4", [0; 0; 0; 28]) ].

(** A service just constructed on host [p]. *)
Definition newService (p : State) : World State :=
  mkWorld false p [] [] [] [].

(** A service whose engine is already loaded. *)
Definition readyService (p : State) : World State :=
  mkWorld true p [] [] [] [].

(** Reading the second clip back fails. *)
Definition readFault : Call -> option JsThrown :=
  fun c =>
    match c with
    | CReadFile path =>
        if jsstring_eqb path (js "output_001.mp4")
        then Some (JsOther (js "RangeError: Array buffer allocation failed"))
        else None
    | _ => None
    end.

(** The mount point cannot be mounted. *)
Definition mountFault : Call -> option JsThrown :=
  fun c =>
    match c with
    | CMount _ _ _ => Some (JsOther (js "ErrnoError: FS error"))
    | _ => None
    end.

(** The CDN refuses the wasm payload. *)
Definition wasmFault : Call -> option JsThrown :=
  fun c =>
    match c with
    | CToBlobURL url _ =>
        if jsstring_eqb url coreWasmURL
        then Some (JsError (js "Failed to fetch"))
        else None
    | _ => None
    end.

Definition clipFile : File :=
  mkFile (js "holiday.webm") (js "video/webm") 4 [26; 69; 223; 163].

(** A fresh page whose engine will write two clips. *)
Definition bootWorld : World State :=
  newService (fresh (okResponse mixedScript) noFault twoClips).

(** A fresh page whose worker script has no relative import. *)
Definition plainWorld : World State :=
  newService (fresh (okResponse plainScript) noFault []).

(** A fresh page whose CDN answers 404 for the worker script. *)
Definition offlineWorld : World State :=
  newService (fresh notFound noFault []).

Definition readFailWorld : World State :=
  readyService (fresh (okResponse mixedScript) readFault twoClips).

Definition mountFailWorld : World State :=
  readyService (fresh (okResponse mixedScript) mountFault twoClips).

(** The two clips as [splitVideo] returns them. *)
Definition twoFiles : list File :=
  [ fileOfData [0; 0; 0; 24] (js "output_000.mp4") (js "video/mp4");
    fileOfData [0; 0; 0; 28] (js "output_001.mp4") (js "video/mp4") ].

End Sim.

(** [s.includes(pat)] *)
Fixpoint occurs (pat s : jsstring) : bool :=
  startsWith pat s
  || match s with
     | [] => false
     | _ :: s' => occurs pat s'
     end.

(** A script in which a comment holds the word [from] before a quote, a dot
    and a slash, ahead of a real import. *)
Definition hiddenImport : jsstring :=
  js "/* moved from " ++ [dquote] ++ js "./old */import b from './b.js';".

(** ** A CDN that serves the core under a failure status

    The state is that of [Sim].  The worker script is answered as there;
    any other URL is answered with its payload under a status that is not
    a success.  [toBlobURL] does what the library function of that name
    does: it fetches, takes the body of the answer without looking at the
    status, and makes an object URL of it. *)
Module Lax.

Definition laxFetch (url : jsstring) (p : Sim.State) : Sim.State * result Response :=
  if jsstring_eqb url workerScriptURL then Sim.simFetch url p
  else (Sim.tick p,
        inl (mkResponse false (js "Service Unavailable") (inl (js "payload")))).

Definition laxToBlobURL (url mimeType : jsstring) (p : Sim.State)
    : Sim.State * result jsstring :=
  match laxFetch url p with
  | (p1, inr e) => (p1, inr e)
  | (p1, inl resp) =>
      match text resp with
      | inr e => (p1, inr e)
      | inl _ => let '(p2, u) := Sim.newURL p1 in (p2, inl u)
      end
  end.

Definition platform : Platform Sim.State := {|
  dateNow := Sim.clock;
  crossOriginIsolated := Sim.isolated;
  fetch := laxFetch;
  createObjectURL := fun _ _ p => Sim.newURL p;
  toBlobURL := laxToBlobURL;
  ffLoad := Sim.simLoad;
  ffCreateDir := Sim.simCreateDir;
  ffMount := Sim.simMount;
  ffExec := Sim.simExec;
  ffUnmount := Sim.simUnmount;
  ffDeleteDir := Sim.simDeleteDir;
  ffListDir := Sim.simListDir;
  ffReadFile := Sim.simReadFile;
  ffDeleteFile := Sim.simDeleteFile
|}.

End Lax.

(* ================================================================== *)
(** * VideoUploader: the event handlers *)
(* ================================================================== *)

Module UploaderUI.

(** The [isDragging] cell beside the state [validateAndPass] works on. *)
Record State : Type := mkState {
  isDragging : bool;
  core : Uploader.State
}.

Definition init : State := mkState false (Uploader.mkState None []).

(** [handleDrag]: by the type of the event. *)
Definition handleDrag (type : jsstring) (s : State) : State :=
  if jsstring_eqb type (js "dragenter") || jsstring_eqb type (js "dragover")
  then mkState true (core s)
  else if jsstring_eqb type (js "dragleave") then mkState false (core s)
  else s.

(** [files && files[0]]: the file list may be missing, or empty. *)
Definition firstFile (files : option (list File)) : option File :=
  match files with
  | Some (f :: _) => Some f
  | _ => None
  end.

(** [handleDrop] *)
Definition handleDrop (files : option (list File)) (s : State) : State :=
  match firstFile files with
  | Some f => mkState false (Uploader.validateAndPass f (core s))
  | None => mkState false (core s)
  end.

(** [handleChange] *)
Definition handleChange (files : option (list File)) (s : State) : State :=
  match firstFile files with
  | Some f => mkState (isDragging s) (Uploader.validateAndPass f (core s))
  | None => s
  end.

Inductive Event : Type :=
  | Drag (type : jsstring)
  | Drop (files : option (list File))
  | Change (files : option (list File)).

Definition step (ev : Event) (s : State) : State :=
  match ev with
  | Drag type => handleDrag type s
  | Drop files => handleDrop files s
  | Change files => handleChange files s
  end.

(** The state after a history of events, oldest first. *)
Definition run (evs : list Event) : State :=
  fold_left (fun s ev => step ev s) evs init.

(** The file an event puts before [validateAndPass], if any. *)
Definition offered (ev : Event) : list File :=
  match ev with
  | Drag _ => []
  | Drop files | Change files =>
      match firstFile files with Some f => [f] | None => [] end
  end.

(** The test a file has to pass. *)
Definition accepts (f : File) : bool :=
  startsWith (js "video/") (file_type f)
  && (file_size f <=? 5 * 1024 * 1024 * 1024).

End UploaderUI.

(* ================================================================== *)
(** * The page: uploader and app together *)
(* ================================================================== *)

Module Page.

Record State : Type := mkState {
  uploader : UploaderUI.State;
  app : App.State
}.

Definition init : State := mkState UploaderUI.init App.init.

(** What can happen on the page.  [handleFileSelect] is the [onFileSelect]
    prop of the uploader and has no other caller, so a file reaches the
    app through an uploader event only.  The uploader is rendered while no
    file is chosen; when it is rendered again its cells start afresh
    ([Remount]). *)
Inductive Event : Type :=
  | Upload (ev : UploaderUI.Event)
  | Remount
  | Other (ev : App.Event).

Definition isFileSelected (ev : App.Event) : bool :=
  match ev with App.FileSelected _ => true | _ => false end.

(** The calls of [onFileSelect] made between two states of the uploader. *)
Definition passed (u u' : UploaderUI.State) : list File :=
  skipn (List.length (Uploader.selected (UploaderUI.core u)))
        (Uploader.selected (UploaderUI.core u')).

Definition step (ev : Event) (s : State) : State :=
  match ev with
  | Upload uev =>
      let u' := UploaderUI.step uev (uploader s) in
      mkState u'
        (fold_left (fun a f => App.step (App.FileSelected f) a)
                   (passed (uploader s) u') (app s))
  | Remount =>
      mkState (UploaderUI.mkState false
                 (Uploader.mkState None
                    (Uploader.selected (UploaderUI.core (uploader s)))))
              (app s)
  | Other aev =>
      if isFileSelected aev then s
      else mkState (uploader s) (App.step aev (app s))
  end.

Definition run (evs : list Event) : State :=
  fold_left (fun s ev => step ev s) evs init.

End Page.

(* ================================================================== *)
(** * App and service together: [handleSplit] *)
(* ================================================================== *)

(** The last duration typed in a history of [App] events. *)
Fixpoint lastInput (evs : list App.Event) : option jsstring :=
  match evs with
  | [] => None
  | ev :: rest =>
      match lastInput rest with
      | Some v => Some v
      | None => match ev with App.DurationInput v => Some v | _ => None end
      end
  end.

(** Where the arguments of a [splitVideo] invocation come from in a
    history of [App] events: the file from a [handleFileSelect], the
    duration from the initial 30 or from an input, and the service from the
    mount effect. *)
Definition chosen (evs : list App.Event) (c : File * Z) : Prop :=
  In (App.FileSelected (fst c)) evs
  /\ In App.Mounted evs
  /\ (snd c = 30
      \/ exists v, In (App.DurationInput v) evs /\ snd c = Settings.onChange v).

(** What the state holds comes from the history. *)
Definition traced (evs : list App.Event) (s : App.State) : Prop :=
  (forall f, App.videoFile s = Some f -> In (App.FileSelected f) evs)
  /\ (App.serviceReady s = true -> In App.Mounted evs)
  /\ (App.splitDuration s = 30
      \/ exists v, In (App.DurationInput v) evs
                   /\ App.splitDuration s = Settings.onChange v)
  /\ Forall (chosen evs) (App.splitCalls s).

(** The file the app holds passed the uploader's test, and so did the
    file of every [splitVideo] invocation, whose duration is at least 1. *)
Definition guarded (s : Page.State) : Prop :=
  (forall f, App.videoFile (Page.app s) = Some f -> UploaderUI.accepts f = true)
  /\ Forall (fun c => UploaderUI.accepts (fst c) = true)
            (App.splitCalls (Page.app s))
  /\ App.durationOk (Page.app s).


(** The app once the service exists, the core is loaded and a clip has
    been selected. *)
Definition clipSelected : App.State :=
  App.run [App.Mounted; App.CoreLoaded true; App.FileSelected Sim.clipFile].

(** The file the uploader was given last, if any. *)
Definition lastOffered (evs : list UploaderUI.Event) : option File :=
  last (map Some (flat_map UploaderUI.offered evs)) None.

Section Session.

Context {P : Type} `{Platform P}.

(** The values passed to the progress callback between two worlds. *)
Definition reported (w w' : World P) : list Z :=
  skipn (List.length (progress w)) (progress w').

(** [handleSplit], with the service call in it: the guard, the three
    setters before the call, the callback [(p) => setProgress(Math.round(p))]
    for every value reported, and the setters after the [await] or in the
    [catch]. *)
Definition handleSplit (s : App.State) (w : World P) : App.State * World P :=
  match App.videoFile s with
  | Some file =>
      if App.serviceReady s then
        let s1 := App.step App.SplitClicked s in
        let '(w', r) := splitVideo file (App.splitDuration s) w in
        let s2 := fold_left (fun a p => App.step (App.ProgressReported p) a)
                            (reported w w') s1 in
        (App.step (App.SplitSettled
                     (match r with inl files => Some files | inr _ => None end)) s2,
         w')
      else (s, w)
  | None => (s, w)
  end.

(** A log entry that is not of type [error]. *)
Definition calm (e : LogEntry) : Prop := log_type e <> error.

(** The log grows by entries none of which is an error. *)
Definition calmly (w w' : World P) : Prop :=
  exists extra, logs w' = logs w ++ extra /\ Forall calm extra.

(** The entries a call added to the log end with an entry of type
    [error], the only one of that type. *)
Definition endsInError (extra : list LogEntry) : Prop :=
  exists pre entry,
    extra = pre ++ [entry] /\ Forall calm pre /\ log_type entry = error.

(** The calls the drain loop makes on a listing: each output is read, then
    deleted, before the next is looked at. *)
Definition drainCalls (dir : list FSNode) : list Call :=
  flat_map (fun f => [CReadFile (name f); CDeleteFile (name f)])
           (filter isOutput dir).

End Session.

(* ================================================================== *)
(** * Facts: strings *)
(* ================================================================== *)

Lemma jsstring_eqb_eq (a b : jsstring) : jsstring_eqb a b = true <-> a = b.
Proof.
  revert b; induction a as [|x a IH]; intros [|y b]; simpl;
    try (split; [discriminate | congruence]); try tauto.
  rewrite andb_true_iff, Z.eqb_eq, IH.
  split; [intros [-> ->]; reflexivity | intros E; inversion E; auto].
Qed.

Lemma jsstring_eqb_neq (a b : jsstring) : jsstring_eqb a b = false <-> a <> b.
Proof.
  rewrite <- jsstring_eqb_eq. destruct (jsstring_eqb a b); split; congruence.
Qed.

Lemma stripPrefix_app (p r : jsstring) : stripPrefix p (p ++ r) = Some r.
Proof.
  induction p as [|x p IH]; simpl; [destruct r; reflexivity|].
  rewrite Z.eqb_refl; exact IH.
Qed.

Lemma stripPrefix_Some (p s r : jsstring) :
  stripPrefix p s = Some r -> s = p ++ r.
Proof.
  revert s; induction p as [|x p IH]; intros [|y s]; simpl; try congruence.
  destruct (Z.eqb_spec x y) as [->|]; [|discriminate].
  intros E; rewrite (IH _ E); reflexivity.
Qed.

(* ================================================================== *)
(** * Facts: the import pattern *)
(* ================================================================== *)

Section PatchFacts.

Import Patch.

Lemma quote_not_space (q : Z) : is_quote q = true -> is_space q = false.
Proof.
  unfold is_quote, squote, dquote; intros Hq.
  apply orb_true_iff in Hq; destruct Hq as [E|E]; apply Z.eqb_eq in E; subst;
    reflexivity.
Qed.

Lemma skipSpaces_app (ws : jsstring) (q : Z) (t : jsstring) :
  forallb is_space ws = true -> is_space q = false ->
  skipSpaces (ws ++ q :: t) = q :: t.
Proof.
  intros Hws Hq; induction ws as [|c ws IH]; simpl in *.
  - rewrite Hq; reflexivity.
  - apply andb_true_iff in Hws; destruct Hws as [-> Hws]; auto.
Qed.

Lemma skipSpaces_split (s : jsstring) :
  exists ws, forallb is_space ws = true /\ s = ws ++ skipSpaces s.
Proof.
  induction s as [|c s [ws [Hws E]]]; simpl.
  - exists []; auto.
  - destruct (is_space c) eqn:Hc.
    + exists (c :: ws); simpl; rewrite Hc, Hws; split; [reflexivity | congruence].
    + exists []; auto.
Qed.

Lemma lazyCapture_app (n : jsstring) (q : Z) (r : jsstring) :
  forallb name_char n = true -> is_quote q = true ->
  lazyCapture (n ++ q :: r) = Some (n, r).
Proof.
  intros Hn Hq; induction n as [|c n IH]; simpl in *.
  - rewrite Hq; reflexivity.
  - apply andb_true_iff in Hn; destruct Hn as [Hc Hn].
    unfold name_char in Hc; apply andb_true_iff in Hc; destruct Hc as [H1 H2].
    apply negb_true_iff in H1, H2; rewrite H1, H2, (IH Hn); reflexivity.
Qed.

Lemma lazyCapture_Some (s n r : jsstring) :
  lazyCapture s = Some (n, r) ->
  forallb name_char n = true /\ exists q, is_quote q = true /\ s = n ++ q :: r.
Proof.
  revert n; induction s as [|c s IH]; simpl; intros n; [discriminate|].
  destruct (is_quote c) eqn:Hq.
  - intros E; inversion E; subst; split; [reflexivity|]; exists c; auto.
  - destruct (is_line_terminator c) eqn:Hl; [discriminate|].
    destruct (lazyCapture s) as [[n' r']|] eqn:Hc; [|discriminate].
    intros E; inversion E; subst.
    destruct (IH n' eq_refl) as [Hn' [q [Hq' ->]]].
    split.
    + simpl; unfold name_char at 1; rewrite Hq, Hl, Hn'; reflexivity.
    + exists q; auto.
Qed.

(** The matcher accepts exactly the relative references of the grammar. *)
Lemma matchImport_refAt (s n r : jsstring) :
  matchImport s = Some (n, r) <-> refAt s n r.
Proof.
  split.
  - unfold matchImport; intros Hm.
    destruct (stripPrefix (js "from") s) as [s1|] eqn:H1; [|discriminate].
    apply stripPrefix_Some in H1.
    destruct (skipSpaces_split s1) as [ws [Hws E1]].
    destruct (skipSpaces s1) as [|q s2]; [discriminate|].
    destruct (is_quote q) eqn:Hq; [|discriminate].
    destruct (stripPrefix (js "./") s2) as [s3|] eqn:H3; [|discriminate].
    apply stripPrefix_Some in H3.
    apply lazyCapture_Some in Hm; destruct Hm as [Hn [q2 [Hq2 E3]]].
    exists ws, q, q2; split; [repeat split; assumption|].
    unfold relRef; subst s s1 s2 s3.
    rewrite <- !app_assoc; simpl; rewrite <- !app_assoc; reflexivity.
  - intros [ws [q1 [q2 [[Hws [Hq1 [Hn Hq2]]] ->]]]].
    unfold matchImport, relRef.
    rewrite <- app_assoc, stripPrefix_app.
    rewrite <- app_assoc, <- app_comm_cons.
    rewrite (skipSpaces_app ws q1 _ Hws (quote_not_space q1 Hq1)), Hq1.
    rewrite <- app_assoc, stripPrefix_app, <- app_assoc.
    change ([q2] ++ r) with (q2 :: r).
    apply lazyCapture_app; assumption.
Qed.

Lemma matchImport_shorter (s n r : jsstring) :
  matchImport s = Some (n, r) -> (List.length r < List.length s)%nat.
Proof.
  intros Hm; apply matchImport_refAt in Hm.
  destruct Hm as [ws [q1 [q2 [_ ->]]]].
  unfold relRef; rewrite !length_app; simpl; rewrite !length_app; simpl; lia.
Qed.

(** ** The backtracking matcher on the import pattern *)

Lemma run_lits (l : jsstring) (r : Regex.regex) (s : jsstring) cap k :
  Regex.run (Regex.lits l r) s cap k
  = match stripPrefix l s with
    | Some s1 => Regex.run r s1 cap k
    | None => None
    end.
Proof.
  revert s; induction l as [|c l IH]; intros s; [reflexivity|].
  destruct s as [|x s]; [reflexivity|]. cbn [Regex.lits Regex.run stripPrefix].
  destruct (c =? x); [apply IH | reflexivity].
Qed.

(** A greedy run of white space gives nothing back when what follows
    cannot start with white space. *)
Lemma star_greedy_spaces (s : jsstring) (k : jsstring -> Regex.outcome) :
  (forall c t, is_space c = true -> k (c :: t) = None) ->
  Regex.star true is_space s k = k (skipSpaces s).
Proof.
  intros Hk; induction s as [|c s IH]; [reflexivity|].
  cbn [Regex.star skipSpaces]. destruct (is_space c) eqn:Hc; [|reflexivity].
  rewrite IH. destruct (k (skipSpaces s)); [reflexivity | apply Hk, Hc].
Qed.

Lemma terminator_not_quote (c : Z) :
  is_line_terminator c = true -> is_quote c = false.
Proof.
  unfold is_line_terminator; intros Hc.
  repeat (apply orb_true_iff in Hc; destruct Hc as [Hc|Hc]);
    apply Z.eqb_eq in Hc; subst; reflexivity.
Qed.

(** A lazy run of the dot before a quote stops at the first quote on the
    line; the group then holds what was passed over. *)
Lemma star_lazy_capture (whole pre s : jsstring) :
  whole = pre ++ s ->
  Regex.star false Regex.dot s
    (fun rest =>
       match rest with
       | x :: s' =>
           if is_quote x
           then Some (Some (firstn (List.length whole - List.length rest) whole), s')
           else None
       | [] => None
       end)
  = match lazyCapture s with
    | Some (n, r) => Some (Some (pre ++ n), r)
    | None => None
    end.
Proof.
  revert pre; induction s as [|c s IH]; intros pre E; [reflexivity|].
  cbn [Regex.star lazyCapture]. unfold Regex.dot at 1.
  assert (Hpre : firstn (List.length whole - List.length (c :: s)) whole = pre).
  { subst whole; rewrite length_app.
    replace (List.length pre + List.length (c :: s) - List.length (c :: s))%nat
      with (List.length pre + 0)%nat by lia.
    rewrite firstn_app_2; simpl; apply app_nil_r. }
  destruct (is_line_terminator c) eqn:Hl; cbn [negb].
  - rewrite (terminator_not_quote c Hl); reflexivity.
  - destruct (is_quote c) eqn:Hq.
    + rewrite Hpre, app_nil_r; reflexivity.
    + rewrite (IH (pre ++ [c])) by (rewrite <- app_assoc; exact E).
      destruct (lazyCapture s) as [[n r]|]; [|reflexivity].
      rewrite <- app_assoc; reflexivity.
Qed.

(** The backtracking matcher on [importPattern] does what [matchImport]
    does. *)
Lemma exec_importPattern (s : jsstring) :
  Regex.exec importPattern s
  = match matchImport s with
    | Some (n, r) => Some (Some n, r)
    | None => None
    end.
Proof.
  unfold Regex.exec, importPattern, matchImport.
  rewrite run_lits. destruct (stripPrefix (js "from") s) as [s1|]; [|reflexivity].
  cbn [Regex.run]. rewrite star_greedy_spaces.
  2:{ intros c t Hc. destruct (is_quote c) eqn:Hq; [|reflexivity].
      rewrite (quote_not_space c Hq) in Hc; discriminate. }
  destruct (skipSpaces s1) as [|q s2]; [reflexivity|].
  destruct (is_quote q); [|reflexivity].
  rewrite run_lits. destruct (stripPrefix (js "./") s2) as [s3|]; [|reflexivity].
  cbn [Regex.run].
  etransitivity; [exact (star_lazy_capture s3 [] s3 eq_refl)|].
  destruct (lazyCapture s3) as [[n r]|]; reflexivity.
Qed.

Lemma replaceAll_S (k : nat) (s : jsstring) :
  replaceAll (S k) s =
  match matchImport s with
  | Some (p1, rest) => replacement p1 ++ replaceAll k rest
  | None => match s with [] => [] | c :: s' => c :: replaceAll k s' end
  end.
Proof.
  cbn [replaceAll]; rewrite exec_importPattern.
  destruct (matchImport s) as [[n r]|]; reflexivity.
Qed.

(** Any fuel from the length of the text upwards gives the same result. *)
Lemma replaceAll_fuel (fuel1 fuel2 : nat) (s : jsstring) :
  (List.length s <= fuel1)%nat -> (List.length s <= fuel2)%nat ->
  replaceAll fuel1 s = replaceAll fuel2 s.
Proof.
  revert fuel2 s; induction fuel1 as [|k IH]; intros fuel2 s H1 H2.
  - destruct s; [|simpl in H1; lia]. destruct fuel2; reflexivity.
  - destruct fuel2 as [|k2].
    + destruct s; [|simpl in H2; lia]. reflexivity.
    + rewrite !replaceAll_S. destruct (matchImport s) as [[n r]|] eqn:Hm.
      * apply matchImport_shorter in Hm.
        rewrite (IH k2 r) by lia; reflexivity.
      * destruct s as [|c s']; [reflexivity|]. simpl in H1, H2.
        rewrite (IH k2 s') by lia; reflexivity.
Qed.

(** The recursion the fuel hides. *)
Lemma patchWorker_match (s n r : jsstring) :
  matchImport s = Some (n, r) ->
  patchWorker s = replacement n ++ patchWorker r.
Proof.
  intros Hm; unfold patchWorker.
  pose proof (matchImport_shorter _ _ _ Hm) as Hlt.
  destruct (List.length s) as [|k] eqn:Hl; [lia|].
  rewrite replaceAll_S, Hm. f_equal. apply replaceAll_fuel; lia.
Qed.

Lemma patchWorker_skip (c : Z) (s : jsstring) :
  matchImport (c :: s) = None ->
  patchWorker (c :: s) = c :: patchWorker s.
Proof.
  intros Hm; unfold patchWorker.
  change (List.length (c :: s)) with (S (List.length s)).
  rewrite replaceAll_S, Hm; reflexivity.
Qed.

(** Up to the first reference nothing changes; the first reference becomes
    absolute; the search resumes after it. *)
Lemma patchWorker_first (pre ws : jsstring) (q1 : Z) (name : jsstring) (q2 : Z)
    (post : jsstring) :
  refOk ws q1 name q2 ->
  (forall a b n r, pre = a ++ b -> b <> [] ->
                   ~ refAt (b ++ relRef ws q1 name q2 ++ post) n r) ->
  patchWorker (pre ++ relRef ws q1 name q2 ++ post)
  = pre ++ absRef name ++ patchWorker post.
Proof.
  intros Hok; induction pre as [|c pre IH]; intros Hfirst.
  - rewrite !app_nil_l, (patchWorker_match _ name post).
    + reflexivity.
    + apply matchImport_refAt; exists ws, q1, q2; auto.
  - rewrite <- !app_comm_cons, patchWorker_skip.
    + rewrite IH; [reflexivity|].
      intros a b n r E Hb; apply (Hfirst (c :: a) b n r); [|assumption].
      simpl; congruence.
    + destruct (matchImport (c :: pre ++ relRef ws q1 name q2 ++ post))
        as [[n r]|] eqn:Hm; [|reflexivity].
      exfalso; apply (Hfirst [] (c :: pre) n r); [reflexivity | discriminate |].
      apply matchImport_refAt; exact Hm.
Qed.

(** A text with no relative reference is left as it is. *)
Lemma patchWorker_unchanged (s : jsstring) :
  ~ hasRelRef s -> patchWorker s = s.
Proof.
  induction s as [|c s IH]; intros Hno; [reflexivity|].
  rewrite patchWorker_skip.
  - rewrite IH; [reflexivity|].
    intros [pre [tail [n [r [E Hr]]]]]; apply Hno.
    exists (c :: pre), tail, n, r; split; [simpl; congruence | assumption].
  - destruct (matchImport (c :: s)) as [[n r]|] eqn:Hm; [|reflexivity].
    exfalso; apply Hno; exists [], (c :: s), n, r; split; [reflexivity|].
    apply matchImport_refAt; exact Hm.
Qed.

End PatchFacts.

(* ================================================================== *)
(** * Facts: reasoning rules for service computations *)
(* ================================================================== *)

Arguments js : simpl never.
Arguments numToString : simpl never.
Arguments Patch.patchWorker : simpl never.

Section Rules.

Context {P : Type}.

Lemma triple_ret {A} (a : A) (pre : World P -> Prop) post exc :
  (forall w, pre w -> post a w) -> triple pre (ret a) post exc.
Proof. intros Hp w Hw; simpl; auto. Qed.

Lemma triple_bind {A B} (m : M P A) (k : A -> M P B) pre mid post exc :
  triple pre m mid exc ->
  (forall a, triple (mid a) (k a) post exc) ->
  triple pre (bind m k) post exc.
Proof.
  intros Hm Hk w Hw; unfold bind.
  specialize (Hm w Hw); destruct (m w) as [w1 [a|e]]; [|exact Hm].
  exact (Hk a w1 Hm).
Qed.

Lemma triple_tryCatch {A} (body : M P A) handler pre post mid exc :
  triple pre body post mid ->
  (forall e, triple (mid e) (handler e) post exc) ->
  triple pre (tryCatch body handler) post exc.
Proof.
  intros Hb Hh w Hw; unfold tryCatch.
  specialize (Hb w Hw); destruct (body w) as [w1 [a|e]]; [exact Hb|].
  exact (Hh e w1 Hb).
Qed.

(** ** Closure of [frames] *)

Section Frames.

Variable R : World P -> World P -> Prop.
Hypothesis R_refl : forall w, R w w.
Hypothesis R_trans : forall w1 w2 w3, R w1 w2 -> R w2 w3 -> R w1 w3.

Lemma frames_ret {A} (a : A) : frames R (ret a).
Proof. intros w; apply R_refl. Qed.

Lemma frames_throw {A} (e : JsThrown) : frames R (@throw P A e).
Proof. intros w; apply R_refl. Qed.

Lemma frames_await {A} (r : result A) : frames R (fun w : World P => (w, r)).
Proof. intros w; apply R_refl. Qed.

Lemma frames_bind {A B} (m : M P A) (k : A -> M P B) :
  frames R m -> (forall a, frames R (k a)) -> frames R (bind m k).
Proof.
  intros Hm Hk w; unfold bind; specialize (Hm w).
  destruct (m w) as [w1 [a|e]]; simpl in *; [|exact Hm].
  exact (R_trans _ _ _ Hm (Hk a w1)).
Qed.

Lemma frames_tryCatch {A} (body : M P A) handler :
  frames R body -> (forall e, frames R (handler e)) ->
  frames R (tryCatch body handler).
Proof.
  intros Hb Hh w; unfold tryCatch; specialize (Hb w).
  destruct (body w) as [w1 [a|e]]; simpl in *; [exact Hb|].
  exact (R_trans _ _ _ Hb (Hh e w1)).
Qed.

Lemma frames_when (b : bool) (m : M P unit) :
  frames R m -> frames R (when b m).
Proof. destruct b; intros Hm; [exact Hm | apply frames_ret]. Qed.

End Frames.

(** ** Closure of [total] *)

Lemma total_ret {A} (a : A) : total (@ret P A a).
Proof. intros w; exists a; reflexivity. Qed.

Lemma total_bind {A B} (m : M P A) (k : A -> M P B) :
  total m -> (forall a, total (k a)) -> total (bind m k).
Proof.
  intros Hm Hk w; unfold bind; destruct (Hm w) as [a Ha].
  destruct (m w) as [w1 [a'|e]]; simpl in *; [apply Hk | discriminate].
Qed.

Lemma total_tryCatch {A} (body : M P A) handler :
  (forall e, total (handler e)) -> total (tryCatch body handler).
Proof.
  intros Hh w; unfold tryCatch.
  destruct (body w) as [w1 [a|e]]; [exists a; reflexivity | apply Hh].
Qed.

Lemma total_when (b : bool) (m : M P unit) : total m -> total (when b m).
Proof. destruct b; intros Hm; [exact Hm | apply total_ret]. Qed.

(** ** The relations used below are preorders *)

Lemma same_refl {X} (f : World P -> X) w : same f w w.
Proof. reflexivity. Qed.

Lemma same_trans {X} (f : World P -> X) w1 w2 w3 :
  same f w1 w2 -> same f w2 w3 -> same f w1 w3.
Proof. unfold same; congruence. Qed.

Lemma grows_refl {X} (f : World P -> list X) w : grows f w w.
Proof. exists []; symmetry; apply app_nil_r. Qed.

Lemma grows_trans {X} (f : World P -> list X) w1 w2 w3 :
  grows f w1 w2 -> grows f w2 w3 -> grows f w1 w3.
Proof.
  intros [e1 E1] [e2 E2]; exists (e1 ++ e2); rewrite E2, E1, app_assoc; reflexivity.
Qed.

(** ** Inverting runs *)

Lemma bind_inl {A B} (m : M P A) (k : A -> M P B) w w' b :
  bind m k w = (w', inl b) ->
  exists a w1, m w = (w1, inl a) /\ k a w1 = (w', inl b).
Proof.
  unfold bind; destruct (m w) as [w1 [a|e]]; [|discriminate].
  intros E; exists a, w1; auto.
Qed.

Lemma bind_run {A B} (m : M P A) (k : A -> M P B) w w1 a :
  m w = (w1, inl a) -> bind m k w = k a w1.
Proof. unfold bind; intros ->; reflexivity. Qed.

Lemma bind_fail {A B} (m : M P A) (k : A -> M P B) w w1 e :
  m w = (w1, inr e) -> bind m k w = (w1, inr e).
Proof. unfold bind; intros ->; reflexivity. Qed.

Lemma tryCatch_fail {A} (body : M P A) handler w w1 e :
  body w = (w1, inr e) -> tryCatch body handler w = handler e w1.
Proof. unfold tryCatch; intros ->; reflexivity. Qed.

End Rules.

(* ================================================================== *)
(** * Facts: what each primitive touches *)
(* ================================================================== *)

Ltac preorder :=
  first [ exact (same_refl _) | exact (same_trans _)
        | exact (grows_refl _) | exact (grows_trans _) ].

Ltac world_step :=
  intros; unfold same, grows, execs; cbn;
  first [ reflexivity
        | exists []; symmetry; apply app_nil_r
        | eexists; reflexivity
        | rewrite filter_app; cbn; apply app_nil_r ].

Section Primitives.

Context {P : Type} `{Platform P}.

Variable R : World P -> World P -> Prop.
Hypothesis R_refl : forall w, R w w.
Hypothesis R_trans : forall w1 w2 w3, R w1 w2 -> R w2 w3 -> R w1 w3.

(** [R] tolerates a new log entry. *)
Hypothesis R_log :
  forall (w : World P) e,
    R w (mkWorld (loaded w) (host w) (logs w ++ [e]) (progress w)
                 (warnings w) (calls w)).

Lemma frames_log t m : frames R (log t m).
Proof. intros w; apply R_log. Qed.

Lemma frames_relay msgs : frames R (relay msgs).
Proof.
  induction msgs as [|m msgs IH]; simpl.
  - apply frames_ret; assumption.
  - apply frames_bind; [assumption | apply frames_log | intros _; exact IH].
Qed.

Lemma frames_browser {A} c (op : P -> P * result A) :
  (forall w p, R w (withHost w p c)) -> frames R (browser c op).
Proof.
  intros Hc w; unfold browser; destruct (op (host w)) as [p r]; apply Hc.
Qed.

Lemma frames_engine {A} c (op : P -> P * list jsstring * result A) :
  (forall w p, R w (withHost w p c)) -> frames R (engine c op).
Proof.
  intros Hc w; unfold engine; destruct (op (host w)) as [[p msgs] r].
  pose proof (frames_relay msgs (withHost w p c)) as Hr.
  destruct (relay msgs (withHost w p c)) as [w1 u]; simpl in *.
  exact (R_trans _ _ _ (Hc w p) Hr).
Qed.

End Primitives.

Section PrimitiveRuns.

Context {P : Type} `{Platform P}.

Lemma total_log t m : total (log (P:=P) t m).
Proof. intros w; exists tt; reflexivity. Qed.

Lemma total_onProgress v : total (onProgress (P:=P) v).
Proof. intros w; exists tt; reflexivity. Qed.

Lemma total_consoleWarn e : total (consoleWarn (P:=P) e).
Proof. intros w; exists tt; reflexivity. Qed.

Lemma total_setLoaded b : total (setLoaded (P:=P) b).
Proof. intros w; exists tt; reflexivity. Qed.

Lemma execs_withHost (w : World P) p c :
  isExec c = false -> execs (withHost w p c) = execs w.
Proof.
  intros Hc; unfold execs; cbn; rewrite filter_app; cbn; rewrite Hc.
  apply app_nil_r.
Qed.

(** What a browser call leaves behind. *)
Lemma browser_inv {A} c (op : P -> P * result A) w w' r :
  browser c op w = (w', r) ->
  op (host w) = (host w', r) /\ calls w' = calls w ++ [c]
  /\ loaded w' = loaded w /\ logs w' = logs w /\ progress w' = progress w.
Proof.
  unfold browser; destruct (op (host w)) as [p r0]; intros E; inversion E; subst.
  cbn; auto.
Qed.

(** What an engine call leaves behind. *)
Lemma engine_inv {A} c (op : P -> P * list jsstring * result A) w w' r :
  engine c op w = (w', r) ->
  exists msgs,
    op (host w) = (host w', msgs, r) /\ calls w' = calls w ++ [c]
    /\ loaded w' = loaded w /\ progress w' = progress w.
Proof.
  unfold engine; destruct (op (host w)) as [[p msgs] r0].
  pose proof (frames_relay (same host) (same_refl _) (same_trans _)
                ltac:(world_step) msgs (withHost w p c)) as Hh.
  pose proof (frames_relay (same calls) (same_refl _) (same_trans _)
                ltac:(world_step) msgs (withHost w p c)) as Hc.
  pose proof (frames_relay (same loaded) (same_refl _) (same_trans _)
                ltac:(world_step) msgs (withHost w p c)) as Hl.
  pose proof (frames_relay (same progress) (same_refl _) (same_trans _)
                ltac:(world_step) msgs (withHost w p c)) as Hp.
  destruct (relay msgs (withHost w p c)) as [w1 u]; unfold same in *; simpl in *.
  intros E; injection E as E1 E2; subst w1 r0; exists msgs.
  rewrite Hh, Hc, Hl, Hp; auto.
Qed.

End PrimitiveRuns.

(** Proves [frames R m] for a straight-line [m] built from primitives that
    [R] tolerates. *)
Ltac frames_auto :=
  repeat
    match goal with
    | |- frames _ (ret _) => apply frames_ret; preorder
    | |- frames _ (throw _) => apply frames_throw; preorder
    | |- frames _ (await _) => apply frames_await; preorder
    | |- frames _ (bind _ _) => apply frames_bind; [preorder | | intros ?]
    | |- frames _ (tryCatch _ _) => apply frames_tryCatch; [preorder | | intros ?]
    | |- frames _ (when _ _) => apply frames_when; [preorder | ]
    | |- frames _ (log _ _) => apply frames_log; world_step
    | |- frames _ (browser _ _) =>
        apply frames_browser; first [world_step | intros; apply execs_withHost; reflexivity]
    | |- frames _ (engine _ _) =>
        apply frames_engine;
        [preorder | preorder | world_step
         | first [world_step | intros; apply execs_withHost; reflexivity]]
    | |- frames _ getLoaded => intros ?w; world_step
    | |- frames _ getIsolated => intros ?w; world_step
    | |- frames _ (onProgress _) => intros ?w; world_step
    | |- frames _ (consoleWarn _) => intros ?w; world_step
    | |- frames _ (setLoaded _) => intros ?w; world_step
    | |- frames _ (if ?b then _ else _) => destruct b
    | |- frames _ (let _ := _ in _) => cbv zeta
    end.

Ltac total_auto :=
  repeat
    match goal with
    | |- total (ret _) => apply total_ret
    | |- total (bind _ _) => apply total_bind; [ | intros ?]
    | |- total (tryCatch _ _) => apply total_tryCatch; intros ?
    | |- total (when _ _) => apply total_when
    | |- total (log _ _) => apply total_log
    | |- total (onProgress _) => apply total_onProgress
    | |- total (consoleWarn _) => apply total_consoleWarn
    | |- total (setLoaded _) => apply total_setLoaded
    end.

Section Blocks.

Context {P : Type} `{Platform P}.

(** ** The frame of each block of the service *)

Lemma loadBody_progress : frames (same progress) (loadBody (P:=P)).
Proof.
  unfold loadBody, fetchWorkerScript, packageWorker, initEngine; frames_auto.
Qed.

Lemma loadBody_execs : frames (same execs) (loadBody (P:=P)).
Proof.
  unfold loadBody, fetchWorkerScript, packageWorker, initEngine; frames_auto.
Qed.

Lemma initEngine_logs u : frames (grows logs) (initEngine (P:=P) u).
Proof. unfold initEngine; frames_auto. Qed.

Lemma initEngine_calls u : frames (grows calls) (initEngine (P:=P) u).
Proof. unfold initEngine; frames_auto. Qed.

Lemma load_progress : frames (same progress) (load (P:=P)).
Proof.
  unfold load, loadHandler; frames_auto; apply loadBody_progress.
Qed.

Lemma load_execs : frames (same execs) (load (P:=P)).
Proof.
  unfold load, loadHandler; frames_auto; apply loadBody_execs.
Qed.

Lemma cleanup_loaded : frames (same loaded) (cleanup (P:=P)).
Proof. unfold cleanup; frames_auto. Qed.

Lemma cleanup_progress : frames (same progress) (cleanup (P:=P)).
Proof. unfold cleanup; frames_auto. Qed.

Lemma cleanup_execs : frames (same execs) (cleanup (P:=P)).
Proof. unfold cleanup; frames_auto. Qed.

Lemma mountStep_loaded f : frames (same loaded) (mountStep (P:=P) f).
Proof. unfold mountStep; frames_auto. Qed.

Lemma mountStep_progress f : frames (same progress) (mountStep (P:=P) f).
Proof. unfold mountStep; frames_auto. Qed.

Lemma mountStep_execs f : frames (same execs) (mountStep (P:=P) f).
Proof. unfold mountStep; frames_auto. Qed.

Lemma drain_loaded dir files : frames (same loaded) (drain (P:=P) dir files).
Proof.
  revert files; induction dir as [|f dir IH]; intros files; simpl.
  - frames_auto.
  - destruct (isOutput f); [|apply IH]. frames_auto. apply IH.
Qed.

Lemma drain_progress dir files : frames (same progress) (drain (P:=P) dir files).
Proof.
  revert files; induction dir as [|f dir IH]; intros files; simpl.
  - frames_auto.
  - destruct (isOutput f); [|apply IH]. frames_auto. apply IH.
Qed.

Lemma segmentStep_loaded d : frames (same loaded) (segmentStep (P:=P) d).
Proof.
  unfold segmentStep; frames_auto;
    first [apply cleanup_loaded | apply drain_loaded].
Qed.

Lemma splitHandler_loaded e : frames (same loaded) (splitHandler (P:=P) e).
Proof. unfold splitHandler; frames_auto; apply cleanup_loaded. Qed.

Lemma splitHandler_progress e : frames (same progress) (splitHandler (P:=P) e).
Proof. unfold splitHandler; frames_auto; apply cleanup_progress. Qed.

Lemma splitHandler_execs e : frames (same execs) (splitHandler (P:=P) e).
Proof. unfold splitHandler; frames_auto; apply cleanup_execs. Qed.

(** The [catch] block of [splitVideo] always rethrows what it caught. *)
Lemma splitHandler_rethrows e (w : World P) :
  snd (splitHandler e w) = inr e.
Proof.
  unfold splitHandler.
  assert (Ht : total (tryCatch (cleanup (P:=P)) (fun _ => ret tt))) by total_auto.
  unfold bind at 1. destruct (Ht w) as [a Ha].
  destruct (tryCatch cleanup (fun _ => ret tt) w) as [w1 [u|x]];
    simpl in Ha; [|discriminate].
  reflexivity.
Qed.

End Blocks.

(* ================================================================== *)
(** * The file-selection guard *)
(* ================================================================== *)

Section UploaderFacts.

Import Uploader.

Example accepts_small_video :
  validateAndPass (mkFile (js "a.mp4") (js "video/mp4") 1024 []) (mkState None [])
  = mkState None [mkFile (js "a.mp4") (js "video/mp4") 1024 []].
Proof. reflexivity. Qed.

Example rejects_image :
  validateAndPass (mkFile (js "a.png") (js "image/png") 1024 []) (mkState None [])
  = mkState (Some (js "Please upload a valid video file.")) [].
Proof. reflexivity. Qed.

Example accepts_at_limit :
  selected (validateAndPass (mkFile (js "a.mp4") (js "video/mp4") 5368709120 [])
                            (mkState None []))
  = [mkFile (js "a.mp4") (js "video/mp4") 5368709120 []].
Proof. reflexivity. Qed.

Example rejects_above_limit :
  validateAndPass (mkFile (js "a.mp4") (js "video/mp4") 5368709121 [])
                  (mkState None [])
  = mkState (Some (js "For browser performance, please use videos under 5GB.")) [].
Proof. reflexivity. Qed.

(** C8. [validateAndPass] hands a file to [onFileSelect] exactly when its
    MIME type starts with [video/] and its size is at most
    5 * 1024 * 1024 * 1024 bytes, clearing the error; for any other file it
    sets an error message and does not invoke [onFileSelect]. *)
Theorem validateAndPass_guard (file : File) (st : State) :
  if startsWith (js "video/") (file_type file)
     && (file_size file <=? 5 * 1024 * 1024 * 1024)
  then error (validateAndPass file st) = None
       /\ selected (validateAndPass file st) = selected st ++ [file]
  else (exists msg, error (validateAndPass file st) = Some msg)
       /\ selected (validateAndPass file st) = selected st.
Proof.
  unfold validateAndPass, sizeLimit.
  destruct (startsWith (js "video/") (file_type file)); cbn [andb negb].
  - rewrite Z.gtb_ltb, Z.ltb_antisym.
    destruct (file_size file <=? 5 * 1024 * 1024 * 1024); cbn [negb].
    + split; reflexivity.
    + split; [eexists|]; reflexivity.
  - split; [eexists|]; reflexivity.
Qed.

End UploaderFacts.

(* ================================================================== *)
(** * The segment-duration setting *)
(* ================================================================== *)

Section DurationFacts.

Import Settings App.

Example onChange_number : onChange (js "45") = 45.
Proof. reflexivity. Qed.

Example onChange_text : onChange (js "abc") = 1.
Proof. reflexivity. Qed.

Example onChange_empty : onChange [] = 1.
Proof. reflexivity. Qed.

Example onChange_zero : onChange (js "0") = 1.
Proof. reflexivity. Qed.

Example onChange_negative : onChange (js "-5") = 1.
Proof. reflexivity. Qed.

Example onChange_fraction : onChange (js "2.75") = 2.
Proof. reflexivity. Qed.

(** The handler is [max(1, parsed-or-1)]: a value that does not parse
    gives 1, one that parses gives the larger of 1 and the number. *)
Lemma onChange_spec (value : jsstring) :
  onChange value = match parseInt value with
                   | Some n => Z.max 1 n
                   | None => 1
                   end.
Proof.
  unfold onChange, orOne; destruct (parseInt value) as [n|]; [|reflexivity].
  destruct (Z.eqb_spec n 0); [subst; reflexivity | reflexivity].
Qed.

Lemma onChange_ge_1 (value : jsstring) : 1 <= onChange value.
Proof. unfold onChange; lia. Qed.

Lemma durationOk_init : durationOk init.
Proof. split; [simpl; lia | constructor]. Qed.

Lemma durationOk_step (ev : Event) (s : State) :
  durationOk s -> durationOk (step ev s).
Proof.
  intros [Hd Hc]; destruct ev as [| okay | file | | value | | [files|] | | p]; simpl;
    try (split; assumption).
  - destruct (serviceReady s); split; assumption.
  - split; [apply onChange_ge_1 | assumption].
  - destruct (videoFile s) as [file|]; [|split; assumption].
    destruct (serviceReady s); [|split; assumption].
    split; [assumption|]. simpl.
    apply Forall_app; split; [assumption|]. constructor; [exact Hd | constructor].
Qed.

Lemma durationOk_fold (evs : list Event) (s : State) :
  durationOk s -> durationOk (fold_left (fun s ev => step ev s) evs s).
Proof.
  revert s; induction evs as [|ev evs IH]; intros s Hs; simpl; [exact Hs|].
  apply IH, durationOk_step, Hs.
Qed.

(** C9. The duration input maps any entered text to
    [max(1, parsed-or-1)], which is at least 1; the setting starts at 30;
    so after any history of events the setting is at least 1, and every
    [splitVideo] invocation made by [handleSplit] carried a duration of at
    least 1. *)
Theorem duration_at_least_1 (value : jsstring) (evs : list Event) :
  onChange value = match parseInt value with
                   | Some n => Z.max 1 n
                   | None => 1
                   end
  /\ 1 <= onChange value
  /\ splitDuration init = 30
  /\ 1 <= splitDuration (run evs)
  /\ Forall (fun c => 1 <= snd c) (splitCalls (run evs)).
Proof.
  split; [apply onChange_spec|]. split; [apply onChange_ge_1|].
  split; [reflexivity|]. exact (durationOk_fold evs init durationOk_init).
Qed.

(** A history in which the user types garbage, then zero, and splits. *)
Example split_after_bad_input :
  splitCalls (run [Mounted; CoreLoaded true; FileSelected Sim.clipFile;
                   DurationInput (js "abc"); DurationInput (js "0");
                   SplitClicked])
  = [(Sim.clipFile, 1)].
Proof. reflexivity. Qed.

End DurationFacts.

(* ================================================================== *)
(** * splitVideo: the loaded flag, the progress reports, the mount step *)
(* ================================================================== *)

Section SplitFacts.

Context {P : Type} `{Platform P}.

Lemma ensureLoaded_loaded (w : World P) :
  loaded w = true -> ensureLoaded w = (w, inl tt).
Proof.
  intros Hl; unfold ensureLoaded, bind, getLoaded; rewrite Hl; reflexivity.
Qed.

Lemma ensureLoaded_progress : frames (same progress) (ensureLoaded (P:=P)).
Proof. unfold ensureLoaded; frames_auto; apply load_progress. Qed.

Lemma ensureLoaded_execs : frames (same execs) (ensureLoaded (P:=P)).
Proof. unfold ensureLoaded; frames_auto; apply load_execs. Qed.

(** On a loaded session [splitVideo] is its [try] statement. *)
Lemma splitVideo_loaded (file : File) (d : Z) (w : World P) :
  loaded w = true ->
  splitVideo file d w
  = tryCatch (mountStep (renameFile file inputFileName (file_type file)) ;;
              segmentStep d)%service splitHandler w.
Proof.
  intros Hl; unfold splitVideo.
  rewrite (bind_run _ _ _ _ _ (ensureLoaded_loaded w Hl)); reflexivity.
Qed.

(** C10. A call of [splitVideo] on a loaded session leaves the session
    loaded, whether it returns or throws. *)
Theorem splitVideo_keeps_loaded (file : File) (d : Z) (w : World P) :
  loaded w = true -> loaded (fst (splitVideo file d w)) = true.
Proof.
  intros Hl; rewrite (splitVideo_loaded file d w Hl), <- Hl.
  assert (Hf : frames (same loaded)
                 (tryCatch (mountStep (renameFile file inputFileName (file_type file)) ;;
                            segmentStep d)%service (splitHandler (P:=P)))).
  { frames_auto;
      first [apply mountStep_loaded | apply segmentStep_loaded
            | apply splitHandler_loaded]. }
  exact (Hf w).
Qed.

(** ** Progress *)

Lemma triple_same {A X} (f : World P -> X) (x : X) (m : M P A)
    (exc : JsThrown -> World P -> Prop) :
  frames (same f) m ->
  (forall e w, f w = x -> exc e w) ->
  triple (fun w => f w = x) m (fun _ w => f w = x) exc.
Proof.
  intros Hf He w Hw; specialize (Hf w); unfold same in Hf.
  destruct (m w) as [w1 [a|e]]; simpl in Hf; [congruence|].
  apply He; congruence.
Qed.

Lemma triple_onProgress (l : list Z) (v : Z) exc :
  triple (fun w : World P => progress w = l) (onProgress v)
         (fun _ w => progress w = l ++ [v]) exc.
Proof. intros w Hw; cbn; rewrite Hw; reflexivity. Qed.

Lemma segmentStep_progress (d : Z) (base : list Z) :
  triple (fun w : World P => progress w = base) (segmentStep d)
         (fun _ w => progress w = base ++ [10; 80; 100])
         (fun _ w => partialProgress base w).
Proof.
  unfold segmentStep, partialProgress.
  eapply triple_bind; [apply triple_same; [frames_auto | auto] | intros ?; cbv beta].
  eapply triple_bind; [apply triple_onProgress | intros ?; cbv beta].
  eapply triple_bind; [apply triple_same; [frames_auto | auto] | intros ?; cbv beta].
  eapply triple_bind; [apply triple_onProgress | intros ?; cbv beta].
  rewrite <- app_assoc; cbn [app].
  eapply triple_bind; [apply triple_same; [frames_auto | auto] | intros ?; cbv beta].
  eapply triple_bind;
    [apply triple_same; [frames_auto; apply cleanup_progress | auto] | intros ?; cbv beta].
  eapply triple_bind; [apply triple_same; [frames_auto | auto] | intros dir].
  eapply triple_bind; [apply triple_same; [apply drain_progress | auto] | intros files].
  eapply triple_bind; [apply triple_onProgress | intros ?; cbv beta].
  apply triple_ret; intros w Hw; rewrite Hw, <- app_assoc; reflexivity.
Qed.

Lemma splitVideo_progress (file : File) (d : Z) (base : list Z) :
  triple (fun w : World P => progress w = base) (splitVideo file d)
         (fun _ w => progress w = base ++ [10; 80; 100])
         (fun _ w => partialProgress base w).
Proof.
  unfold splitVideo.
  eapply triple_bind;
    [apply triple_same; [apply ensureLoaded_progress | unfold partialProgress; auto]
    | intros ?; cbv beta].
  cbv zeta.
  eapply triple_tryCatch with (mid := fun _ w => partialProgress base w).
  - eapply triple_bind;
      [apply triple_same; [apply mountStep_progress | unfold partialProgress; auto]
      | intros ?; cbv beta].
    apply segmentStep_progress.
  - intros e w Hw.
    pose proof (splitHandler_progress e w) as Hp; unfold same in Hp.
    pose proof (splitHandler_rethrows e w) as Hr.
    destruct (splitHandler e w) as [w1 [fs|e1]]; simpl in *; [discriminate|].
    unfold partialProgress in *; rewrite Hp; exact Hw.
Qed.

(** C6. The values a call of [splitVideo] passes to the progress callback
    never go down; when the call returns they end with 100; when it throws
    100 is not among them. *)
Theorem progress_reports (file : File) (d : Z) (w : World P) :
  exists reported,
    progress (fst (splitVideo file d w)) = progress w ++ reported
    /\ nonDecreasing reported = true
    /\ match snd (splitVideo file d w) with
       | inl _ => last reported 0 = 100
       | inr _ => ~ In 100 reported
       end.
Proof.
  pose proof (splitVideo_progress file d (progress w) w eq_refl) as Ht.
  destruct (splitVideo file d w) as [w1 [files|e]]; simpl.
  - exists [10; 80; 100]; auto.
  - destruct Ht as [E|[E|E]].
    + exists []; rewrite app_nil_r; repeat split; auto.
    + exists [10]; repeat split; auto. simpl; intros [X|[]]; discriminate.
    + exists [10; 80]; repeat split; auto. simpl; intros [X|[X|[]]]; discriminate.
Qed.

End SplitFacts.

Section MountFacts.

Context {P : Type} `{Platform P}.

Lemma log_run t m (w : World P) :
  exists w1, log t m w = (w1, inl tt) /\ host w1 = host w
             /\ loaded w1 = loaded w /\ calls w1 = calls w
             /\ logs w1 = logs w ++ [mkLog t m (dateNow (host w))].
Proof. eexists; split; [reflexivity | cbn; auto]. Qed.

Lemma engine_run {A} c (op : P -> P * list jsstring * result A) (w : World P)
    p msgs r :
  op (host w) = (p, msgs, r) ->
  exists w1, engine c op w = (w1, r) /\ host w1 = p.
Proof.
  intros E; destruct (engine c op w) as [w1 r1] eqn:Er.
  destruct (engine_inv c op w w1 r1 Er) as [msgs' [E' _]].
  rewrite E in E'; injection E' as -> _ ->.
  exists w1; auto.
Qed.

(** A failing mount step makes the first part of the [try] block throw. *)
Lemma mountStep_fails (safeFile : File) (w : World P) e :
  MountFailure safeFile (host w) e ->
  exists w1, mountStep safeFile w = (w1, inr e).
Proof.
  intros Hf; unfold mountStep.
  destruct (log_run info (js "Mounting input file...") w) as (w0 & E0 & Hh0 & _).
  rewrite (bind_run _ _ _ _ _ E0).
  destruct Hf as [p1 msgs e Hc | p1 msgs1 p2 msgs2 e Hc Hm]; rewrite <- Hh0 in Hc.
  - destruct (engine_run (CCreateDir mountDir) _ _ _ _ _ Hc) as (w1 & E1 & _).
    exists w1; apply bind_fail; exact E1.
  - destruct (engine_run (CCreateDir mountDir) _ _ _ _ _ Hc) as (w1 & E1 & Hh1).
    rewrite (bind_run _ _ _ _ _ E1). rewrite <- Hh1 in Hm.
    destruct (engine_run (CMount (js "WORKERFS") [safeFile] mountDir) _ _ _ _ _ Hm)
      as (w2 & E2 & _).
    exists w2; exact E2.
Qed.

(** The [catch] block: the cleanup is attempted, the failure is logged,
    the value caught is thrown again, and [exec] is not called. *)
Lemma splitHandler_inv e (w w' : World P) r :
  splitHandler e w = (w', r) ->
  r = inr e /\ execs w' = execs w
  /\ In (CUnmount mountDir) (calls w')
  /\ exists t, In (mkLog error (js "Processing failed: " ++ messageProp e) t) (logs w').
Proof.
  intros E.
  pose proof (splitHandler_rethrows e w) as Hr.
  pose proof (splitHandler_execs e w) as Hx.
  rewrite E in Hr, Hx; simpl in Hr, Hx.
  split; [exact Hr|]. split; [exact Hx|].
  unfold splitHandler in E.
  assert (Hc : exists w1, tryCatch cleanup (fun _ => ret tt) w = (w1, inl tt)
                          /\ In (CUnmount mountDir) (calls w1)).
  { unfold tryCatch, cleanup, bind.
    destruct (engine (CUnmount mountDir) (ffUnmount mountDir) w) as [w1 [[]|x]] eqn:E1;
      destruct (engine_inv _ _ _ _ _ E1) as (m1 & _ & C1 & _).
    - destruct (engine (CDeleteDir mountDir) (ffDeleteDir mountDir) w1)
        as [w2 [[]|x]] eqn:E2;
        destruct (engine_inv _ _ _ _ _ E2) as (m2 & _ & C2 & _);
        exists w2; (split; [reflexivity|]);
        rewrite C2, C1; apply in_or_app; left; apply in_or_app; right; left; reflexivity.
    - exists w1; split; [reflexivity|].
      rewrite C1; apply in_or_app; right; left; reflexivity. }
  destruct Hc as (w1 & E1 & Hin).
  rewrite (bind_run _ _ _ _ _ E1) in E.
  destruct (log_run error (js "Processing failed: " ++ messageProp e) w1)
    as (w2 & E2 & _ & _ & C2 & L2).
  rewrite (bind_run _ _ _ _ _ E2) in E.
  unfold throw in E; injection E as <- _.
  split; [rewrite C2; exact Hin|].
  exists (dateNow (host w1)); rewrite L2; apply in_or_app; right; left; reflexivity.
Qed.

(** C5. When the mount step fails ([createDir] or [mount] rejects),
    [splitVideo] throws the very value the step rejected with, after
    attempting the cleanup and logging the failure, and makes no [exec]
    call. *)
Theorem mount_failure_skips_exec (file : File) (d : Z) (w w0 : World P)
    (e : JsThrown) :
  ensureLoaded w = (w0, inl tt) ->
  MountFailure (renameFile file inputFileName (file_type file)) (host w0) e ->
  exists w',
    splitVideo file d w = (w', inr e)
    /\ execs w' = execs w
    /\ In (CUnmount mountDir) (calls w')
    /\ exists t, In (mkLog error (js "Processing failed: " ++ messageProp e) t)
                    (logs w').
Proof.
  intros Hl Hf; unfold splitVideo.
  rewrite (bind_run _ _ _ _ _ Hl); cbv zeta.
  destruct (mountStep_fails _ w0 e Hf) as (w1 & E1).
  rewrite (tryCatch_fail _ _ _ _ _ (bind_fail _ _ _ _ _ E1)).
  destruct (splitHandler e w1) as [w' r] eqn:Eh.
  destruct (splitHandler_inv e w1 w' r Eh) as (-> & Hx & Hin & Hlog).
  exists w'; split; [reflexivity|]. split; [|split; assumption].
  rewrite Hx.
  pose proof (mountStep_execs (renameFile file inputFileName (file_type file)) w0) as H1.
  pose proof (ensureLoaded_execs w) as H0.
  rewrite E1 in H1; rewrite Hl in H0; unfold same in *; simpl in *; congruence.
Qed.

End MountFacts.

(* ================================================================== *)
(** * load: the three parts of the bootstrap *)
(* ================================================================== *)

Section LoadFacts.

Context {P : Type} `{Platform P}.

(** The first part makes one call, the fetch, and returns what it gave. *)
Lemma fetchWorkerScript_inv (w w' : World P) r :
  fetchWorkerScript w = (w', r) ->
  host w' = fst (fetch workerScriptURL (host w))
  /\ r = fetched (snd (fetch workerScriptURL (host w)))
  /\ calls w' = calls w ++ [CFetch workerScriptURL]
  /\ loaded w' = loaded w
  /\ grows logs w w'.
Proof.
  unfold fetchWorkerScript, bind, log, getIsolated, when, browser, await, throw, ret, grows.
  cbn [host loaded logs calls progress warnings].
  destruct (crossOriginIsolated (host w)); cbn [negb host loaded logs calls];
    destruct (fetch workerScriptURL (host w)) as [p1 [resp|e]];
    cbn [fst snd fetched withHost host loaded logs calls];
    try destruct (ok resp); cbn [negb];
    intros E; injection E as <- <-; cbn [host loaded logs calls];
    (repeat split; try reflexivity);
    eexists; rewrite <- !app_assoc; reflexivity.
Qed.

(** The second part cannot fail: it makes one call, [createObjectURL] on
    the patched script, and logs the warning exactly when the patch
    changed nothing. *)
Lemma packageWorker_inv (s : jsstring) (w w' : World P) r :
  packageWorker s w = (w', r) ->
  (host w', r)
  = (let '(p, u) := createObjectURL (Patch.patchWorker s) (js "text/javascript")
                      (host w) in (p, inl u))
  /\ calls w' = calls w ++ [CCreateObjectURL (Patch.patchWorker s) (js "text/javascript")]
  /\ loaded w' = loaded w
  /\ grows logs w w'
  /\ (Patch.patchWorker s = s ->
      exists t, In (mkLog info noImportsWarning t) (logs w')).
Proof.
  unfold packageWorker, bind, log, when, browser, ret, grows.
  cbn [host loaded logs calls progress warnings].
  destruct (jsstring_eqb (Patch.patchWorker s) s) eqn:Heq;
    cbn [host loaded logs calls];
    destruct (createObjectURL (Patch.patchWorker s) (js "text/javascript") (host w))
      as [p u];
    cbn [withHost host loaded logs calls];
    intros E; injection E as <- <-; cbn [host loaded logs calls];
    (split; [reflexivity|]); (split; [reflexivity|]); (split; [reflexivity|]);
    (split; [eexists; rewrite <- !app_assoc; reflexivity|]).
  - intros _; exists (dateNow (host w)).
    apply in_or_app; left; apply in_or_app; right; left; reflexivity.
  - intros E; apply jsstring_eqb_eq in E; congruence.
Qed.

(** When the patch changed something, the warning is not logged by the
    second part. *)
Lemma packageWorker_quiet (s : jsstring) (w : World P) :
  Patch.patchWorker s <> s ->
  forall e, In e (logs (fst (packageWorker s w))) ->
            In e (logs w) \/ message e <> noImportsWarning.
Proof.
  intros Hne e; unfold packageWorker, bind, log, when, browser, ret.
  cbn [host loaded logs calls progress warnings].
  apply jsstring_eqb_neq in Hne; rewrite Hne.
  cbn [host loaded logs calls].
  destruct (createObjectURL (Patch.patchWorker s) (js "text/javascript") (host w))
    as [p u].
  cbn [fst withHost host loaded logs calls].
  intros Hin; apply in_app_or in Hin; destruct Hin as [Hin|[<-|[]]].
  - apply in_app_or in Hin; destruct Hin as [Hin|[<-|[]]]; [left; exact Hin|].
    right; cbn; intros X; apply jsstring_eqb_eq in X; vm_compute in X; discriminate.
  - right; cbn; intros X.
    assert (Hn : nth 0 (js "Created worker blob: " ++ u) 0 = nth 0 noImportsWarning 0)
      by (rewrite X; reflexivity).
    vm_compute in Hn; discriminate.
Qed.

(** The third part makes up to three calls and stops at the first that
    rejects; the flag is set only after all three went through. *)
Lemma initEngine_inv (workerURL : jsstring) (w w' : World P) r :
  initEngine workerURL w = (w', r) ->
  match toBlobURL coreScriptURL (js "text/javascript") (host w) with
  | (p1, inr e) => r = inr e /\ loaded w' = loaded w /\ host w' = p1
  | (p1, inl core) =>
      match toBlobURL coreWasmURL (js "application/wasm") p1 with
      | (p2, inr e) => r = inr e /\ loaded w' = loaded w /\ host w' = p2
      | (p2, inl wasm) =>
          let config := mkConfig core wasm workerURL workerURL in
          match ffLoad config p2 with
          | (p3, _, inr e) => r = inr e /\ loaded w' = loaded w /\ host w' = p3
          | (p3, _, inl _) =>
              r = inl tt /\ loaded w' = true /\ host w' = p3
              /\ calls w' = calls w
                            ++ [CToBlobURL coreScriptURL (js "text/javascript");
                                CToBlobURL coreWasmURL (js "application/wasm");
                                CLoad config]
          end
      end
  end.
Proof.
  unfold initEngine; intros E.
  unfold bind at 1 in E.
  destruct (browser (CToBlobURL coreScriptURL (js "text/javascript"))
              (toBlobURL coreScriptURL (js "text/javascript")) w)
    as [w1 r1] eqn:E1.
  apply browser_inv in E1; destruct E1 as (H1 & C1 & L1 & _).
  rewrite H1; destruct r1 as [core|e].
  2:{ injection E as <- <-; auto. }
  unfold bind at 1 in E.
  destruct (browser (CToBlobURL coreWasmURL (js "application/wasm"))
              (toBlobURL coreWasmURL (js "application/wasm")) w1)
    as [w2 r2] eqn:E2.
  apply browser_inv in E2; destruct E2 as (H2 & C2 & L2 & _).
  rewrite H2; destruct r2 as [wasm|e].
  2:{ injection E as <- <-; split; [reflexivity|]; split; [congruence | reflexivity]. }
  destruct (log_run info (js "Initializing FFmpeg engine...") w2)
    as (w3 & E3 & H3 & L3 & C3 & _).
  rewrite (bind_run _ _ _ _ _ E3) in E. cbv zeta in E |- *.
  unfold bind at 1 in E.
  destruct (engine (CLoad (mkConfig core wasm workerURL workerURL))
              (ffLoad (mkConfig core wasm workerURL workerURL)) w3)
    as [w4 r4] eqn:E4.
  apply engine_inv in E4; destruct E4 as (msgs & H4 & C4 & L4 & _).
  rewrite H3 in H4; rewrite H4; destruct r4 as [[]|e].
  2:{ injection E as <- <-; split; [reflexivity|]; split; [congruence | reflexivity]. }
  cbn in E; injection E as <- <-; cbn.
  split; [reflexivity|]. split; [reflexivity|]. split; [reflexivity|].
  rewrite C4, C3, C2, C1, <- !app_assoc; reflexivity.
Qed.

End LoadFacts.

Section BootFacts.

Context {P : Type} `{Platform P}.

Lemma packageWorker_run (s : jsstring) (w : World P) p u :
  createObjectURL (Patch.patchWorker s) (js "text/javascript") (host w) = (p, u) ->
  exists w1, packageWorker s w = (w1, inl u) /\ host w1 = p
             /\ loaded w1 = loaded w /\ grows logs w w1
             /\ calls w1 = calls w
                           ++ [CCreateObjectURL (Patch.patchWorker s) (js "text/javascript")].
Proof.
  intros Hc; destruct (packageWorker s w) as [w1 r] eqn:E.
  destruct (packageWorker_inv s w w1 r E) as (Hh & Hcalls & Hl & Hg & _).
  rewrite Hc in Hh; injection Hh as Hp Hr; subst r.
  exists w1; auto 6.
Qed.

Lemma fetchWorkerScript_run (w : World P) p fr :
  fetch workerScriptURL (host w) = (p, fr) ->
  exists w1, fetchWorkerScript w = (w1, fetched fr) /\ host w1 = p
             /\ loaded w1 = loaded w /\ grows logs w w1
             /\ calls w1 = calls w ++ [CFetch workerScriptURL].
Proof.
  intros Hf; destruct (fetchWorkerScript w) as [w1 r] eqn:E.
  destruct (fetchWorkerScript_inv w w1 r E) as (Hh & Hr & Hcalls & Hl & Hg).
  rewrite Hf in Hh, Hr; simpl in Hh, Hr; subst r.
  exists w1; auto 6.
Qed.

(** A failing step makes the [try] block of [load] throw the value the
    step failed with. *)
Lemma loadBody_fails (w : World P) (e : JsThrown) :
  BootFailure (host w) e -> exists w1, loadBody w = (w1, inr e).
Proof.
  intros Hf; unfold loadBody.
  destruct Hf as
    [ p1 e Hfetch
    | p1 resp Hfetch Hok
    | p1 resp e Hfetch Hok Htext
    | p1 resp s p2 url p3 e Hfetch Hok Htext Hurl Hcore
    | p1 resp s p2 url p3 core p4 e Hfetch Hok Htext Hurl Hcore Hwasm
    | p1 resp s p2 url p3 core p4 wasm p5 msgs e Hfetch Hok Htext Hurl Hcore Hwasm Hload ];
    destruct (fetchWorkerScript_run w _ _ Hfetch) as (w1 & E1 & Hh1 & _);
    unfold fetched in E1; try rewrite Hok in E1; try rewrite Htext in E1;
    try (exists w1; apply bind_fail; exact E1);
    rewrite (bind_run _ _ _ _ _ E1);
    rewrite <- Hh1 in Hurl;
    destruct (packageWorker_run s w1 _ _ Hurl) as (w2 & E2 & Hh2 & _);
    rewrite (bind_run _ _ _ _ _ E2);
    destruct (initEngine url w2) as [w3 r3] eqn:E3;
    apply initEngine_inv in E3; rewrite Hh2, Hcore in E3;
    try rewrite Hwasm in E3; try (cbv zeta in E3; rewrite Hload in E3);
    destruct E3 as (-> & _); exists w3; reflexivity.
Qed.

(** Conversely, the [try] block throws only when one of its steps fails. *)
Lemma loadBody_throws (w w1 : World P) (e : JsThrown) :
  loadBody w = (w1, inr e) -> BootFailure (host w) e.
Proof.
  unfold loadBody; intros E.
  destruct (fetch workerScriptURL (host w)) as [p1 fr] eqn:Hfetch.
  destruct (fetchWorkerScript_run w _ _ Hfetch) as (w0 & E0 & Hh0 & _).
  destruct fr as [resp|x]; simpl in E0.
  2:{ rewrite (bind_fail _ _ _ _ _ E0) in E; injection E as _ <-.
      eapply FetchRejected; eassumption. }
  destruct (ok resp) eqn:Hok.
  2:{ rewrite (bind_fail _ _ _ _ _ E0) in E; injection E as _ <-.
      eapply FetchNotOk; eassumption. }
  destruct (text resp) as [s|x] eqn:Htext.
  2:{ rewrite (bind_fail _ _ _ _ _ E0) in E; injection E as _ <-.
      eapply TextRejected; eassumption. }
  rewrite (bind_run _ _ _ _ _ E0) in E.
  destruct (createObjectURL (Patch.patchWorker s) (js "text/javascript") p1)
    as [p2 url] eqn:Hurl.
  pose proof Hurl as Hurl'; rewrite <- Hh0 in Hurl'.
  destruct (packageWorker_run s w0 _ _ Hurl') as (w2 & E2 & Hh2 & _).
  rewrite (bind_run _ _ _ _ _ E2) in E.
  apply initEngine_inv in E; rewrite Hh2 in E.
  destruct (toBlobURL coreScriptURL (js "text/javascript") p2)
    as [p3 [core|x]] eqn:Hcore.
  2:{ destruct E as (E & _); injection E as <-.
      eapply CoreRejected; eassumption. }
  destruct (toBlobURL coreWasmURL (js "application/wasm") p3)
    as [p4 [wasm|x]] eqn:Hwasm.
  2:{ destruct E as (E & _); injection E as <-.
      eapply WasmRejected; eassumption. }
  cbv zeta in E.
  destruct (ffLoad (mkConfig core wasm url url) p4) as [[p5 msgs] [u|x]] eqn:Hload.
  - destruct E as (E & _); discriminate.
  - destruct E as (E & _); injection E as <-.
    eapply EngineRejected; eassumption.
Qed.

(** The flag is set exactly when the [try] block runs to its end. *)
Lemma loadBody_loaded :
  triple (fun w : World P => loaded w = false) loadBody
         (fun _ w => loaded w = true) (fun _ w => loaded w = false).
Proof.
  intros w Hw; unfold loadBody, bind.
  destruct (fetchWorkerScript w) as [w1 [s|e]] eqn:E1;
    destruct (fetchWorkerScript_inv _ _ _ E1) as (_ & _ & _ & L1 & _);
    [|congruence].
  destruct (packageWorker s w1) as [w2 [u|e]] eqn:E2;
    destruct (packageWorker_inv _ _ _ _ E2) as (_ & _ & L2 & _);
    [|congruence].
  destruct (initEngine u w2) as [w3 r3] eqn:E3.
  apply initEngine_inv in E3.
  destruct (toBlobURL coreScriptURL (js "text/javascript") (host w2))
    as [p3 [core|x]]; [|destruct E3 as (-> & L3 & _); congruence].
  destruct (toBlobURL coreWasmURL (js "application/wasm") p3)
    as [p4 [wasm|x]]; [|destruct E3 as (-> & L3 & _); congruence].
  cbv zeta in E3.
  destruct (ffLoad (mkConfig core wasm u u) p4) as [[p5 msgs] [x|x]].
  - destruct E3 as (-> & L3 & _); exact L3.
  - destruct E3 as (-> & L3 & _); congruence.
Qed.

(** ** load *)

Lemma load_loaded (w : World P) : loaded w = true -> load w = (w, inl tt).
Proof.
  intros Hl; unfold load, bind, getLoaded; rewrite Hl; reflexivity.
Qed.

Lemma load_unloaded (w : World P) :
  loaded w = false -> load w = tryCatch loadBody loadHandler w.
Proof.
  intros Hl; unfold load, bind, getLoaded; rewrite Hl; reflexivity.
Qed.

(** C4, as the code has it.  When a step of the bootstrap fails -- the
    worker fetch rejects or answers with a non-success status, its text
    cannot be read, [toBlobURL] rejects for the core or for the wasm
    payload, or the engine's own load rejects -- [load] logs
    [Failed to load FFmpeg: ] followed by the underlying message and
    throws an [Error] whose message is [FFmpeg Load Error: ] followed by
    the same message, and the session is not marked loaded.  The
    underlying message is the [message] of an [Error] and the string
    conversion of any other value; for a worker answer that is not a
    success it is [Failed to fetch worker: ] followed by the status
    text. *)
Theorem load_failure_wrapped (w : World P) (e : JsThrown) :
  loaded w = false ->
  BootFailure (host w) e ->
  exists w' msg,
    match e with
    | JsError m => msg = m
    | JsOther r => msg = r
    end
    /\ load w = (w', inr (JsError (js "FFmpeg Load Error: " ++ msg)))
    /\ loaded w' = false
    /\ (exists t, In (mkLog error (js "Failed to load FFmpeg: " ++ msg) t) (logs w'))
    /\ forall p1 resp,
         fetch workerScriptURL (host w) = (p1, inl resp) ->
         ok resp = false ->
         msg = js "Failed to fetch worker: " ++ statusText resp.
Proof.
  intros Hl Hf; rewrite (load_unloaded w Hl).
  destruct (loadBody_fails w e Hf) as (w1 & E1).
  rewrite (tryCatch_fail _ _ _ _ _ E1).
  pose proof (loadBody_loaded w Hl) as Ht; rewrite E1 in Ht.
  eexists; exists (match e with JsError m => m | JsOther r => r end).
  split; [destruct e; reflexivity|].
  split; [reflexivity|]. split; [exact Ht|]. split.
  - exists (dateNow (host w1)); cbn; apply in_or_app; right; left; reflexivity.
  - intros p1 resp Hfetch Hok.
    pose proof (fetchWorkerScript_run w _ _ Hfetch) as (wf & Ef & _).
    cbn [fetched] in Ef; rewrite Hok in Ef.
    unfold loadBody in E1; rewrite (bind_fail _ _ _ _ _ Ef) in E1.
    injection E1 as _ <-; reflexivity.
Qed.

(** [load] on a session not yet loaded either marks it loaded, or leaves
    it unmarked and throws the wrapped message of a failed step. *)
Lemma load_outcome (w : World P) :
  loaded w = false ->
  match load w with
  | (w', inl _) => loaded w' = true
  | (w', inr x) =>
      loaded w' = false
      /\ exists e, BootFailure (host w) e
                   /\ x = JsError (js "FFmpeg Load Error: " ++ errorText e)
  end.
Proof.
  intros Hl; rewrite (load_unloaded w Hl); unfold tryCatch.
  pose proof (loadBody_loaded w Hl) as Ht.
  destruct (loadBody w) as [w1 [u|e]] eqn:E1; [exact Ht|].
  cbn; split; [exact Ht|].
  exists e; split; [eapply loadBody_throws; eassumption | reflexivity].
Qed.

End BootFacts.

(* ================================================================== *)
(** * The patch changes a script exactly when it holds a reference *)
(* ================================================================== *)

Section PatchChanges.

Import Patch.

Lemma noEarlierMatch_sound (pre tail : jsstring) :
  noEarlierMatch pre tail = true ->
  forall a b n r, pre = a ++ b -> b <> [] -> ~ refAt (b ++ tail) n r.
Proof.
  induction pre as [|c pre IH]; intros Hc a b n r E Hb Hr.
  - destruct a; destruct b; try discriminate; congruence.
  - cbn [noEarlierMatch] in Hc.
    destruct (matchImport ((c :: pre) ++ tail)) as [x|] eqn:Hm; [discriminate|].
    destruct a as [|c' a]; simpl in E.
    + subst b. apply matchImport_refAt in Hr. congruence.
    + injection E as _ E. exact (IH Hc a b n r E Hb Hr).
Qed.

Lemma space_not_squote (c : Z) : is_space c = true -> c <> squote.
Proof. intros Hs ->; vm_compute in Hs; discriminate. Qed.

(** A replacement never coincides with the text it replaces: after [from]
    the one has a space, a single quote and the base URL, the other white
    space, a quote, a dot and a slash. *)
Lemma replacement_differs (ws : jsstring) (q1 : Z) (name : jsstring) (q2 : Z)
    (n x r : jsstring) :
  forallb is_space ws = true -> is_quote q1 = true ->
  replacement n ++ x <> relRef ws q1 name q2 ++ r.
Proof.
  intros Hws Hq1 E.
  assert (Hrep : exists t, replacement n ++ x = js "from" ++ 32 :: 39 :: 104 :: t).
  { exists (js "ttps://cdn.jsdelivr.net/npm/@ffmpeg/ffmpeg@0.12.10/dist/esm"
            ++ js "/" ++ n ++ [squote] ++ x).
    unfold replacement; rewrite <- !app_assoc; reflexivity. }
  destruct Hrep as [t Ht]; rewrite Ht in E; clear Ht.
  unfold relRef in E; rewrite <- app_assoc in E.
  apply app_inv_head in E.
  destruct ws as [|c1 [|c2 ws]]; simpl in E, Hws.
  - injection E as E _; subst q1; vm_compute in Hq1; discriminate.
  - injection E as _ _ E; change (js "./") with [46; 47] in E; simpl in E.
    discriminate.
  - injection E as _ E _. apply andb_true_iff in Hws; destruct Hws as [_ Hws].
    apply andb_true_iff in Hws; destruct Hws as [H2 _].
    exact (space_not_squote c2 H2 (eq_sym E)).
Qed.

(** A text that holds a relative reference does not survive the patch
    unchanged. *)
Lemma patchWorker_changes (s : jsstring) :
  hasRelRef s -> patchWorker s <> s.
Proof.
  induction s as [|c s IH]; intros (pre & tail & n & r & E & Hr).
  - destruct pre; [|discriminate]. simpl in E; subst tail.
    apply matchImport_refAt in Hr; discriminate.
  - destruct (matchImport (c :: s)) as [[n' r']|] eqn:Hm.
    + rewrite (patchWorker_match _ _ _ Hm).
      apply matchImport_refAt in Hm.
      destruct Hm as (ws & q1 & q2 & (Hws & Hq1 & _) & ->).
      apply replacement_differs; assumption.
    + rewrite (patchWorker_skip _ _ Hm).
      destruct pre as [|c' pre]; simpl in E.
      * subst tail; apply matchImport_refAt in Hr; congruence.
      * injection E as _ E. intros X; injection X as X.
        apply IH; [|exact X]. exists pre, tail, n, r; auto.
Qed.

(** ** Every reference of a script *)

Lemma from_needs_four (b k : jsstring) (s1 : jsstring) :
  b <> [] ->
  stripPrefix (js "from") (b ++ js "from" ++ k) = Some s1 ->
  exists s2, stripPrefix (js "from") b = Some s2.
Proof.
  change (js "from") with [102; 114; 111; 109].
  intros Hb E.
  destruct b as [|c1 [|c2 [|c3 [|c4 b]]]]; [congruence| | | |];
    cbn [stripPrefix app] in E |- *.
  - destruct (102 =? c1); discriminate.
  - destruct (102 =? c1); [|discriminate]. destruct (114 =? c2); discriminate.
  - destruct (102 =? c1); [|discriminate]. destruct (114 =? c2); [|discriminate].
    destruct (111 =? c3); discriminate.
  - destruct (102 =? c1); [|discriminate]. destruct (114 =? c2); [|discriminate].
    destruct (111 =? c3); [|discriminate]. destruct (109 =? c4); [|discriminate].
    eexists; reflexivity.
Qed.

Lemma noFrom_suffix (a b : jsstring) :
  noFrom (a ++ b) = true -> b <> [] -> stripPrefix (js "from") b = None.
Proof.
  induction a as [|c a IH]; intros Hn Hb.
  - destruct b as [|c b]; [congruence|]. cbn [app noFrom] in Hn.
    destruct (stripPrefix (js "from") (c :: b)); [discriminate | reflexivity].
  - cbn [app noFrom] in Hn.
    destruct (stripPrefix (js "from") (c :: a ++ b)); [discriminate|].
    exact (IH Hn Hb).
Qed.

(** In text free of the word [from], no reference starts, whatever
    reference follows. *)
Lemma noFrom_no_earlier (t : jsstring) (r : Ref) (k : jsstring) :
  noFrom t = true ->
  forall a b n x, t = a ++ b -> b <> [] ->
    ~ refAt (b ++ relRef (ref_ws r) (ref_open r) (ref_name r) (ref_close r) ++ k) n x.
Proof.
  intros Hn a b n x E Hb Hr; subst t.
  apply matchImport_refAt in Hr. unfold matchImport, relRef in Hr.
  rewrite <- app_assoc in Hr.
  destruct (stripPrefix (js "from") (b ++ js "from" ++ _)) as [s1|] eqn:Hs;
    [|discriminate].
  destruct (from_needs_four b _ s1 Hb Hs) as [s2 H2].
  rewrite (noFrom_suffix a b Hn Hb) in H2; discriminate.
Qed.

Lemma noFrom_no_ref (t : jsstring) : noFrom t = true -> ~ hasRelRef t.
Proof.
  intros Hn (pre & tail & n & r & E & Hr); subst t.
  apply matchImport_refAt in Hr. unfold matchImport in Hr.
  destruct tail as [|c tail]; [discriminate|].
  rewrite (noFrom_suffix pre (c :: tail) Hn) in Hr by discriminate.
  discriminate.
Qed.

(** In a script whose other text is free of the word [from], every
    relative reference becomes absolute and nothing else changes. *)
Lemma patchWorker_every_reference (segs : list (jsstring * Ref)) (last : jsstring) :
  Forall segOk segs -> noFrom last = true ->
  patchWorker (script segs last) = absolute segs last.
Proof.
  intros Hs Hl; induction Hs as [|[t r] segs [Ht Hr] Hs IH]; cbn [script absolute].
  - apply patchWorker_unchanged, noFrom_no_ref, Hl.
  - cbn [fst snd] in Ht, Hr.
    rewrite (patchWorker_first t _ _ _ _ _ Hr (noFrom_no_earlier t r _ Ht)), IH.
    reflexivity.
Qed.

Lemma patchWorker_fixed_iff (s : jsstring) :
  patchWorker s = s <-> ~ hasRelRef s.
Proof.
  split.
  - intros E Hr; exact (patchWorker_changes s Hr E).
  - apply patchWorker_unchanged.
Qed.

Example patch_mixed :
  patchWorker Sim.mixedScript
  = js "import{FFmpeg}" ++ absRef (js "classes.js")
    ++ js ";import { x } " ++ absRef (js "util.js") ++ js ";let ffmpeg;".
Proof. vm_compute; reflexivity. Qed.

Example patch_plain : patchWorker Sim.plainScript = Sim.plainScript.
Proof. vm_compute; reflexivity. Qed.

(** The closing quote need not be the opening one, and the rewritten
    reference is always in single quotes. *)
Example patch_mismatched_quotes :
  patchWorker (js "from" ++ [dquote] ++ js "./a.js';")
  = absRef (js "a.js") ++ js ";".
Proof. vm_compute; reflexivity. Qed.

(** ** C2 does not hold of every reference

    The pattern is sought in the raw text.  In [hiddenImport] a comment
    holds [from], a quote and [./] with no closing quote of its own: the
    lazy group runs on to the opening quote of the import that follows,
    the match ends there, and the search resumes behind the word [from]
    of that import. *)
Example patch_hidden_import :
  patchWorker hiddenImport
  = js "/* moved " ++ absRef (js "old */import b from ") ++ js "./b.js';".
Proof. vm_compute; reflexivity. Qed.

Lemma startsWith_app (pat rest : jsstring) : startsWith pat (pat ++ rest) = true.
Proof.
  induction pat as [|c pat IH]; [reflexivity|].
  cbn [app startsWith]; rewrite Z.eqb_refl; exact IH.
Qed.

Lemma occurs_infix (a pat b : jsstring) : occurs pat (a ++ pat ++ b) = true.
Proof.
  induction a as [|c a IH].
  - cbn [app]; pose proof (startsWith_app pat b) as Hs.
    destruct (pat ++ b); cbn [occurs]; rewrite Hs; reflexivity.
  - cbn [app occurs]; rewrite IH; apply orb_true_r.
Qed.

(** The import of [hiddenImport] is a relative reference, well formed, and
    the patched script does not hold the absolute reference to its name:
    it is not so that every relative reference is made absolute. *)
Lemma hidden_import_not_rewritten :
  ~ (forall (pre ws : jsstring) (q1 : Z) (name : jsstring) (q2 : Z)
            (post : jsstring),
       refOk ws q1 name q2 ->
       exists pre' post',
         patchWorker (pre ++ relRef ws q1 name q2 ++ post)
         = pre' ++ absRef name ++ post').
Proof.
  intros Hall.
  destruct (Hall (js "/* moved from " ++ [dquote] ++ js "./old */import b ")
                 [32] squote (js "b.js") squote (js ";"))
    as (pre' & post' & E).
  - repeat split; reflexivity.
  - pose proof (occurs_infix pre' (absRef (js "b.js")) post') as Ho.
    rewrite <- E in Ho; vm_compute in Ho; discriminate.
Qed.

(** The import of [hiddenImport] is still relative after the patch: it is
    not so that no relative reference is left in a patched script. *)
Lemma hidden_import_stays_relative :
  ~ (forall s : jsstring, ~ hasRelRef (patchWorker s)).
Proof.
  intros Hall; apply (Hall hiddenImport).
  exists (js "/* moved from '" ++ baseURL ++ js "/old */import b "),
         (js "from './b.js';"), (js "b.js"), (js ";").
  split; [vm_compute; reflexivity|].
  exists [32], squote, squote.
  split; [repeat split; reflexivity | vm_compute; reflexivity].
Qed.

End PatchChanges.

(* ================================================================== *)
(** * load: idempotence and the patch warning *)
(* ================================================================== *)

Section LoadTheorems.

Context {P : Type} `{Platform P}.

Local Open Scope service_scope.

Lemma loadHandler_throws e (w : World P) :
  exists w', loadHandler e w = (w', inr (JsError (js "FFmpeg Load Error: " ++ errorText e)))
             /\ grows logs w w' /\ calls w' = calls w.
Proof.
  eexists; split; [reflexivity|]; split; [|reflexivity].
  eexists; reflexivity.
Qed.

(** Two calls in sequence are one call, whatever its outcome. *)
Lemma load_twice (w : World P) : (load ;; load) w = load w.
Proof.
  destruct (loaded w) eqn:Hl.
  - rewrite (bind_run _ _ _ _ _ (load_loaded w Hl)); reflexivity.
  - pose proof (load_outcome w Hl) as Ho.
    destruct (load w) as [w1 [[]|x]] eqn:E.
    + rewrite (bind_run _ _ _ _ _ E); apply load_loaded; exact Ho.
    + apply bind_fail; exact E.
Qed.

(** The calls of one successful bootstrap. *)
Lemma load_calls (w w1 : World P) :
  loaded w = false -> load w = (w1, inl tt) ->
  exists script url core wasm,
    calls w1 = calls w
               ++ [CFetch workerScriptURL;
                   CCreateObjectURL (Patch.patchWorker script) (js "text/javascript");
                   CToBlobURL coreScriptURL (js "text/javascript");
                   CToBlobURL coreWasmURL (js "application/wasm");
                   CLoad (mkConfig core wasm url url)].
Proof.
  intros Hl E; rewrite (load_unloaded w Hl) in E.
  unfold tryCatch in E.
  destruct (loadBody w) as [w0 [[]|e]] eqn:Eb.
  2:{ destruct (loadHandler_throws e w0) as (w' & Eh & _); congruence. }
  injection E as <-.
  unfold loadBody in Eb.
  apply bind_inl in Eb; destruct Eb as (s & wa & Ea & Eb).
  apply bind_inl in Eb; destruct Eb as (url & wb & Eb & Ec).
  destruct (fetchWorkerScript_inv _ _ _ Ea) as (_ & _ & Ca & _).
  destruct (packageWorker_inv _ _ _ _ Eb) as (_ & Cb & _).
  apply initEngine_inv in Ec.
  destruct (toBlobURL coreScriptURL (js "text/javascript") (host wb))
    as [p3 [core|x]]; [|destruct Ec as (Ec & _); discriminate].
  destruct (toBlobURL coreWasmURL (js "application/wasm") p3)
    as [p4 [wasm|x]]; [|destruct Ec as (Ec & _); discriminate].
  cbv zeta in Ec.
  destruct (ffLoad (mkConfig core wasm url url) p4) as [[p5 msgs] [u|x]];
    [|destruct Ec as (Ec & _); discriminate].
  destruct Ec as (_ & _ & _ & Cc).
  exists s, url, core, wasm.
  rewrite Cc, Cb, Ca, <- !app_assoc; reflexivity.
Qed.

(** C3. On a session already marked loaded [load] returns at once and
    changes nothing: no fetch, no patch, no engine initialisation, no log.
    Two calls in sequence amount to one, whatever the outcome.  When the
    first call on a fresh session returns, the session is loaded, the
    second call is such a return at once, and between them the two calls
    have made each call of the bootstrap sequence exactly once. *)
Theorem load_idempotent (w : World P) :
  (loaded w = true -> load w = (w, inl tt))
  /\ (load ;; load) w = load w
  /\ (forall w1,
        loaded w = false -> load w = (w1, inl tt) ->
        loaded w1 = true
        /\ load w1 = (w1, inl tt)
        /\ (load ;; load) w = (w1, inl tt)
        /\ exists script url core wasm,
             calls w1 = calls w
                        ++ [CFetch workerScriptURL;
                            CCreateObjectURL (Patch.patchWorker script)
                                             (js "text/javascript");
                            CToBlobURL coreScriptURL (js "text/javascript");
                            CToBlobURL coreWasmURL (js "application/wasm");
                            CLoad (mkConfig core wasm url url)]).
Proof.
  split; [apply load_loaded|]. split; [apply load_twice|].
  intros w1 Hl E.
  assert (Hl1 : loaded w1 = true).
  { pose proof (load_outcome w Hl) as Ho; rewrite E in Ho; exact Ho. }
  split; [exact Hl1|]. split; [apply load_loaded; exact Hl1|].
  split; [rewrite load_twice; exact E|].
  exact (load_calls w w1 Hl E).
Qed.

(** ** The patch inside load *)

Lemma In_grows {X} (f : World P -> list X) (w w' : World P) x :
  grows f w w' -> In x (f w) -> In x (f w').
Proof. intros [extra ->] Hin; apply in_or_app; left; exact Hin. Qed.

(** Once the script is packaged, what was logged and called stays so to
    the end of [load]. *)
Lemma load_after_package (w w1 w2 : World P) s url :
  loaded w = false ->
  fetchWorkerScript w = (w1, inl s) ->
  packageWorker s w1 = (w2, inl url) ->
  grows logs w2 (fst (load w)) /\ grows calls w2 (fst (load w)).
Proof.
  intros Hl E1 E2; rewrite (load_unloaded w Hl).
  unfold tryCatch, loadBody.
  rewrite (bind_run _ _ _ _ _ E1), (bind_run _ _ _ _ _ E2).
  pose proof (initEngine_logs url w2) as Hlg.
  pose proof (initEngine_calls url w2) as Hcg.
  destruct (initEngine url w2) as [w3 [u|e]]; cbn [fst] in *; [auto|].
  destruct (loadHandler_throws e w3) as (w4 & E4 & Hg4 & Hc4).
  rewrite E4; cbn [fst]; split.
  - eapply grows_trans; eassumption.
  - destruct Hcg as [extra Hx]; exists extra; congruence.
Qed.

(** C2, as the code has it.  The patch turns the first relative reference
    of a script, however spaced and quoted, into the absolute reference
    under the base URL when no match of the pattern starts before it,
    leaves what precedes it alone and goes on after it; so in a script
    whose other text is free of the word [from] every relative reference
    becomes absolute under the same base, and in particular the minified
    and the spaced import of the example do.  A script without relative
    reference comes out unchanged, and [load] then logs the warning and
    packages the script as fetched.  (A reference behind a stray [from],
    quote, dot and slash in other text is not promised to be rewritten:
    see [hiddenImport].) *)
Theorem patch_rewrites_imports :
  (forall (pre ws : jsstring) (q1 : Z) (name : jsstring) (q2 : Z) (post : jsstring),
     Patch.refOk ws q1 name q2 ->
     (forall a b n r, pre = a ++ b -> b <> [] ->
                      ~ Patch.refAt (b ++ Patch.relRef ws q1 name q2 ++ post) n r) ->
     Patch.patchWorker (pre ++ Patch.relRef ws q1 name q2 ++ post)
     = pre ++ Patch.absRef name ++ Patch.patchWorker post)
  /\ (forall (segs : list (jsstring * Patch.Ref)) (last : jsstring),
        Forall Patch.segOk segs -> Patch.noFrom last = true ->
        Patch.patchWorker (Patch.script segs last) = Patch.absolute segs last)
  /\ Patch.patchWorker
       (js "import{FFmpeg}" ++ Patch.relRef [] dquote (js "classes.js") dquote
        ++ js ";import { x } " ++ Patch.relRef [32] squote (js "util.js") squote
        ++ js ";let ffmpeg;")
     = js "import{FFmpeg}" ++ Patch.absRef (js "classes.js")
       ++ js ";import { x } " ++ Patch.absRef (js "util.js") ++ js ";let ffmpeg;"
  /\ (forall script : jsstring,
        ~ Patch.hasRelRef script -> Patch.patchWorker script = script)
  /\ (forall (w : World P) (p1 : P) (resp : Response) (script : jsstring),
        loaded w = false ->
        fetch workerScriptURL (host w) = (p1, inl resp) ->
        ok resp = true ->
        text resp = inl script ->
        ~ Patch.hasRelRef script ->
        (exists t, In (mkLog info noImportsWarning t) (logs (fst (load w))))
        /\ In (CCreateObjectURL script (js "text/javascript"))
              (calls (fst (load w)))).
Proof.
  split; [intros; apply patchWorker_first; assumption|].
  split; [exact patchWorker_every_reference|].
  split; [vm_compute; reflexivity|].
  split; [exact patchWorker_unchanged|].
  intros w p1 resp script Hl Hfetch Hrok Htext Hno.
  pose proof (patchWorker_unchanged script Hno) as Hfix.
  destruct (fetchWorkerScript_run w _ _ Hfetch) as (w1 & E1 & _).
  simpl in E1; rewrite Hrok, Htext in E1.
  destruct (packageWorker script w1) as [w2 r2] eqn:E2.
  destruct (packageWorker_inv _ _ _ _ E2) as (Hh & Hc & _ & _ & Hwarn).
  assert (Hr : exists url, r2 = inl url).
  { destruct (createObjectURL (Patch.patchWorker script) (js "text/javascript")
                (host w1)) as [p u].
    injection Hh as _ ->; eexists; reflexivity. }
  destruct Hr as [url ->].
  destruct (load_after_package w w1 w2 script url Hl E1 E2) as [Hlg Hcg].
  split.
  - destruct (Hwarn Hfix) as [t Ht]; exists t.
    eapply In_grows; [exact Hlg | exact Ht].
  - eapply In_grows; [exact Hcg|].
    rewrite Hc, Hfix; apply in_or_app; right; left; reflexivity.
Qed.

End LoadTheorems.

(* ================================================================== *)
(** * The stages of a call, and what each changes *)
(* ================================================================== *)

Section StageFacts.

Context {P : Type} `{Platform P}.

Local Open Scope service_scope.

Lemma bind_inr {A B} (m : M P A) (k : A -> M P B) w w' e :
  bind m k w = (w', inr e) ->
  m w = (w', inr e) \/ exists a w1, m w = (w1, inl a) /\ k a w1 = (w', inr e).
Proof.
  unfold bind; destruct (m w) as [w1 [a|x]]; intros E;
    [right; eauto | left; injection E as <- <-; reflexivity].
Qed.

Lemma log_eq t m (w w1 : World P) r :
  log t m w = (w1, r) ->
  r = inl tt /\ calls w1 = calls w /\ warnings w1 = warnings w
  /\ host w1 = host w /\ progress w1 = progress w /\ loaded w1 = loaded w.
Proof. intros E; injection E as <- <-; cbn; auto 10. Qed.

Lemma onProgress_eq v (w w1 : World P) r :
  onProgress v w = (w1, r) ->
  r = inl tt /\ calls w1 = calls w /\ warnings w1 = warnings w
  /\ host w1 = host w /\ logs w1 = logs w /\ loaded w1 = loaded w.
Proof. intros E; injection E as <- <-; cbn; auto 10. Qed.

(** The hook of the constructor hands every message on, as [info], in
    order, and touches nothing else. *)
Lemma relay_run (msgs : list jsstring) (w : World P) :
  relay msgs w
  = (mkWorld (loaded w) (host w)
       (logs w ++ map (fun m => mkLog info m (dateNow (host w))) msgs)
       (progress w) (warnings w) (calls w), inl tt).
Proof.
  revert w; induction msgs as [|m msgs IH]; intros w.
  - destruct w; cbn; rewrite app_nil_r; reflexivity.
  - cbn [relay]. unfold bind, log at 1. rewrite IH; cbn.
    rewrite <- app_assoc; reflexivity.
Qed.

(** All an engine call changes. *)
Lemma engine_effect {A} c (op : P -> P * list jsstring * result A) (w w' : World P) r :
  engine c op w = (w', r) ->
  exists msgs,
    op (host w) = (host w', msgs, r)
    /\ calls w' = calls w ++ [c]
    /\ warnings w' = warnings w
    /\ progress w' = progress w
    /\ loaded w' = loaded w
    /\ logs w' = logs w ++ map (fun m => mkLog info m (dateNow (host w'))) msgs.
Proof.
  unfold engine; destruct (op (host w)) as [[p msgs] r0].
  rewrite relay_run; intros E; injection E as <- <-; cbn.
  exists msgs; auto 10.
Qed.

(** The cleanup after a segmentation that went through: it never throws;
    [deleteDir] is attempted only when [unmount] went through; whichever of
    the two rejects, the value goes to [console.warn]. *)
Lemma cleanup_warn_inv (w : World P) :
  exists w',
    tryCatch cleanup consoleWarn w = (w', inl tt)
    /\ match ffUnmount mountDir (host w) with
       | (p1, _, inr x) =>
           host w' = p1
           /\ calls w' = calls w ++ [CUnmount mountDir]
           /\ warnings w' = warnings w ++ [x]
       | (p1, _, inl _) =>
           calls w' = calls w ++ [CUnmount mountDir; CDeleteDir mountDir]
           /\ match ffDeleteDir mountDir p1 with
              | (p2, _, inr x) => host w' = p2 /\ warnings w' = warnings w ++ [x]
              | (p2, _, inl _) => host w' = p2 /\ warnings w' = warnings w
              end
       end.
Proof.
  unfold tryCatch, cleanup, bind.
  destruct (engine (CUnmount mountDir) (ffUnmount mountDir) w) as [w1 r1] eqn:E1.
  destruct (engine_effect _ _ _ _ _ E1) as (m1 & R1 & C1 & W1 & _).
  rewrite R1; destruct r1 as [[]|x].
  - destruct (engine (CDeleteDir mountDir) (ffDeleteDir mountDir) w1)
      as [w2 r2] eqn:E2.
    destruct (engine_effect _ _ _ _ _ E2) as (m2 & R2 & C2 & W2 & _).
    rewrite R2; destruct r2 as [[]|x].
    + exists w2; split; [reflexivity|]. split.
      * rewrite C2, C1, <- app_assoc; reflexivity.
      * split; [reflexivity | congruence].
    + eexists; split; [reflexivity|]. cbn. split.
      * rewrite C2, C1, <- app_assoc; reflexivity.
      * split; [reflexivity | congruence].
  - eexists; split; [reflexivity|]. cbn.
    split; [reflexivity|]. split; [exact C1 | congruence].
Qed.

Lemma cleanup_warn_calls (w w' : World P) r :
  tryCatch cleanup consoleWarn w = (w', r) ->
  r = inl tt
  /\ (calls w' = calls w ++ [CUnmount mountDir; CDeleteDir mountDir]
      \/ calls w' = calls w ++ [CUnmount mountDir]).
Proof.
  intros E; destruct (cleanup_warn_inv w) as (w1 & E1 & Hm).
  rewrite E in E1; injection E1 as <- ->. split; [reflexivity|].
  destruct (ffUnmount mountDir (host w)) as [[p1 m1] [u|x]].
  - left; apply Hm.
  - right; apply Hm.
Qed.

Lemma mountStep_calls (safeFile : File) (w w' : World P) u :
  mountStep safeFile w = (w', inl u) ->
  calls w' = calls w ++ [CCreateDir mountDir;
                         CMount (js "WORKERFS") [safeFile] mountDir].
Proof.
  unfold mountStep; intros E.
  apply bind_inl in E; destruct E as (u1 & x1 & E1 & E).
  apply bind_inl in E; destruct E as (u2 & x2 & E2 & E3).
  destruct (log_eq _ _ _ _ _ E1) as (_ & C1 & _).
  destruct (engine_effect _ _ _ _ _ E2) as (m2 & _ & C2 & _).
  destruct (engine_effect _ _ _ _ _ E3) as (m3 & _ & C3 & _).
  rewrite C3, C2, C1, <- app_assoc; reflexivity.
Qed.

(** The drain loop reads each output and deletes it before it goes on, and
    calls the engine for no other entry. *)
Lemma drain_calls (dir : list FSNode) (acc : list File) (w w' : World P) files :
  drain dir acc w = (w', inl files) ->
  calls w' = calls w ++ drainCalls dir.
Proof.
  unfold drainCalls.
  revert acc w; induction dir as [|f dir IH]; intros acc w E; cbn [drain] in E.
  - injection E as <- _; cbn; rewrite app_nil_r; reflexivity.
  - cbn [filter]. destruct (isOutput f).
    + apply bind_inl in E; destruct E as (data & w1 & E1 & E).
      apply bind_inl in E; destruct E as (u & w2 & E2 & E).
      destruct (engine_effect _ _ _ _ _ E1) as (m1 & _ & C1 & _).
      destruct (engine_effect _ _ _ _ _ E2) as (m2 & _ & C2 & _).
      rewrite (IH _ _ E), C2, C1; cbn [flat_map app].
      rewrite <- !app_assoc; reflexivity.
    + exact (IH _ _ E).
Qed.

(** ** The stages make up the [try] block *)

Lemma segmentStep_stages (d : Z) (w : World P) :
  segmentStep d w
  = (execStep d ;; tryCatch cleanup consoleWarn ;; collectStep) w.
Proof.
  unfold segmentStep, execStep, collectStep, bind, log, onProgress.
  destruct (engine (CExec (execArgs d)) (ffExec (execArgs d)) _)
    as [w3 [z|e]]; reflexivity.
Qed.

Lemma tryBlock_stages (safeFile : File) (d : Z) (w : World P) :
  (mountStep safeFile ;; segmentStep d) w
  = (listingReady safeFile d ;; collectStep) w.
Proof.
  unfold listingReady, bind.
  destruct (mountStep safeFile w) as [wm [[]|e]]; [|reflexivity].
  rewrite segmentStep_stages; unfold bind.
  destruct (execStep d wm) as [wx [[]|e]]; [|reflexivity].
  destruct (tryCatch cleanup consoleWarn wx) as [wl [[]|e]]; reflexivity.
Qed.

(** ** What a stage that fails has met *)

Lemma mountStep_throws (safeFile : File) (w w' : World P) e :
  mountStep safeFile w = (w', inr e) -> MountFailure safeFile (host w) e.
Proof.
  unfold mountStep; intros E.
  apply bind_inr in E; destruct E as [E | (u1 & x1 & E1 & E)];
    [apply log_eq in E; destruct E as (E & _); discriminate|].
  destruct (log_eq _ _ _ _ _ E1) as (_ & _ & _ & H1 & _).
  apply bind_inr in E; destruct E as [E | ([] & x2 & E2 & E)].
  - destruct (engine_effect _ _ _ _ _ E) as (msgs & R & _).
    rewrite H1 in R; exact (CreateDirRejected _ _ _ _ _ R).
  - destruct (engine_effect _ _ _ _ _ E2) as (m2 & R2 & _).
    destruct (engine_effect _ _ _ _ _ E) as (msgs & R & _).
    rewrite H1 in R2; exact (MountRejected _ _ _ _ _ _ _ R2 R).
Qed.

Lemma execStep_throws (d : Z) (w w' : World P) e :
  execStep d w = (w', inr e) ->
  exists p msgs, ffExec (execArgs d) (host w) = (p, msgs, inr e).
Proof.
  unfold execStep; intros E.
  apply bind_inr in E; destruct E as [E | (u1 & x1 & E1 & E)];
    [apply log_eq in E; destruct E as (E & _); discriminate|].
  destruct (log_eq _ _ _ _ _ E1) as (_ & _ & _ & H1 & _).
  apply bind_inr in E; destruct E as [E | (u2 & x2 & E2 & E)];
    [apply onProgress_eq in E; destruct E as (E & _); discriminate|].
  destruct (onProgress_eq _ _ _ _ E2) as (_ & _ & _ & H2 & _).
  apply bind_inr in E; destruct E as [E | (u3 & x3 & E3 & E)].
  - destruct (engine_effect _ _ _ _ _ E) as (msgs & R & _).
    rewrite H2, H1 in R; eauto.
  - apply bind_inr in E; destruct E as [E | (u4 & x4 & E4 & E)];
      [apply onProgress_eq in E; destruct E as (E & _); discriminate|].
    apply log_eq in E; destruct E as (E & _); discriminate.
Qed.

Lemma execStep_calls (d : Z) (w w' : World P) u :
  execStep d w = (w', inl u) ->
  calls w' = calls w ++ [CExec (execArgs d)].
Proof.
  unfold execStep; intros E.
  apply bind_inl in E; destruct E as (u1 & x1 & E1 & E).
  apply bind_inl in E; destruct E as (u2 & x2 & E2 & E).
  apply bind_inl in E; destruct E as (u3 & x3 & E3 & E).
  apply bind_inl in E; destruct E as (u4 & x4 & E4 & E).
  destruct (log_eq _ _ _ _ _ E1) as (_ & C1 & _).
  destruct (onProgress_eq _ _ _ _ E2) as (_ & C2 & _).
  destruct (engine_effect _ _ _ _ _ E3) as (m3 & _ & C3 & _).
  destruct (onProgress_eq _ _ _ _ E4) as (_ & C4 & _).
  destruct (log_eq _ _ _ _ _ E) as (_ & C5 & _).
  rewrite C5, C4, C3, C2, C1; reflexivity.
Qed.

(** The loop fails at an output entry [f], on its [readFile] or on its
    [deleteFile], after it went through the entries before [f]. *)
Lemma drain_throws_at (dir : list FSNode) (acc : list File) (w w' : World P) e :
  drain dir acc w = (w', inr e) ->
  exists pre f post acc' wq,
    dir = pre ++ f :: post
    /\ isOutput f = true
    /\ drain pre acc w = (wq, inl acc')
    /\ ((exists p msgs, ffReadFile (name f) (host wq) = (p, msgs, inr e))
        \/ (exists wr data p msgs,
              engine (CReadFile (name f)) (ffReadFile (name f)) wq = (wr, inl data)
              /\ ffDeleteFile (name f) (host wr) = (p, msgs, inr e))).
Proof.
  revert acc w; induction dir as [|f dir IH]; intros acc w E; cbn [drain] in E.
  - discriminate.
  - destruct (isOutput f) eqn:Ho.
    + apply bind_inr in E; destruct E as [E | (data & w1 & E1 & E)].
      * destruct (engine_effect _ _ _ _ _ E) as (msgs & R & _).
        exists [], f, dir, acc, w; repeat split; try reflexivity; [exact Ho|].
        left; eauto.
      * apply bind_inr in E; destruct E as [E | (u & w2 & E2 & E)].
        -- destruct (engine_effect _ _ _ _ _ E) as (msgs & R & _).
           exists [], f, dir, acc, w; repeat split; try reflexivity; [exact Ho|].
           right; exists w1, data; eauto.
        -- destruct (IH _ _ E) as (pre & g & post & acc' & wq & -> & Hg & Ed & Hr).
           exists (f :: pre), g, post, acc', wq; repeat split; try assumption.
           cbn [drain]; rewrite Ho.
           rewrite (bind_run _ _ _ _ _ E1); cbv zeta.
           rewrite (bind_run _ _ _ _ _ E2); exact Ed.
    + destruct (IH _ _ E) as (pre & g & post & acc' & wq & -> & Hg & Ed & Hr).
      exists (f :: pre), g, post, acc', wq; repeat split; try assumption.
      cbn [drain]; rewrite Ho; exact Ed.
Qed.

(** ** A call that returns, stage by stage *)

Lemma splitVideo_staged (file : File) (d : Z) (w w' : World P) files :
  splitVideo file d w = (w', inl files) ->
  exists w0 wx wl wd dir w3,
    ensureLoaded w = (w0, inl tt)
    /\ (mountStep (renameFile file inputFileName (file_type file)) ;; execStep d) w0
       = (wx, inl tt)
    /\ tryCatch cleanup consoleWarn wx = (wl, inl tt)
    /\ listingReady (renameFile file inputFileName (file_type file)) d w0
       = (wl, inl tt)
    /\ engine (CListDir (js ".")) (ffListDir (js ".")) wl = (wd, inl dir)
    /\ drain dir [] wd = (w3, inl files)
    /\ onProgress 100 w3 = (w', inl tt).
Proof.
  intros E; unfold splitVideo in E.
  apply bind_inl in E; destruct E as ([] & w0 & E0 & E); cbv zeta in E.
  unfold tryCatch in E.
  destruct ((mountStep (renameFile file inputFileName (file_type file)) ;;
             segmentStep d) w0) as [wb [fs|e]] eqn:Eb.
  2:{ pose proof (splitHandler_rethrows e wb) as Hr; rewrite E in Hr; discriminate. }
  injection E as <- <-.
  rewrite tryBlock_stages in Eb.
  apply bind_inl in Eb; destruct Eb as ([] & wl & El & Ec).
  pose proof El as El'; unfold listingReady in El'.
  apply bind_inl in El'; destruct El' as ([] & wm & Em & El').
  apply bind_inl in El'; destruct El' as ([] & wx & Ex & Eu).
  unfold collectStep in Ec.
  apply bind_inl in Ec; destruct Ec as (dir & wd & Ed & Ec).
  apply bind_inl in Ec; destruct Ec as (fs' & w3 & Er & Ec).
  apply bind_inl in Ec; destruct Ec as ([] & w4 & Ep & Ec).
  injection Ec as <- <-.
  exists w0, wx, wl, wd, dir, w3.
  split; [exact E0|]. split; [rewrite (bind_run _ _ _ _ _ Em); exact Ex|].
  split; [exact Eu|]. split; [exact El|]. split; [exact Ed|].
  split; [exact Er | exact Ep].
Qed.

End StageFacts.

(* ================================================================== *)
(** * splitVideo: what a successful call returns and leaves behind *)
(* ================================================================== *)

Section DrainFacts.

Context {P : Type} `{Platform P}.

Local Open Scope service_scope.

(** A call that returns went through every statement of the [try] block:
    in particular it listed the working directory and drained the
    listing. *)
Lemma splitVideo_returns (file : File) (d : Z) (w w' : World P) files :
  splitVideo file d w = (w', inl files) ->
  exists w1 w2 w3 dir,
    engine (CListDir (js ".")) (ffListDir (js ".")) w1 = (w2, inl dir)
    /\ drain dir [] w2 = (w3, inl files)
    /\ host w' = host w3.
Proof.
  intros E; unfold splitVideo in E.
  apply bind_inl in E; destruct E as ([] & w0 & _ & E); cbv zeta in E.
  unfold tryCatch in E.
  destruct ((mountStep (renameFile file inputFileName (file_type file)) ;;
             segmentStep d) w0) as [wb [fs|e]] eqn:Eb.
  2:{ pose proof (splitHandler_rethrows e wb) as Hr; rewrite E in Hr; discriminate. }
  injection E as <- <-.
  apply bind_inl in Eb; destruct Eb as ([] & wm & _ & Es).
  unfold segmentStep in Es.
  apply bind_inl in Es; destruct Es as (u1 & x1 & _ & Es).
  apply bind_inl in Es; destruct Es as (u2 & x2 & _ & Es).
  apply bind_inl in Es; destruct Es as (u3 & x3 & _ & Es).
  apply bind_inl in Es; destruct Es as (u4 & x4 & _ & Es).
  apply bind_inl in Es; destruct Es as (u5 & x5 & _ & Es).
  apply bind_inl in Es; destruct Es as (u6 & x6 & _ & Es).
  apply bind_inl in Es; destruct Es as (dir & x7 & E7 & Es).
  apply bind_inl in Es; destruct Es as (fs' & x8 & E8 & Es).
  apply bind_inl in Es; destruct Es as (u9 & x9 & E9 & Es).
  injection Es as <- <-. injection E9 as <- _.
  exists x6, x7, x8, dir; auto.
Qed.

(** The files the loop adds: one per output entry of the listing, in the
    order of the listing, named after the entry and typed [video/mp4]. *)
Lemma drain_files (dir : list FSNode) (acc : list File) (w w' : World P) files :
  drain dir acc w = (w', inl files) ->
  exists new,
    files = acc ++ new
    /\ map file_name new = map name (filter isOutput dir)
    /\ Forall (fun o => file_type o = js "video/mp4") new.
Proof.
  revert acc w; induction dir as [|f dir IH]; intros acc w E; simpl in E.
  - injection E as _ <-; exists []; rewrite app_nil_r; auto.
  - simpl; destruct (isOutput f) eqn:Ho.
    + apply bind_inl in E; destruct E as (data & w1 & _ & E).
      apply bind_inl in E; destruct E as (u & w2 & _ & E).
      destruct (IH _ _ E) as (new & -> & Hn & Ht).
      exists (fileOfData data (name f) (js "video/mp4") :: new).
      rewrite <- app_assoc; split; [reflexivity|]. split.
      * simpl; rewrite Hn; reflexivity.
      * constructor; [reflexivity | exact Ht].
    + exact (IH _ _ E).
Qed.

Section Leftovers.

Context `{!Memfs P}.

(** When the loop runs to its end, no output entry it was to visit is
    left in the working directory. *)
Lemma drain_empties (dir : list FSNode) (acc : list File) (w w' : World P) files :
  drain dir acc w = (w', inl files) ->
  (forall f, In f (workDir (host w)) -> isOutput f = true -> In f dir) ->
  forall f, In f (workDir (host w')) -> isOutput f = false.
Proof.
  revert acc w; induction dir as [|f0 dir IH]; intros acc w E Hdir; simpl in E.
  - injection E as <- _; intros f Hin.
    destruct (isOutput f) eqn:Ho; [destruct (Hdir f Hin Ho) | reflexivity].
  - destruct (isOutput f0) eqn:Ho0.
    + apply bind_inl in E; destruct E as (data & w1 & E1 & E).
      apply bind_inl in E; destruct E as ([] & w2 & E2 & E).
      apply engine_inv in E1; destruct E1 as (m1 & R1 & _).
      apply engine_inv in E2; destruct E2 as (m2 & R2 & _).
      apply (IH _ _ E); intros f Hin Ho.
      destruct (deleteFile_removes _ _ _ _ f R2 Hin) as [Hin1 Hname].
      pose proof (readFile_frame _ _ _ _ _ f R1 Hin1) as Hin0.
      destruct (Hdir f Hin0 Ho) as [->|Hd]; [congruence | exact Hd].
    + apply (IH _ _ E); intros f Hin Ho.
      destruct (Hdir f Hin Ho) as [->|Hd]; [congruence | exact Hd].
Qed.

(** C1, as the code has it.  After a call of [splitVideo] that returns,
    the engine's working directory holds no file whose name starts with
    [output_] and ends with [.mp4]: each was read and then deleted.  (A
    call that throws makes no such promise.) *)
Theorem outputs_drained_on_success (file : File) (d : Z) (w w' : World P) files :
  splitVideo file d w = (w', inl files) ->
  leftovers w' = [].
Proof.
  intros E; destruct (splitVideo_returns file d w w' files E)
    as (w1 & w2 & w3 & dir & El & Ed & Hh).
  apply engine_inv in El; destruct El as (msgs & Rl & _).
  unfold leftovers; rewrite Hh.
  assert (Hnone : forall f, In f (workDir (host w3)) -> isOutput f = false).
  { apply (drain_empties dir [] w2 w3 files Ed).
    intros f Hin _; exact (listDir_complete _ _ _ _ f Rl Hin). }
  induction (workDir (host w3)) as [|f l IH]; [reflexivity|].
  simpl; rewrite (Hnone f (or_introl eq_refl)).
  apply IH; intros g Hg; apply Hnone; right; exact Hg.
Qed.

End Leftovers.

Lemma isOutput_name (f : FSNode) :
  isOutput f = true ->
  startsWith (js "output_") (name f) = true /\ endsWith (js ".mp4") (name f) = true.
Proof.
  unfold isOutput; intros Ho.
  apply andb_true_iff in Ho; destruct Ho as [Ho He].
  apply andb_true_iff in Ho; destruct Ho as [_ Hs]; auto.
Qed.

(** C7, as the code has it.  A call of [splitVideo] that returns gives one
    file per entry of the listing it obtained -- what [listDir] answered
    in the host state reached after [exec] and the cleanup -- that is not
    a directory and whose name starts with [output_] and ends with
    [.mp4], in the order of that listing and under the entry's name;
    every such file is typed [video/mp4], whatever the type of the
    input. *)
Theorem outputs_in_listing_order (file : File) (d : Z) (w w' : World P) files :
  splitVideo file d w = (w', inl files) ->
  exists w0 wl p msgs dir,
    ensureLoaded w = (w0, inl tt)
    /\ listingReady (renameFile file inputFileName (file_type file)) d w0
       = (wl, inl tt)
    /\ ffListDir (js ".") (host wl) = (p, msgs, inl dir)
    /\ map file_name files = map name (filter isOutput dir)
    /\ Forall (fun o => file_type o = js "video/mp4"
                        /\ startsWith (js "output_") (file_name o) = true
                        /\ endsWith (js ".mp4") (file_name o) = true) files.
Proof.
  intros E; destruct (splitVideo_staged file d w w' files E)
    as (w0 & wx & wl & wd & dir & w3 & E0 & _ & _ & El & Ed & Er & _).
  destruct (engine_effect _ _ _ _ _ Ed) as (msgs & Rl & _).
  destruct (drain_files dir [] wd w3 files Er) as (new & -> & Hn & Ht).
  exists w0, wl, (host wd), msgs, dir.
  split; [exact E0|]. split; [exact El|].
  split; [exact Rl|]. split; [exact Hn|]. change ([] ++ new) with new.
  assert (Hnames : Forall (fun n => startsWith (js "output_") n = true
                                    /\ endsWith (js ".mp4") n = true)
                          (map file_name new)).
  { rewrite Hn; apply Forall_forall; intros n Hin.
    apply in_map_iff in Hin; destruct Hin as (f & <- & Hf).
    apply filter_In in Hf; destruct Hf as [_ Ho]; exact (isOutput_name f Ho). }
  rewrite Forall_forall in Ht, Hnames; apply Forall_forall; intros o Ho.
  split; [exact (Ht o Ho)|].
  apply Hnames, in_map, Ho.
Qed.

End DrainFacts.

(* ================================================================== *)
(** * The simulated platform: laws and concrete runs *)
(* ================================================================== *)

Section SimFacts.

Import Sim.

Lemma guarded_inl {A} c p (run : State * list jsstring * result A) p' msgs a :
  guarded c p run = (p', msgs, inl a) -> run = (p', msgs, inl a).
Proof. unfold guarded; destruct (fault p c); [discriminate | auto]. Qed.

Lemma sim_listDir_complete p p' msgs dir f :
  simListDir (js ".") p = (p', msgs, inl dir) ->
  In f (map fst (memfs p')) -> In f dir.
Proof.
  intros E; apply guarded_inl in E; injection E as <- _ <-; auto.
Qed.

Lemma sim_readFile_frame path p p' msgs r f :
  simReadFile path p = (p', msgs, r) ->
  In f (map fst (memfs p')) -> In f (map fst (memfs p)).
Proof.
  unfold simReadFile, guarded.
  destruct (fault p (CReadFile path)); [|destruct (find (isFile path) (memfs p))];
    intros E; injection E as <- _ _; auto.
Qed.

Lemma sim_deleteFile_removes path p p' msgs f :
  simDeleteFile path p = (p', msgs, inl tt) ->
  In f (map fst (memfs p')) -> In f (map fst (memfs p)) /\ name f <> path.
Proof.
  intros E; apply guarded_inl in E.
  destruct (existsb (isFile path) (memfs p)); [|discriminate].
  injection E as <- _; cbn [memfs withFs].
  intros Hin; apply in_map_iff in Hin; destruct Hin as ([g data] & <- & Hg).
  apply filter_In in Hg; destruct Hg as [Hg Hn]; cbn [fst] in *.
  split; [apply (in_map fst _ _ Hg)|].
  apply negb_true_iff, jsstring_eqb_neq in Hn; exact Hn.
Qed.

#[global] Instance sim_memfs : Memfs State := {|
  workDir := fun p => map fst (memfs p);
  listDir_complete := sim_listDir_complete;
  readFile_frame := sim_readFile_frame;
  deleteFile_removes := sim_deleteFile_removes
|}.

(** ** Runs *)

Example boot_then_split :
  snd (splitVideo clipFile 30 bootWorld) = inl twoFiles
  /\ progress (fst (splitVideo clipFile 30 bootWorld)) = [10; 80; 100]
  /\ loaded (fst (splitVideo clipFile 30 bootWorld)) = true.
Proof. vm_compute; auto. Qed.

Example offline_load :
  snd (load offlineWorld)
  = inr (JsError (js "FFmpeg Load Error: Failed to fetch worker: Not Found"))
  /\ loaded (fst (load offlineWorld)) = false.
Proof. vm_compute; auto. Qed.

Example wasm_fetch_fails :
  snd (load (newService (fresh (okResponse mixedScript) wasmFault [])))
  = inr (JsError (js "FFmpeg Load Error: Failed to fetch"))
  /\ loaded (fst (load (newService (fresh (okResponse mixedScript) wasmFault []))))
     = false
  /\ map isExec
       (calls (fst (load (newService (fresh (okResponse mixedScript) wasmFault [])))))
     = [false; false; false; false].
Proof. vm_compute; auto. Qed.

Example exec_arguments :
  execs (fst (splitVideo clipFile 30 bootWorld))
  = [CExec [js "-i"; js "/input_mount/input.mp4"; js "-c"; js "copy";
            js "-map"; js "0"; js "-f"; js "segment"; js "-segment_time"; js "30";
            js "-reset_timestamps"; js "1"; js "output_%03d.mp4"]].
Proof. vm_compute; reflexivity. Qed.

(** ** C1 does not extend to calls that throw: outputs can stay behind *)

(** Reading the second clip back fails; the [catch] block only unmounts,
    and [output_001.mp4] stays in the working directory. *)
Lemma failed_call_leaves_output :
  ~ (forall (file : File) (d : Z) (w : World State),
       leftovers (fst (splitVideo file d w)) = []).
Proof.
  intros Hall; specialize (Hall clipFile 30 readFailWorld).
  vm_compute in Hall; discriminate.
Qed.

Example failed_call_details :
  snd (splitVideo clipFile 30 readFailWorld)
  = inr (JsOther (js "RangeError: Array buffer allocation failed"))
  /\ leftovers (fst (splitVideo clipFile 30 readFailWorld))
     = [mkNode (js "output_001.mp4") false].
Proof. vm_compute; auto. Qed.

Lemma outputs_drained_on_success_witness :
  splitVideo clipFile 30 bootWorld
  = (fst (splitVideo clipFile 30 bootWorld), inl twoFiles)
  /\ leftovers (fst (splitVideo clipFile 30 bootWorld)) = [].
Proof.
  assert (E : splitVideo clipFile 30 bootWorld
              = (fst (splitVideo clipFile 30 bootWorld), inl twoFiles))
    by (vm_compute; reflexivity).
  split; [exact E|].
  exact (outputs_drained_on_success clipFile 30 bootWorld _ twoFiles E).
Defined.

(** ** C7 does not hold of the container: outputs are video/mp4 whatever the input *)

(** A [video/webm] input comes back as clips typed [video/mp4]. *)
Lemma webm_input_mp4_outputs :
  ~ (forall (file : File) (d : Z) (w : World State),
       match snd (splitVideo file d w) with
       | inl files => sameContainer file files = true
       | inr _ => True
       end).
Proof.
  intros Hall; specialize (Hall clipFile 30 bootWorld).
  vm_compute in Hall; discriminate.
Qed.

Lemma outputs_in_listing_order_witness :
  splitVideo clipFile 30 bootWorld
  = (fst (splitVideo clipFile 30 bootWorld), inl twoFiles)
  /\ exists w0 wl p msgs dir,
       ensureLoaded bootWorld = (w0, inl tt)
       /\ listingReady (renameFile clipFile inputFileName (file_type clipFile)) 30 w0
          = (wl, inl tt)
       /\ ffListDir (js ".") (host wl) = (p, msgs, inl dir)
       /\ map file_name twoFiles = map name (filter isOutput dir)
       /\ Forall (fun o => file_type o = js "video/mp4"
                           /\ startsWith (js "output_") (file_name o) = true
                           /\ endsWith (js ".mp4") (file_name o) = true) twoFiles.
Proof.
  assert (E : splitVideo clipFile 30 bootWorld
              = (fst (splitVideo clipFile 30 bootWorld), inl twoFiles))
    by (vm_compute; reflexivity).
  split; [exact E|].
  exact (outputs_in_listing_order clipFile 30 bootWorld _ twoFiles E).
Defined.

(** ** Concrete instances of the other theorems *)

Lemma splitVideo_keeps_loaded_witness :
  loaded readFailWorld = true
  /\ loaded (fst (splitVideo clipFile 30 readFailWorld)) = true.
Proof.
  split; [reflexivity|].
  apply (splitVideo_keeps_loaded clipFile 30 readFailWorld); reflexivity.
Defined.

Lemma mount_failure_skips_exec_witness :
  exists w',
    splitVideo clipFile 30 mountFailWorld
    = (w', inr (JsOther (js "ErrnoError: FS error")))
    /\ execs w' = execs mountFailWorld
    /\ In (CUnmount mountDir) (calls w')
    /\ exists t,
         In (mkLog error
               (js "Processing failed: "
                ++ messageProp (JsOther (js "ErrnoError: FS error"))) t)
            (logs w').
Proof.
  apply (mount_failure_skips_exec clipFile 30 mountFailWorld mountFailWorld).
  - reflexivity.
  - eapply MountRejected; reflexivity.
Defined.

Lemma load_failure_wrapped_witness :
  loaded offlineWorld = false
  /\ exists w' msg,
       msg = js "Failed to fetch worker: " ++ js "Not Found"
       /\ load offlineWorld
          = (w', inr (JsError (js "FFmpeg Load Error: " ++ msg)))
       /\ loaded w' = false
       /\ (exists t,
             In (mkLog error (js "Failed to load FFmpeg: " ++ msg) t) (logs w'))
       /\ forall p1 resp,
            fetch workerScriptURL (host offlineWorld) = (p1, inl resp) ->
            ok resp = false ->
            msg = js "Failed to fetch worker: " ++ statusText resp.
Proof.
  split; [reflexivity|].
  apply (load_failure_wrapped offlineWorld
           (JsError (js "Failed to fetch worker: " ++ js "Not Found"))).
  - reflexivity.
  - apply (FetchNotOk (host offlineWorld) (tick (host offlineWorld))
             (mkResponse false (js "Not Found") (inl (js "<html>404</html>"))));
      reflexivity.
Defined.

Lemma load_idempotent_witness :
  loaded bootWorld = false
  /\ load bootWorld = (fst (load bootWorld), inl tt)
  /\ loaded (fst (load bootWorld)) = true
  /\ load (fst (load bootWorld)) = (fst (load bootWorld), inl tt)
  /\ bind load (fun _ => load) bootWorld = (fst (load bootWorld), inl tt).
Proof.
  assert (E : load bootWorld = (fst (load bootWorld), inl tt))
    by (vm_compute; reflexivity).
  destruct (load_idempotent bootWorld) as (_ & _ & Hfresh).
  destruct (Hfresh _ eq_refl E) as (H1 & H2 & H3 & _).
  auto.
Defined.

Lemma patch_rewrites_imports_witness :
  Patch.patchWorker mixedScript
  = js "import{FFmpeg}" ++ Patch.absRef (js "classes.js")
    ++ Patch.patchWorker (js ";import { x } from './util.js';let ffmpeg;")
  /\ Patch.patchWorker
       (Patch.script
          [ (js "import{FFmpeg}", Patch.mkRef [] dquote (js "classes.js") dquote);
            (js ";import { x } ", Patch.mkRef [32] squote (js "util.js") squote) ]
          (js ";let ffmpeg;"))
     = Patch.absolute
         [ (js "import{FFmpeg}", Patch.mkRef [] dquote (js "classes.js") dquote);
           (js ";import { x } ", Patch.mkRef [32] squote (js "util.js") squote) ]
         (js ";let ffmpeg;")
  /\ Patch.patchWorker plainScript = plainScript
  /\ (exists t, In (mkLog info noImportsWarning t) (logs (fst (load plainWorld))))
  /\ In (CCreateObjectURL plainScript (js "text/javascript"))
        (calls (fst (load plainWorld))).
Proof.
  destruct (patch_rewrites_imports (P:=State))
    as (Hfirst & Hevery & _ & Hfix & Hload).
  assert (Hplain : ~ Patch.hasRelRef plainScript)
    by (apply patchWorker_fixed_iff; vm_compute; reflexivity).
  split.
  - apply (Hfirst (js "import{FFmpeg}") [] dquote (js "classes.js") dquote
             (js ";import { x } from './util.js';let ffmpeg;")).
    + repeat split; reflexivity.
    + apply noEarlierMatch_sound; vm_compute; reflexivity.
  - split.
    + apply Hevery; [|reflexivity].
      repeat constructor; reflexivity.
    + split; [exact (Hfix plainScript Hplain)|].
      apply (Hload plainWorld (tick (host plainWorld))
               (mkResponse true (js "OK") (inl plainScript)) plainScript);
        try reflexivity.
      exact Hplain.
Defined.

(** ** C4 does not hold of the status of the core and wasm fetches

    [load] tests the status of the worker answer only.  The core and the
    wasm payload are fetched inside [toBlobURL], and [load] sees nothing
    of their answers but whether [toBlobURL] fulfils.  On the platform
    [Lax] the core URL is answered with a failure status at every state,
    [toBlobURL] makes an object URL of the body all the same, and [load]
    returns with the session loaded. *)
Example lax_core_answer (p : State) :
  exists p' resp,
    @fetch State Lax.platform coreScriptURL p = (p', inl resp) /\ ok resp = false.
Proof. eexists; eexists; split; reflexivity. Qed.

Example lax_load_returns :
  @load State Lax.platform bootWorld
  = (fst (@load State Lax.platform bootWorld), inl tt)
  /\ loaded (fst (@load State Lax.platform bootWorld)) = true.
Proof. vm_compute; auto. Qed.

Lemma core_status_not_examined :
  ~ (forall (P : Type) (H : Platform P) (w : World P) (url : jsstring),
       In url [workerScriptURL; coreScriptURL; coreWasmURL] ->
       (forall p, exists p' resp,
           fetch url p = (p', inl resp) /\ ok resp = false) ->
       loaded w = false ->
       exists w' e, load w = (w', inr e) /\ loaded w' = false).
Proof.
  intros Hall.
  destruct (Hall State Lax.platform bootWorld coreScriptURL)
    as (w' & e & E & _).
  - right; left; reflexivity.
  - exact lax_core_answer.
  - reflexivity.
  - vm_compute in E; discriminate.
Qed.

End SimFacts.

(* ================================================================== *)
(** * More on the service: the calls it makes, the errors it lets out *)
(* ================================================================== *)

Section ServiceTraces.

Context {P : Type} `{Platform P}.

Local Open Scope service_scope.

(** X5. The cleanup [splitVideo] runs after [exec] never makes the call
    fail: a rejection of [unmount] or [deleteDir] goes to [console.warn];
    and when [unmount] rejects, [deleteDir] is not attempted, so the mount
    point stays. *)
Theorem cleanup_is_tolerated (w : World P) :
  exists w',
    tryCatch cleanup consoleWarn w = (w', inl tt)
    /\ match ffUnmount mountDir (host w) with
       | (p1, _, inr x) =>
           host w' = p1
           /\ calls w' = calls w ++ [CUnmount mountDir]
           /\ warnings w' = warnings w ++ [x]
       | (p1, _, inl _) =>
           calls w' = calls w ++ [CUnmount mountDir; CDeleteDir mountDir]
           /\ match ffDeleteDir mountDir p1 with
              | (p2, _, inr x) => host w' = p2 /\ warnings w' = warnings w ++ [x]
              | (p2, _, inl _) => host w' = p2 /\ warnings w' = warnings w
              end
       end.
Proof. exact (cleanup_warn_inv w). Qed.

(** X1. A call of [splitVideo] that returns has made, after the
    bootstrap if one was due, exactly these engine calls in this order:
    [createDir] of the mount point, [mount] of the input under the fixed
    name [input.mp4], one [exec] with the argument list of the duration,
    [unmount], then [deleteDir] exactly when that [unmount] went through
    in the host state [exec] left, [listDir] of the working directory,
    and for each output entry of the listing [listDir] answered there a
    [readFile] followed at once by its [deleteFile].  Entries of that
    listing that are not outputs are neither read nor deleted. *)
Theorem split_success_calls (file : File) (d : Z) (w w' : World P) files :
  splitVideo file d w = (w', inl files) ->
  exists w0 wx wl p msgs dir,
    ensureLoaded w = (w0, inl tt)
    /\ (mountStep (renameFile file inputFileName (file_type file)) ;; execStep d) w0
       = (wx, inl tt)
    /\ tryCatch cleanup consoleWarn wx = (wl, inl tt)
    /\ ffListDir (js ".") (host wl) = (p, msgs, inl dir)
    /\ calls w'
       = calls w0
         ++ [CCreateDir mountDir;
             CMount (js "WORKERFS")
                    [renameFile file inputFileName (file_type file)] mountDir;
             CExec (execArgs d)]
         ++ match ffUnmount mountDir (host wx) with
            | (_, _, inl _) => [CUnmount mountDir; CDeleteDir mountDir]
            | (_, _, inr _) => [CUnmount mountDir]
            end
         ++ [CListDir (js ".")]
         ++ drainCalls dir
    /\ map file_name files = map name (filter isOutput dir).
Proof.
  intros E; destruct (splitVideo_staged file d w w' files E)
    as (w0 & wx & wl & wd & dir & w3 & E0 & Ex & Eu & _ & Ed & Er & Ep).
  destruct (engine_effect _ _ _ _ _ Ed) as (msgs & Rl & Cl & _).
  exists w0, wx, wl, (host wd), msgs, dir.
  split; [exact E0|]. split; [exact Ex|]. split; [exact Eu|].
  split; [exact Rl|].
  destruct (drain_files _ _ _ _ _ Er) as (new & Hnew & Hn & _).
  cbn [app] in Hnew; subst new.
  split; [|exact Hn].
  apply bind_inl in Ex; destruct Ex as ([] & wm & Em & Ex).
  apply mountStep_calls in Em.
  apply execStep_calls in Ex.
  destruct (onProgress_eq _ _ _ _ Ep) as (_ & Cp & _).
  pose proof (drain_calls _ _ _ _ _ Er) as Cr.
  assert (Cu : calls wl
               = calls wx
                 ++ match ffUnmount mountDir (host wx) with
                    | (_, _, inl _) => [CUnmount mountDir; CDeleteDir mountDir]
                    | (_, _, inr _) => [CUnmount mountDir]
                    end).
  { destruct (cleanup_warn_inv wx) as (wl' & Eu' & Hm).
    rewrite Eu in Eu'; injection Eu' as <-.
    destruct (ffUnmount mountDir (host wx)) as [[p1 m1] [u|x]]; apply Hm. }
  rewrite Cp, Cr, Cl, Cu, Ex, Em, <- !app_assoc; reflexivity.
Qed.

End ServiceTraces.

Section ServiceOutcomes.

Context {P : Type} `{Platform P}.

Local Open Scope service_scope.

(** ** One exec at most *)

Lemma drain_execs dir files : frames (same execs) (drain (P:=P) dir files).
Proof.
  revert files; induction dir as [|f dir IH]; intros files; simpl.
  - frames_auto.
  - destruct (isOutput f); [|apply IH]. frames_auto. apply IH.
Qed.

Lemma triple_exec (args : list jsstring) (base : list Call) exc :
  (forall e w, execs w = base ++ [CExec args] -> exc e w) ->
  triple (fun w : World P => execs w = base)
         (engine (CExec args) (ffExec args))
         (fun _ w => execs w = base ++ [CExec args]) exc.
Proof.
  intros He w Hw.
  destruct (engine (CExec args) (ffExec args) w) as [w1 r] eqn:E.
  destruct (engine_effect _ _ _ _ _ E) as (msgs & _ & C & _).
  assert (Hx : execs w1 = base ++ [CExec args]).
  { unfold execs in *; rewrite C, filter_app, Hw; reflexivity. }
  destruct r; [exact Hx | apply He, Hx].
Qed.

Lemma splitVideo_execs (file : File) (d : Z) (base : list Call) :
  triple (fun w : World P => execs w = base) (splitVideo file d)
         (fun _ w => execs w = base ++ [CExec (execArgs d)])
         (fun _ w => execs w = base \/ execs w = base ++ [CExec (execArgs d)]).
Proof.
  unfold splitVideo.
  eapply triple_bind;
    [apply triple_same; [apply ensureLoaded_execs | auto] | intros ?; cbv beta].
  cbv zeta.
  eapply triple_tryCatch
    with (mid := fun _ w => execs w = base \/ execs w = base ++ [CExec (execArgs d)]).
  - eapply triple_bind;
      [apply triple_same; [apply mountStep_execs | auto] | intros ?; cbv beta].
    unfold segmentStep.
    eapply triple_bind; [apply triple_same; [frames_auto | auto] | intros ?; cbv beta].
    eapply triple_bind; [apply triple_same; [frames_auto | auto] | intros ?; cbv beta].
    eapply triple_bind; [apply triple_exec; auto | intros ?; cbv beta].
    eapply triple_bind; [apply triple_same; [frames_auto | auto] | intros ?; cbv beta].
    eapply triple_bind; [apply triple_same; [frames_auto | auto] | intros ?; cbv beta].
    eapply triple_bind;
      [apply triple_same; [frames_auto; apply cleanup_execs | auto]
      | intros ?; cbv beta].
    eapply triple_bind; [apply triple_same; [frames_auto | auto] | intros ?; cbv beta].
    eapply triple_bind; [apply triple_same; [apply drain_execs | auto] | intros ?; cbv beta].
    eapply triple_bind; [apply triple_same; [frames_auto | auto] | intros ?; cbv beta].
    apply triple_ret; auto.
  - intros e w Hw.
    pose proof (splitHandler_execs e w) as Hx; unfold same in Hx.
    pose proof (splitHandler_rethrows e w) as Hr.
    destruct (splitHandler e w) as [w1 [fs|e1]]; simpl in *; [discriminate|].
    rewrite Hx; exact Hw.
Qed.

(** X2. A call of [splitVideo] runs the engine's [exec] at most once, and
    only with the argument list built from its duration: exactly once when
    it returns, once or not at all when it throws. *)
Theorem at_most_one_exec (file : File) (d : Z) (w : World P) :
  match snd (splitVideo file d w) with
  | inl _ => execs (fst (splitVideo file d w)) = execs w ++ [CExec (execArgs d)]
  | inr _ => execs (fst (splitVideo file d w)) = execs w
             \/ execs (fst (splitVideo file d w)) = execs w ++ [CExec (execArgs d)]
  end.
Proof.
  pose proof (splitVideo_execs file d (execs w) w eq_refl) as Ht.
  destruct (splitVideo file d w) as [w1 [files|e]]; exact Ht.
Qed.

(** ** A bootstrap that fails *)

(** X3. When [splitVideo] is called on a session not yet loaded and the
    bootstrap fails, the call is that failed [load] and nothing more: it
    throws the wrapped load error, in the world [load] left, without
    entering its [try] block (no mount, no exec, no progress report, no
    [Processing failed] entry). *)
Theorem split_stops_at_failed_bootstrap (file : File) (d : Z) (w w1 : World P)
    (e : JsThrown) :
  loaded w = false ->
  load w = (w1, inr e) ->
  splitVideo file d w = (w1, inr e)
  /\ exists x, BootFailure (host w) x
               /\ e = JsError (js "FFmpeg Load Error: " ++ errorText x).
Proof.
  intros Hl E; split.
  - unfold splitVideo; apply bind_fail.
    unfold ensureLoaded, bind, getLoaded; rewrite Hl; cbn [negb when].
    exact E.
  - pose proof (load_outcome w Hl) as Ho; rewrite E in Ho; apply Ho.
Qed.

(** ** What a call can throw *)

Lemma tryBlock_throws (safeFile : File) (d : Z) (w w' : World P) e :
  (mountStep safeFile ;; segmentStep d) w = (w', inr e) ->
  TryFailure safeFile d w e.
Proof.
  intros E; rewrite tryBlock_stages in E.
  apply bind_inr in E; destruct E as [E | ([] & wl & El & E)].
  - unfold listingReady in E.
    apply bind_inr in E; destruct E as [E | ([] & wm & Em & E)];
      [exact (MountStepFailed _ _ _ _ (mountStep_throws _ _ _ _ E))|].
    apply bind_inr in E; destruct E as [E | ([] & wx & Ex & E)].
    + destruct (execStep_throws _ _ _ _ E) as (p & msgs & R).
      exact (ExecRejected _ _ _ _ _ _ _ Em R).
    + apply cleanup_warn_calls in E; destruct E as (E & _); discriminate.
  - unfold collectStep in E.
    apply bind_inr in E; destruct E as [E | (dir & wd & Ed & E)].
    { destruct (engine_effect _ _ _ _ _ E) as (msgs & R & _).
      exact (ListDirRejected _ _ _ _ _ _ _ El R). }
    apply bind_inr in E; destruct E as [E | (fs & w3 & _ & E)].
    { destruct (drain_throws_at _ _ _ _ _ E)
        as (pre & f & post & acc & wq & Hdir & Hf & Epre & [Hr|Hr]).
      - destruct Hr as (p & msgs & R).
        exact (ReadFileRejected _ _ _ _ _ _ _ _ _ _ _ _ _ _ El Ed Hdir Hf Epre R).
      - destruct Hr as (wr & data & p & msgs & Eread & R).
        exact (DeleteFileRejected _ _ _ _ _ _ _ _ _ _ _ _ _ _ _ _
                 El Ed Hdir Hf Epre Eread R). }
    apply bind_inr in E; destruct E as [E | (u9 & x9 & _ & E)];
      [apply onProgress_eq in E; destruct E as (E & _); discriminate|].
    discriminate.
Qed.

(** X4. Once the bootstrap, if due, has gone through, whatever
    [splitVideo] throws is the value an engine call of its [try] block
    rejected with, in the host state this call had reached: [createDir] or
    [mount] at the start, [exec] after the mount, [listDir] after [exec]
    and the cleanup, or the [readFile] or [deleteFile] of an output entry
    after the loop went through the entries before it.  The call throws
    nothing of its own making, and what [unmount] or [deleteDir] reject
    with, in the cleanup after [exec] or in the [catch] block, is never
    what reaches the caller.  (The callbacks return, and the engine
    rejects with an [Error] or another value that is not nullish, as
    everywhere in this development.) *)
Theorem split_throws_engine_rejections (file : File) (d : Z) (w w0 w' : World P)
    (e : JsThrown) :
  ensureLoaded w = (w0, inl tt) ->
  splitVideo file d w = (w', inr e) ->
  TryFailure (renameFile file inputFileName (file_type file)) d w0 e.
Proof.
  intros E0 E; unfold splitVideo in E.
  rewrite (bind_run _ _ _ _ _ E0) in E; cbv zeta in E.
  unfold tryCatch in E.
  destruct ((mountStep (renameFile file inputFileName (file_type file)) ;;
             segmentStep d) w0) as [wb [fs|e0]] eqn:Eb; [discriminate|].
  pose proof (splitHandler_rethrows e0 wb) as Hr; rewrite E in Hr.
  injection Hr as ->.
  exact (tryBlock_throws _ d w0 wb e0 Eb).
Qed.

(** ** After a call that returns *)

Lemma ensureLoaded_returns (w w0 : World P) :
  ensureLoaded w = (w0, inl tt) -> loaded w0 = true.
Proof.
  unfold ensureLoaded, bind, getLoaded; destruct (loaded w) eqn:Hl; cbn [negb when].
  - intros E; injection E as <-; exact Hl.
  - intros E. pose proof (load_outcome w Hl) as Ho; rewrite E in Ho; exact Ho.
Qed.

(** X9. When [splitVideo] returns, the session is loaded, whether it was
    before the call or not: the bootstrap, if it was due, went through. *)
Theorem split_returns_loaded (file : File) (d : Z) (w w' : World P) files :
  splitVideo file d w = (w', inl files) -> loaded w' = true.
Proof.
  intros E; unfold splitVideo in E.
  apply bind_inl in E; destruct E as ([] & w0 & E0 & E); cbv zeta in E.
  rewrite <- (ensureLoaded_returns w w0 E0).
  assert (Hf : frames (same loaded)
                 (tryCatch (mountStep (renameFile file inputFileName (file_type file)) ;;
                            segmentStep d) (splitHandler (P:=P)))).
  { frames_auto;
      first [apply mountStep_loaded | apply segmentStep_loaded
            | apply splitHandler_loaded]. }
  specialize (Hf w0); rewrite E in Hf; exact Hf.
Qed.

(** ** The bytes of the outputs *)

(** When the loop runs to its end, the file it made of an output entry
    [f] holds what [readFile] gave for the name of [f] in the host state
    the entries before [f] had led to, and stands among the files where
    [f] stands among the outputs. *)
Lemma drain_reads_at (pre : list FSNode) (f : FSNode) (post : list FSNode)
    (acc : list File) (w w' : World P) files :
  drain (pre ++ f :: post) acc w = (w', inl files) ->
  isOutput f = true ->
  exists acc' wq p msgs data,
    drain pre acc w = (wq, inl acc')
    /\ ffReadFile (name f) (host wq) = (p, msgs, inl data)
    /\ nth_error files (List.length acc + List.length (filter isOutput pre))
       = Some (fileOfData data (name f) (js "video/mp4")).
Proof.
  revert acc w; induction pre as [|g pre IH]; intros acc w E Hf.
  - cbn [app drain] in E; rewrite Hf in E.
    apply bind_inl in E; destruct E as (data & w1 & E1 & E).
    apply bind_inl in E; destruct E as (u & w2 & E2 & E).
    destruct (engine_effect _ _ _ _ _ E1) as (msgs & R & _).
    destruct (drain_files _ _ _ _ _ E) as (new & -> & _).
    exists acc, w, (host w1), msgs, data.
    split; [reflexivity|]. split; [exact R|].
    cbn [filter List.length]; rewrite Nat.add_0_r, <- app_assoc.
    rewrite nth_error_app2 by apply Nat.le_refl.
    rewrite Nat.sub_diag; reflexivity.
  - rewrite <- app_comm_cons in E; cbn [drain] in E.
    cbn [filter drain]; destruct (isOutput g) eqn:Hg.
    + apply bind_inl in E; destruct E as (data & w1 & E1 & E).
      apply bind_inl in E; destruct E as (u & w2 & E2 & E).
      destruct (IH _ _ E Hf) as (acc' & wq & p & msgs & dat & Ed & R & Hn).
      exists acc', wq, p, msgs, dat.
      split; [|split; [exact R|]].
      * rewrite (bind_run _ _ _ _ _ E1); cbv zeta.
        rewrite (bind_run _ _ _ _ _ E2); exact Ed.
      * rewrite <- Hn; f_equal.
        rewrite length_app; cbn [List.length]; lia.
    + exact (IH _ _ E Hf).
Qed.

(** X8. The files a call of [splitVideo] returns are as many as the
    output entries of the listing it obtained, and the file standing where
    an output entry [f] stands among them was made of the bytes the
    engine's [readFile] gave for the name of [f], in the host state the
    loop had reached when it came to [f], under that name, with the number
    of those bytes as its size and typed [video/mp4]. *)
Theorem outputs_carry_read_bytes (file : File) (d : Z) (w w' : World P) files :
  splitVideo file d w = (w', inl files) ->
  exists w0 wl wd dir,
    ensureLoaded w = (w0, inl tt)
    /\ listingReady (renameFile file inputFileName (file_type file)) d w0
       = (wl, inl tt)
    /\ engine (CListDir (js ".")) (ffListDir (js ".")) wl = (wd, inl dir)
    /\ List.length files = List.length (filter isOutput dir)
    /\ forall pre f post,
         dir = pre ++ f :: post ->
         isOutput f = true ->
         exists acc wq p msgs data,
           drain pre [] wd = (wq, inl acc)
           /\ ffReadFile (name f) (host wq) = (p, msgs, inl data)
           /\ nth_error files (List.length (filter isOutput pre))
              = Some (fileOfData data (name f) (js "video/mp4")).
Proof.
  intros E; destruct (splitVideo_staged file d w w' files E)
    as (w0 & wx & wl & wd & dir & w3 & E0 & _ & _ & El & Ed & Er & _).
  exists w0, wl, wd, dir.
  split; [exact E0|]. split; [exact El|]. split; [exact Ed|]. split.
  - destruct (drain_files _ _ _ _ _ Er) as (new & Hnew & Hn & _).
    cbn [app] in Hnew; subst new.
    rewrite <- (length_map file_name), Hn, length_map; reflexivity.
  - intros pre f post Hdir Hf; subst dir.
    destruct (drain_reads_at _ _ _ _ _ _ _ Er Hf)
      as (acc & wq & p & msgs & data & Epre & R & Hn).
    exists acc, wq, p, msgs, data; auto.
Qed.

End ServiceOutcomes.

(* ================================================================== *)
(** * More on the service: what the log shows *)
(* ================================================================== *)

Ltac calm_entry := intros; unfold calm; cbn; discriminate.

Section LogFacts.

Context {P : Type} `{Platform P}.

Local Open Scope service_scope.

Lemma calmly_refl (w : World P) : calmly w w.
Proof. exists []; split; [symmetry; apply app_nil_r | constructor]. Qed.

Lemma calmly_trans (w1 w2 w3 : World P) :
  calmly w1 w2 -> calmly w2 w3 -> calmly w1 w3.
Proof.
  intros (e1 & E1 & F1) (e2 & E2 & F2); exists (e1 ++ e2); split.
  - rewrite E2, E1, app_assoc; reflexivity.
  - apply Forall_app; auto.
Qed.

Lemma calmly_log t m : t <> error -> frames calmly (log (P:=P) t m).
Proof.
  intros Ht w; eexists; split; [reflexivity|].
  constructor; [exact Ht | constructor].
Qed.

(** A computation that leaves the log alone. *)
Lemma calmly_quiet {A} (m : M P A) :
  (forall w, logs (fst (m w)) = logs w) -> frames calmly m.
Proof.
  intros Hq w; exists []; split; [rewrite Hq, app_nil_r; reflexivity | constructor].
Qed.

Lemma calmly_browser {A} c (op : P -> P * result A) : frames calmly (browser c op).
Proof.
  apply calmly_quiet; intros w; unfold browser.
  destruct (op (host w)); reflexivity.
Qed.

Lemma calmly_engine {A} c (op : P -> P * list jsstring * result A) :
  frames calmly (engine c op).
Proof.
  intros w; destruct (engine c op w) as [w1 r] eqn:E.
  destruct (engine_effect _ _ _ _ _ E) as (msgs & _ & _ & _ & _ & _ & L).
  eexists; split; [exact L|].
  apply Forall_forall; intros e He.
  apply in_map_iff in He; destruct He as (m & <- & _); calm_entry.
Qed.

End LogFacts.

(** Proves [frames calmly m] for a straight-line [m] that logs no error. *)
Ltac calm_auto :=
  repeat
    match goal with
    | |- frames calmly (ret _) => apply frames_ret; exact calmly_refl
    | |- frames calmly (throw _) => apply frames_throw; exact calmly_refl
    | |- frames calmly (await _) => apply frames_await; exact calmly_refl
    | |- frames calmly (bind _ _) =>
        apply frames_bind; [exact calmly_trans | | intros ?]
    | |- frames calmly (tryCatch _ _) =>
        apply frames_tryCatch; [exact calmly_trans | | intros ?]
    | |- frames calmly (when _ _) => apply frames_when; [exact calmly_refl | ]
    | |- frames calmly (log _ _) => apply calmly_log; discriminate
    | |- frames calmly (browser _ _) => apply calmly_browser
    | |- frames calmly (engine _ _) => apply calmly_engine
    | |- frames calmly getLoaded => apply calmly_quiet; reflexivity
    | |- frames calmly getIsolated => apply calmly_quiet; reflexivity
    | |- frames calmly (onProgress _) => apply calmly_quiet; reflexivity
    | |- frames calmly (consoleWarn _) => apply calmly_quiet; reflexivity
    | |- frames calmly (setLoaded _) => apply calmly_quiet; reflexivity
    | |- frames calmly (if ?b then _ else _) => destruct b
    | |- frames calmly (let _ := _ in _) => cbv zeta
    end.

Section LogTheorems.

Context {P : Type} `{Platform P}.

Local Open Scope service_scope.

Lemma loadBody_calm : frames calmly (loadBody (P:=P)).
Proof.
  unfold loadBody, fetchWorkerScript, packageWorker, initEngine; calm_auto.
Qed.

Lemma cleanup_calm : frames calmly (cleanup (P:=P)).
Proof. unfold cleanup; calm_auto. Qed.

Lemma drain_calm dir files : frames calmly (drain (P:=P) dir files).
Proof.
  revert files; induction dir as [|f dir IH]; intros files; simpl.
  - calm_auto.
  - destruct (isOutput f); [|apply IH]. calm_auto. apply IH.
Qed.

Lemma tryBlock_calm (safeFile : File) (d : Z) :
  frames calmly (mountStep (P:=P) safeFile ;; segmentStep d).
Proof.
  unfold mountStep, segmentStep; calm_auto;
    first [apply cleanup_calm | apply drain_calm].
Qed.

Lemma calmly_run {A} (m : M P A) (w w' : World P) r :
  frames calmly m -> m w = (w', r) -> calmly w w'.
Proof. intros Hf E; specialize (Hf w); rewrite E in Hf; exact Hf. Qed.

(** The [catch] block of [splitVideo] adds one error entry, the last. *)
Lemma splitHandler_logged e (w w' : World P) r :
  splitHandler e w = (w', r) ->
  exists pre t,
    logs w' = logs w ++ pre
              ++ [mkLog error (js "Processing failed: " ++ messageProp e) t]
    /\ Forall calm pre.
Proof.
  unfold splitHandler; intros E.
  assert (Ht : total (tryCatch (cleanup (P:=P)) (fun _ => ret tt))) by total_auto.
  assert (Hc : frames calmly (tryCatch (cleanup (P:=P)) (fun _ => ret tt)))
    by (calm_auto; apply cleanup_calm).
  destruct (Ht w) as [[] Ha].
  destruct (tryCatch cleanup (fun _ => ret tt) w) as [w1 r1] eqn:E1.
  simpl in Ha; subst r1.
  destruct (calmly_run _ _ _ _ Hc E1) as (pre & L1 & F1).
  rewrite (bind_run _ _ _ _ _ E1) in E.
  cbn in E; injection E as <- _; cbn.
  exists pre, (dateNow (host w1)); split; [|exact F1].
  rewrite L1, <- app_assoc; reflexivity.
Qed.

(** What [load] adds to the log on a session not yet loaded. *)
Lemma load_logged (w : World P) :
  loaded w = false ->
  match load w with
  | (w', inl _) =>
      exists pre t,
        logs w' = logs w ++ pre
                  ++ [mkLog success (js "FFmpeg core loaded successfully.") t]
        /\ Forall calm pre
  | (w', inr x) =>
      exists pre t msg,
        logs w' = logs w ++ pre
                  ++ [mkLog error (js "Failed to load FFmpeg: " ++ msg) t]
        /\ Forall calm pre
        /\ x = JsError (js "FFmpeg Load Error: " ++ msg)
  end.
Proof.
  intros Hl; rewrite (load_unloaded w Hl); unfold tryCatch.
  destruct (loadBody w) as [w1 [[]|e]] eqn:Eb.
  - unfold loadBody in Eb.
    apply bind_inl in Eb; destruct Eb as (s & wa & Ea & Eb).
    apply bind_inl in Eb; destruct Eb as (url & wb & Eb & Ec).
    unfold initEngine in Ec.
    apply bind_inl in Ec; destruct Ec as (core & x1 & E1 & Ec).
    apply bind_inl in Ec; destruct Ec as (wasm & x2 & E2 & Ec).
    apply bind_inl in Ec; destruct Ec as (u3 & x3 & E3 & Ec).
    cbv zeta in Ec.
    apply bind_inl in Ec; destruct Ec as (u4 & x4 & E4 & Ec).
    apply bind_inl in Ec; destruct Ec as (u5 & x5 & E5 & Ec).
    assert (Hpre : calmly w x5).
    { eapply calmly_trans;
        [eapply (calmly_run fetchWorkerScript); [|exact Ea];
         unfold fetchWorkerScript; calm_auto|].
      eapply calmly_trans;
        [eapply (calmly_run (packageWorker s)); [|exact Eb];
         unfold packageWorker; calm_auto|].
      eapply calmly_trans; [eapply calmly_run; [|exact E1]; calm_auto|].
      eapply calmly_trans; [eapply calmly_run; [|exact E2]; calm_auto|].
      eapply calmly_trans; [eapply calmly_run; [|exact E3]; calm_auto|].
      eapply calmly_trans; [eapply calmly_run; [|exact E4]; calm_auto|].
      eapply calmly_run; [|exact E5]; calm_auto. }
    destruct Hpre as (pre & L & F).
    injection Ec as <-; cbn.
    exists pre, (dateNow (host x5)); split; [|exact F].
    rewrite L, <- app_assoc; reflexivity.
  - destruct (calmly_run _ _ _ _ loadBody_calm Eb) as (pre & L & F).
    cbn. exists pre, (dateNow (host w1)), (errorText e).
    split; [rewrite L, <- app_assoc; reflexivity|]. split; [exact F | reflexivity].
Qed.

(** X7. What [load] tells the user: on a session not yet loaded, a call
    that returns has logged, last, the success entry
    [FFmpeg core loaded successfully.]; a call that throws has logged,
    last, an error entry [Failed to load FFmpeg: msg], and throws
    [FFmpeg Load Error: msg] with the same [msg]; no other entry the call
    adds is of type [error]. *)
Theorem load_log_tells_outcome (w : World P) :
  loaded w = false ->
  match load w with
  | (w', inl _) =>
      exists pre t,
        logs w' = logs w ++ pre
                  ++ [mkLog success (js "FFmpeg core loaded successfully.") t]
        /\ Forall calm pre
  | (w', inr x) =>
      exists pre t msg,
        logs w' = logs w ++ pre
                  ++ [mkLog error (js "Failed to load FFmpeg: " ++ msg) t]
        /\ Forall calm pre
        /\ x = JsError (js "FFmpeg Load Error: " ++ msg)
  end.
Proof. exact (load_logged w). Qed.

Lemma ensureLoaded_logged (w : World P) :
  match ensureLoaded w with
  | (w0, inl _) => calmly w w0
  | (w0, inr _) => exists extra, logs w0 = logs w ++ extra /\ endsInError extra
  end.
Proof.
  unfold ensureLoaded, bind, getLoaded; destruct (loaded w) eqn:Hl; cbn [negb when].
  - apply calmly_refl.
  - pose proof (load_logged w Hl) as Ho.
    destruct (load w) as [w0 [u|x]].
    + destruct Ho as (pre & t & L & F).
      exists (pre ++ [mkLog success (js "FFmpeg core loaded successfully.") t]).
      split; [exact L|]. apply Forall_app; split; [exact F|].
      constructor; [calm_entry | constructor].
    + destruct Ho as (pre & t & msg & L & F & _).
      eexists; split; [exact L|]. exists pre; eexists; repeat split; auto.
Qed.

(** X6. The log tells whether [splitVideo] failed: the entries a call adds
    contain an entry of type [error] exactly when the call throws, and
    then it is the last entry added. *)
Theorem error_entry_iff_thrown (file : File) (d : Z) (w : World P) :
  exists extra,
    logs (fst (splitVideo file d w)) = logs w ++ extra
    /\ match snd (splitVideo file d w) with
       | inl _ => Forall calm extra
       | inr _ => endsInError extra
       end.
Proof.
  destruct (splitVideo file d w) as [w' r] eqn:E; cbn [fst snd].
  unfold splitVideo in E.
  pose proof (ensureLoaded_logged w) as H0.
  destruct (ensureLoaded w) as [w0 [[]|x]] eqn:E0.
  2:{ rewrite (bind_fail _ _ _ _ _ E0) in E; injection E as <- <-; exact H0. }
  rewrite (bind_run _ _ _ _ _ E0) in E; cbv zeta in E; unfold tryCatch in E.
  destruct H0 as (e0 & L0 & F0).
  destruct ((mountStep (renameFile file inputFileName (file_type file)) ;;
             segmentStep d) w0) as [wb [fs|e]] eqn:Eb;
    destruct (calmly_run _ _ _ _ (tryBlock_calm _ d) Eb) as (eb & Lb & Fb).
  - injection E as <- <-. exists (e0 ++ eb); split.
    + rewrite Lb, L0, app_assoc; reflexivity.
    + apply Forall_app; auto.
  - pose proof (splitHandler_rethrows e wb) as Hr; rewrite E in Hr.
    cbn [snd] in Hr; subst r.
    destruct (splitHandler_logged _ _ _ _ E) as (pre & t & Lh & Fh).
    exists (e0 ++ eb ++ pre
            ++ [mkLog error (js "Processing failed: " ++ messageProp e) t]).
    split.
    + rewrite Lh, Lb, L0, <- !app_assoc; reflexivity.
    + exists (e0 ++ eb ++ pre); eexists; split;
        [rewrite <- !app_assoc; reflexivity|].
      split; [|reflexivity]. repeat (apply Forall_app; split); auto.
Qed.

(** ** The URLs the engine is given *)

(** X10. [load] returns only when every step went through, and it
    initialises the engine with local URLs only: [workerURL] and
    [classWorkerURL] are both the object URL made from the patched text of
    the fetched worker script, [coreURL] and [wasmURL] are what
    [toBlobURL] gave for the core script and the wasm payload. *)
Theorem engine_given_local_urls (w w1 : World P) :
  loaded w = false ->
  load w = (w1, inl tt) ->
  exists p1 resp script p2 url p3 core p4 wasm msgs,
    fetch workerScriptURL (host w) = (p1, inl resp)
    /\ ok resp = true
    /\ text resp = inl script
    /\ createObjectURL (Patch.patchWorker script) (js "text/javascript") p1 = (p2, url)
    /\ toBlobURL coreScriptURL (js "text/javascript") p2 = (p3, inl core)
    /\ toBlobURL coreWasmURL (js "application/wasm") p3 = (p4, inl wasm)
    /\ ffLoad (mkConfig core wasm url url) p4 = (host w1, msgs, inl tt).
Proof.
  intros Hl E; rewrite (load_unloaded w Hl) in E; unfold tryCatch in E.
  destruct (loadBody w) as [w0 [[]|e]] eqn:Eb.
  2:{ destruct (loadHandler_throws e w0) as (w' & Eh & _); congruence. }
  injection E as <-.
  unfold loadBody in Eb.
  apply bind_inl in Eb; destruct Eb as (s & wa & Ea & Eb).
  apply bind_inl in Eb; destruct Eb as (url & wb & Eb & Ec).
  destruct (fetchWorkerScript_inv _ _ _ Ea) as (Ha & Hr & _).
  destruct (fetch workerScriptURL (host w)) as [p1 [resp|x]] eqn:Hf;
    cbn [fst snd fetched] in Ha, Hr; [|discriminate].
  destruct (ok resp) eqn:Hok; [|discriminate].
  destruct (packageWorker_inv _ _ _ _ Eb) as (Hb & _).
  rewrite Ha in Hb.
  destruct (createObjectURL (Patch.patchWorker s) (js "text/javascript") p1)
    as [p2 u] eqn:Hu.
  injection Hb as Hb <-.
  apply initEngine_inv in Ec; rewrite Hb in Ec.
  destruct (toBlobURL coreScriptURL (js "text/javascript") p2)
    as [p3 [core|x]] eqn:Hc; [|destruct Ec as (Ec & _); discriminate].
  destruct (toBlobURL coreWasmURL (js "application/wasm") p3)
    as [p4 [wasm|x]] eqn:Hw; [|destruct Ec as (Ec & _); discriminate].
  cbv zeta in Ec.
  destruct (ffLoad (mkConfig core wasm url url) p4) as [[p5 msgs] [[]|x]] eqn:Hload;
    [|destruct Ec as (Ec & _); discriminate].
  destruct Ec as (_ & _ & H5 & _).
  exists p1, resp, s, p2, url, p3, core, p4, wasm, msgs.
  rewrite H5; auto 10.
Qed.

End LogTheorems.

(* ================================================================== *)
(** * More on the service: the cleanup of a failed call *)
(* ================================================================== *)

Section FailureCleanup.

Context {P : Type} `{Platform P}.

Local Open Scope service_scope.

Lemma cleanup_grows_calls : frames (grows calls) (cleanup (P:=P)).
Proof. unfold cleanup; frames_auto. Qed.

Lemma drain_grows_calls dir files : frames (grows calls) (drain (P:=P) dir files).
Proof.
  revert files; induction dir as [|f dir IH]; intros files; simpl.
  - frames_auto.
  - destruct (isOutput f); [|apply IH]. frames_auto. apply IH.
Qed.

Lemma tryBlock_grows_calls (safeFile : File) (d : Z) :
  frames (grows calls) (mountStep (P:=P) safeFile ;; segmentStep d).
Proof.
  unfold mountStep, segmentStep; frames_auto;
    first [apply cleanup_grows_calls | apply drain_grows_calls].
Qed.

(** The cleanup of the [catch] block: [unmount], then [deleteDir] when
    [unmount] went through; nothing it rejects with is kept. *)
Lemma splitHandler_calls e (w w' : World P) r :
  splitHandler e w = (w', r) ->
  (calls w' = calls w ++ [CUnmount mountDir; CDeleteDir mountDir]
   /\ exists p msgs, ffUnmount mountDir (host w) = (p, msgs, inl tt))
  \/ (calls w' = calls w ++ [CUnmount mountDir]
      /\ exists p msgs x, ffUnmount mountDir (host w) = (p, msgs, inr x)).
Proof.
  unfold splitHandler, tryCatch, cleanup; intros E.
  unfold bind at 1 2 in E.
  destruct (engine (CUnmount mountDir) (ffUnmount mountDir) w) as [w1 r1] eqn:E1.
  destruct (engine_effect _ _ _ _ _ E1) as (m1 & R1 & C1 & _).
  destruct r1 as [[]|x].
  - destruct (engine (CDeleteDir mountDir) (ffDeleteDir mountDir) w1)
      as [w2 r2] eqn:E2.
    destruct (engine_effect _ _ _ _ _ E2) as (m2 & R2 & C2 & _).
    left; split; [|eauto].
    destruct r2 as [[]|x]; cbn in E; injection E as <- _; cbn;
      rewrite C2, C1, <- app_assoc; reflexivity.
  - right; split; [|eauto].
    cbn in E; injection E as <- _; cbn; exact C1.
Qed.

(** X18. On a loaded session, every failure of [splitVideo] goes through
    the cleanup of the [catch] block: the last engine calls of a call that
    throws are [unmount] of the mount point, followed by [deleteDir] exactly
    when that [unmount] went through; this holds also when the failure came
    after the cleanup of the [try] block, so the mount point is then
    unmounted a second time. *)
Theorem failure_ends_with_cleanup (file : File) (d : Z) (w w' : World P)
    (e : JsThrown) :
  loaded w = true ->
  splitVideo file d w = (w', inr e) ->
  exists wb tried,
    (mountStep (renameFile file inputFileName (file_type file)) ;; segmentStep d) w
    = (wb, inr e)
    /\ calls wb = calls w ++ tried
    /\ ((calls w' = calls wb ++ [CUnmount mountDir; CDeleteDir mountDir]
         /\ exists p msgs, ffUnmount mountDir (host wb) = (p, msgs, inl tt))
        \/ (calls w' = calls wb ++ [CUnmount mountDir]
            /\ exists p msgs x, ffUnmount mountDir (host wb) = (p, msgs, inr x))).
Proof.
  intros Hl E; rewrite (splitVideo_loaded file d w Hl) in E.
  unfold tryCatch in E.
  destruct ((mountStep (renameFile file inputFileName (file_type file)) ;;
             segmentStep d) w) as [wb [fs|e0]] eqn:Eb; [discriminate|].
  pose proof (splitHandler_rethrows e0 wb) as Hr; rewrite E in Hr.
  injection Hr as ->.
  pose proof (tryBlock_grows_calls (renameFile file inputFileName (file_type file))
                d w) as Hg.
  rewrite Eb in Hg; destruct Hg as (tried & Hg).
  exists wb, tried; split; [reflexivity|]. split; [exact Hg|].
  exact (splitHandler_calls _ _ _ _ E).
Qed.

End FailureCleanup.

(* ================================================================== *)
(** * The uploader over a history of events *)
(* ================================================================== *)

Section UploaderHistory.

Lemma fold_left_snoc {A B} (f : A -> B -> A) (l : list B) (x : B) (a : A) :
  fold_left f (l ++ [x]) a = f (fold_left f l a) x.
Proof. rewrite fold_left_app; reflexivity. Qed.

Lemma skipn_length_app {A} (l x : list A) : skipn (List.length l) (l ++ x) = x.
Proof. induction l as [|a l IH]; [reflexivity | exact IH]. Qed.

Lemma accepts_iff (f : File) :
  UploaderUI.accepts f = true
  <-> startsWith (js "video/") (file_type f) = true
      /\ file_size f <= Uploader.sizeLimit.
Proof.
  unfold UploaderUI.accepts, Uploader.sizeLimit.
  rewrite andb_true_iff, Z.leb_le; reflexivity.
Qed.

Lemma validateAndPass_selected (f : File) (st : Uploader.State) :
  Uploader.selected (Uploader.validateAndPass f st)
  = Uploader.selected st ++ filter UploaderUI.accepts [f].
Proof.
  unfold Uploader.validateAndPass; cbn [filter].
  destruct (UploaderUI.accepts f) eqn:Ha.
  - apply accepts_iff in Ha; destruct Ha as [Ht Hs].
    rewrite Ht; cbn [negb].
    destruct (Z.gtb_spec (file_size f) Uploader.sizeLimit); [lia | reflexivity].
  - destruct (startsWith (js "video/") (file_type f)) eqn:Ht; cbn [negb];
      [|cbn; rewrite app_nil_r; reflexivity].
    destruct (Z.gtb_spec (file_size f) Uploader.sizeLimit);
      [cbn; rewrite app_nil_r; reflexivity|].
    assert (UploaderUI.accepts f = true) by (apply accepts_iff; split; [exact Ht | lia]).
    congruence.
Qed.

Lemma validateAndPass_error (f : File) (st : Uploader.State) :
  Uploader.error (Uploader.validateAndPass f st) = None
  <-> UploaderUI.accepts f = true.
Proof.
  rewrite accepts_iff; unfold Uploader.validateAndPass.
  destruct (startsWith (js "video/") (file_type f)); cbn [negb].
  - destruct (Z.gtb_spec (file_size f) Uploader.sizeLimit);
      cbn [Uploader.error Uploader.setError Uploader.onFileSelect].
    + split; [discriminate | intros [_ Hs]; lia].
    + split; [intros _; split; [reflexivity | lia] | reflexivity].
  - cbn; split; [discriminate | intros [Hf _]; discriminate].
Qed.

Lemma offered_cases (ev : UploaderUI.Event) :
  UploaderUI.offered ev = [] \/ exists f, UploaderUI.offered ev = [f].
Proof.
  destruct ev as [t|fs|fs]; cbn; auto;
    destruct (UploaderUI.firstFile fs); eauto.
Qed.

Lemma handleDrag_core (t : jsstring) (s : UploaderUI.State) :
  UploaderUI.core (UploaderUI.handleDrag t s) = UploaderUI.core s.
Proof.
  unfold UploaderUI.handleDrag.
  destruct (_ || _); [reflexivity|]. destruct (jsstring_eqb _ _); reflexivity.
Qed.

(** One event of the uploader: [onFileSelect] is called with the offered
    file when it passes the test, and with nothing else. *)
Lemma step_selected (ev : UploaderUI.Event) (s : UploaderUI.State) :
  Uploader.selected (UploaderUI.core (UploaderUI.step ev s))
  = Uploader.selected (UploaderUI.core s)
    ++ filter UploaderUI.accepts (UploaderUI.offered ev).
Proof.
  destruct ev as [t|fs|fs]; cbn [UploaderUI.step UploaderUI.offered].
  - rewrite handleDrag_core; cbn; rewrite app_nil_r; reflexivity.
  - unfold UploaderUI.handleDrop; destruct (UploaderUI.firstFile fs) as [f|];
      cbn [UploaderUI.core]; [apply validateAndPass_selected|].
    cbn; rewrite app_nil_r; reflexivity.
  - unfold UploaderUI.handleChange; destruct (UploaderUI.firstFile fs) as [f|];
      cbn [UploaderUI.core]; [apply validateAndPass_selected|].
    cbn; rewrite app_nil_r; reflexivity.
Qed.

Lemma step_error (ev : UploaderUI.Event) (s : UploaderUI.State) :
  match UploaderUI.offered ev with
  | f :: _ =>
      Uploader.error (UploaderUI.core (UploaderUI.step ev s)) = None
      <-> UploaderUI.accepts f = true
  | [] =>
      Uploader.error (UploaderUI.core (UploaderUI.step ev s))
      = Uploader.error (UploaderUI.core s)
  end.
Proof.
  destruct ev as [t|fs|fs]; cbn [UploaderUI.step UploaderUI.offered].
  - rewrite handleDrag_core; reflexivity.
  - unfold UploaderUI.handleDrop; destruct (UploaderUI.firstFile fs) as [f|];
      cbn [UploaderUI.core]; [apply validateAndPass_error | reflexivity].
  - unfold UploaderUI.handleChange; destruct (UploaderUI.firstFile fs) as [f|];
      cbn [UploaderUI.core]; [apply validateAndPass_error | reflexivity].
Qed.

Lemma fold_selected (evs : list UploaderUI.Event) (s : UploaderUI.State) :
  Uploader.selected
    (UploaderUI.core (fold_left (fun s ev => UploaderUI.step ev s) evs s))
  = Uploader.selected (UploaderUI.core s)
    ++ filter UploaderUI.accepts (flat_map UploaderUI.offered evs).
Proof.
  revert s; induction evs as [|ev evs IH]; intros s; cbn [fold_left flat_map].
  - cbn; rewrite app_nil_r; reflexivity.
  - rewrite IH, step_selected, filter_app, app_assoc; reflexivity.
Qed.

(** X11. Over any history of drag, drop and change events, the calls the
    uploader makes to [onFileSelect] are, in order, the first files of the
    drops and changes that pass the test (type starting with [video/],
    size at most 5 GiB): no other file is passed on, none that passes is
    left out, and drag events pass nothing. *)
Theorem uploader_passes_exactly_accepted (evs : list UploaderUI.Event) :
  Uploader.selected (UploaderUI.core (UploaderUI.run evs))
  = filter UploaderUI.accepts (flat_map UploaderUI.offered evs).
Proof. unfold UploaderUI.run; rewrite fold_selected; reflexivity. Qed.

(** X12. The uploader shows no error exactly when the last file it was
    given passed the test (or it was given none): a later good file clears
    the message, and drag events and empty file lists leave it alone. *)
Theorem uploader_error_follows_last_file (evs : list UploaderUI.Event) :
  Uploader.error (UploaderUI.core (UploaderUI.run evs)) = None
  <-> forall f, lastOffered evs = Some f -> UploaderUI.accepts f = true.
Proof.
  unfold lastOffered, UploaderUI.run.
  induction evs as [|ev evs IH] using rev_ind.
  - cbn; split; [discriminate | reflexivity].
  - rewrite fold_left_snoc, flat_map_app; cbn [flat_map]; rewrite app_nil_r.
    pose proof (step_error ev (fold_left (fun s ev => UploaderUI.step ev s) evs
                                          UploaderUI.init)) as Hs.
    destruct (offered_cases ev) as [E|[f E]]; rewrite E in Hs |- *.
    + rewrite app_nil_r, Hs; exact IH.
    + rewrite map_app; cbn [map]; rewrite last_last, Hs.
      split; [intros Ha g Hg; injection Hg as <-; exact Ha | auto].
Qed.

End UploaderHistory.

(* ================================================================== *)
(** * The app over a history of events *)
(* ================================================================== *)

Section AppHistory.

Lemma step_duration (ev : App.Event) (s : App.State) :
  App.splitDuration (App.step ev s)
  = match ev with
    | App.DurationInput v => Settings.onChange v
    | _ => App.splitDuration s
    end.
Proof.
  destruct ev as [| okay | file | | value | | [files|] | | p]; cbn [App.step];
    try reflexivity.
  - destruct (App.serviceReady s); reflexivity.
  - destruct (App.videoFile s); [|reflexivity].
    destruct (App.serviceReady s); reflexivity.
Qed.

Lemma fold_duration (evs : list App.Event) (s : App.State) :
  App.splitDuration (fold_left (fun s ev => App.step ev s) evs s)
  = match lastInput evs with
    | Some v => Settings.onChange v
    | None => App.splitDuration s
    end.
Proof.
  revert s; induction evs as [|ev evs IH]; intros s; cbn [fold_left lastInput];
    [reflexivity|].
  rewrite IH; destruct (lastInput evs); [reflexivity|].
  rewrite step_duration; destruct ev; reflexivity.
Qed.

(** X13. The split interval is written by the duration input only: after
    any history of events it is what [onChange] made of the last text
    typed, and 30 when none was typed; selecting or changing the file,
    splitting, progress reports and reset leave it alone. *)
Theorem duration_is_last_input (evs : list App.Event) :
  App.splitDuration (App.run evs)
  = match lastInput evs with
    | Some v => Settings.onChange v
    | None => 30
    end.
Proof. unfold App.run; rewrite fold_duration; reflexivity. Qed.

Lemma chosen_later (evs : list App.Event) (ev : App.Event) (c : File * Z) :
  chosen evs c -> chosen (evs ++ [ev]) c.
Proof.
  intros (Hf & Hm & Hd); repeat split; try (apply in_or_app; left; assumption).
  destruct Hd as [Hd|(v & Hv & Hd)]; [left; exact Hd | right].
  exists v; split; [apply in_or_app; left; exact Hv | exact Hd].
Qed.

Lemma traced_step (evs : list App.Event) (ev : App.Event) (s : App.State) :
  traced evs s -> traced (evs ++ [ev]) (App.step ev s).
Proof.
  intros (Hf & Hm & Hd & Hc).
  assert (Hf' : forall f, App.videoFile s = Some f ->
                          In (App.FileSelected f) (evs ++ [ev]))
    by (intros f Hv; apply in_or_app; left; auto).
  assert (Hm' : App.serviceReady s = true -> In App.Mounted (evs ++ [ev]))
    by (intros Hr; apply in_or_app; left; auto).
  assert (Hd' : App.splitDuration s = 30
                \/ exists v, In (App.DurationInput v) (evs ++ [ev])
                             /\ App.splitDuration s = Settings.onChange v).
  { destruct Hd as [Hd|(v & Hv & Hd)]; [left; exact Hd | right].
    exists v; split; [apply in_or_app; left; exact Hv | exact Hd]. }
  assert (Hc' : Forall (chosen (evs ++ [ev])) (App.splitCalls s))
    by (revert Hc; apply Forall_impl; intros c; apply chosen_later).
  assert (Hlast : In ev (evs ++ [ev])) by (apply in_or_app; right; left; reflexivity).
  unfold traced.
  destruct ev as [| okay | file | | value | | [files|] | | p]; cbn [App.step];
    try (split; [exact Hf' | split; [exact Hm' | split; [exact Hd' | exact Hc']]]).
  - destruct (App.serviceReady s) eqn:Hr;
      (split; [exact Hf' | split; [intros _; exact Hlast
                                  | split; [exact Hd' | exact Hc']]]).
  - split; [|split; [exact Hm' | split; [exact Hd' | exact Hc']]].
    cbn [App.videoFile]; intros f Hv; injection Hv as <-; exact Hlast.
  - split; [|split; [exact Hm' | split; [exact Hd' | exact Hc']]].
    cbn [App.videoFile]; discriminate.
  - split; [exact Hf' | split; [exact Hm' | split; [|exact Hc']]].
    cbn [App.splitDuration]; right; exists value; split; [exact Hlast | reflexivity].
  - destruct (App.videoFile s) as [file|] eqn:Hv;
      [|split; [intros f Hf0; congruence
               | split; [exact Hm' | split; [exact Hd' | exact Hc']]]].
    destruct (App.serviceReady s) eqn:Hr;
      [|split; [intros f Hf0; apply Hf'; congruence
               | split; [intros Hm0; congruence
                        | split; [exact Hd' | exact Hc']]]].
    split; [cbn [App.videoFile]; intros f Hf0; apply Hf'; congruence|].
    split; [intros _; apply Hm'; reflexivity|].
    split; [exact Hd'|]. cbn [App.splitCalls].
    apply Forall_app; split; [exact Hc'|]. constructor; [|constructor].
    split; [|split]; cbn [fst snd].
    + apply Hf'; reflexivity.
    + apply Hm'; reflexivity.
    + exact Hd'.
  - split; [|split; [exact Hm' | split; [exact Hd' | exact Hc']]].
    cbn [App.videoFile]; discriminate.
Qed.

Lemma traced_run (evs : list App.Event) : traced evs (App.run evs).
Proof.
  unfold App.run; induction evs as [|ev evs IH] using rev_ind.
  - repeat split; cbn; try discriminate; [left; reflexivity | constructor].
  - rewrite fold_left_snoc; apply traced_step, IH.
Qed.

(** X14. Every [splitVideo] invocation the app makes has its arguments
    from the page: the file was handed to [handleFileSelect] earlier in
    the history, the service had been created by the mount effect, and the
    duration is the initial 30 or what [onChange] made of a text typed
    earlier. *)
Theorem split_arguments_come_from_page (evs : list App.Event) :
  Forall (chosen evs) (App.splitCalls (App.run evs)).
Proof. apply traced_run. Qed.

End AppHistory.

(* ================================================================== *)
(** * Uploader and app together *)
(* ================================================================== *)

Section PageHistory.

Lemma passed_step (ev : UploaderUI.Event) (u : UploaderUI.State) :
  Page.passed u (UploaderUI.step ev u)
  = filter UploaderUI.accepts (UploaderUI.offered ev).
Proof. unfold Page.passed; rewrite step_selected; apply skipn_length_app. Qed.

Lemma guarded_select (l : list File) (u : UploaderUI.State) (a : App.State) :
  Forall (fun f => UploaderUI.accepts f = true) l ->
  guarded (Page.mkState u a) ->
  forall u',
  guarded (Page.mkState u'
             (fold_left (fun a f => App.step (App.FileSelected f) a) l a)).
Proof.
  intros Hl; revert a; induction Hl as [|f l Hf Hl IH]; intros a Hg u';
    cbn [fold_left].
  - exact Hg.
  - apply (IH _) with (u' := u'); clear IH.
    destruct Hg as (H1 & H2 & H3); split; [|split].
    + cbn; intros g Hg; injection Hg as <-; exact Hf.
    + exact H2.
    + apply durationOk_step; exact H3.
Qed.

Lemma guarded_step (ev : Page.Event) (s : Page.State) :
  guarded s -> guarded (Page.step ev s).
Proof.
  intros Hg; destruct ev as [uev| |aev]; cbn [Page.step].
  - cbv zeta; rewrite passed_step.
    destruct s as [u a]; cbn [Page.uploader Page.app].
    apply guarded_select with (u := u); [|exact Hg].
    apply Forall_forall; intros f Hf; apply filter_In in Hf; apply Hf.
  - exact Hg.
  - destruct (Page.isFileSelected aev) eqn:Hsel; [exact Hg|].
    destruct Hg as (H1 & H2 & H3); split; [|split];
      [| |apply durationOk_step; exact H3]; cbn [Page.app].
    + destruct aev as [| okay | file | | value | | [files|] | | p];
        cbn [App.step]; try exact H1; try discriminate Hsel.
      * destruct (App.serviceReady (Page.app s)); exact H1.
      * cbn; discriminate.
      * destruct (App.videoFile (Page.app s)) as [file|] eqn:Hv;
          [|intros g Hg0; congruence].
        destruct (App.serviceReady (Page.app s));
          intros g Hg0; apply H1; cbn [App.videoFile] in Hg0; congruence.
      * cbn; discriminate.
    + destruct aev as [| okay | file | | value | | [files|] | | p];
        cbn [App.step]; try exact H2; try discriminate Hsel.
      * destruct (App.serviceReady (Page.app s)); exact H2.
      * destruct (App.videoFile (Page.app s)) as [file|] eqn:Hv; [|exact H2].
        destruct (App.serviceReady (Page.app s)); [|exact H2].
        cbn [App.splitCalls]; apply Forall_app; split; [exact H2|].
        constructor; [apply H1; reflexivity | constructor].
Qed.

Lemma guarded_run (evs : list Page.Event) : guarded (Page.run evs).
Proof.
  unfold Page.run; induction evs as [|ev evs IH] using rev_ind.
  - split; [cbn; discriminate | split; [constructor | apply durationOk_init]].
  - rewrite fold_left_snoc; apply guarded_step, IH.
Qed.

(** X15. On the page, where a file reaches the app through the uploader
    only, every [splitVideo] invocation carries a file whose type starts
    with [video/] and whose size is at most 5 GiB, and a duration of at
    least 1, whatever the history of uploader and app events. *)
Theorem page_splits_only_accepted_files (evs : list Page.Event) :
  Forall (fun c => startsWith (js "video/") (file_type (fst c)) = true
                   /\ file_size (fst c) <= 5 * 1024 * 1024 * 1024
                   /\ 1 <= snd c)
         (App.splitCalls (Page.app (Page.run evs))).
Proof.
  destruct (guarded_run evs) as (_ & Hc & _ & Hd).
  apply Forall_forall; intros c Hin; split; [|split].
  - eapply Forall_forall in Hc; [|exact Hin]. apply accepts_iff in Hc; apply Hc.
  - eapply Forall_forall in Hc; [|exact Hin]. apply accepts_iff in Hc; apply Hc.
  - eapply Forall_forall in Hd; [|exact Hin]. exact Hd.
Qed.

End PageHistory.

(* ================================================================== *)
(** * [handleSplit]: the app around a [splitVideo] call *)
(* ================================================================== *)

Section HandleSplit.

Context {P : Type} `{Platform P}.

Lemma reported_success (file : File) (d : Z) (w w' : World P) files :
  splitVideo file d w = (w', inl files) -> reported w w' = [10; 80; 100].
Proof.
  intros E; pose proof (splitVideo_progress file d (progress w) w eq_refl) as Hp.
  rewrite E in Hp; unfold reported; rewrite Hp; apply skipn_length_app.
Qed.

Lemma reported_failure (file : File) (d : Z) (w w' : World P) e :
  splitVideo file d w = (w', inr e) ->
  reported w w' = [] \/ reported w w' = [10] \/ reported w w' = [10; 80].
Proof.
  intros E; pose proof (splitVideo_progress file d (progress w) w eq_refl) as Hp.
  rewrite E in Hp; unfold reported.
  destruct Hp as [Hp|[Hp|Hp]]; rewrite Hp.
  - left; rewrite <- (app_nil_r (progress w)) at 2; apply skipn_length_app.
  - right; left; apply skipn_length_app.
  - right; right; apply skipn_length_app.
Qed.

(** X16. [handleSplit] with a file chosen and the service created: it
    makes one [splitVideo] call, with that file and the current duration,
    and never stays in [PROCESSING].  When the call returns the app is
    [COMPLETED], shows progress 100 and holds the returned files; when it
    throws the app is in [ERROR], keeps the output files it had, and shows
    progress 0, 10 or 80.  File and duration are as before. *)
Theorem handleSplit_settles (s : App.State) (w : World P) (file : File) :
  App.videoFile s = Some file ->
  App.serviceReady s = true ->
  let s' := fst (handleSplit s w) in
  snd (handleSplit s w) = fst (splitVideo file (App.splitDuration s) w)
  /\ App.splitCalls s' = App.splitCalls s ++ [(file, App.splitDuration s)]
  /\ App.videoFile s' = Some file
  /\ App.splitDuration s' = App.splitDuration s
  /\ match snd (splitVideo file (App.splitDuration s) w) with
     | inl files =>
         App.state s' = App.COMPLETED
         /\ App.progress s' = 100
         /\ App.outputFiles s' = files
     | inr _ =>
         App.state s' = App.ERROR
         /\ In (App.progress s') [0; 10; 80]
         /\ App.outputFiles s' = App.outputFiles s
     end.
Proof.
  intros Hv Hr; cbv zeta; unfold handleSplit; rewrite Hv, Hr.
  destruct (splitVideo file (App.splitDuration s) w) as [w' [files|e]] eqn:E;
    cbn [fst snd].
  - rewrite (reported_success _ _ _ _ _ E).
    cbn [fold_left App.step]; rewrite Hv, Hr; cbn.
    auto 10.
  - destruct (reported_failure _ _ _ _ _ E) as [Hp|[Hp|Hp]]; rewrite Hp;
      cbn [fold_left App.step]; rewrite Hv, Hr; cbn; auto 10.
Qed.

End HandleSplit.

(* ================================================================== *)
(** * Numbers as text: sample values *)
(* ================================================================== *)

Section NumberText.

Example toString_small : numToString 30 = js "30".
Proof. vm_compute; reflexivity. Qed.

Example toString_negative : numToString (-30) = js "-30".
Proof. vm_compute; reflexivity. Qed.

(** Above 2^53 not every integer is a Number: the text is that of the
    nearest double, in the fewest digits that tell it apart. *)
Example toString_odd_above_2_53 : numToString (2 ^ 53 + 1) = js "9007199254740992".
Proof. vm_compute; reflexivity. Qed.

Example toString_2_64 : numToString (2 ^ 64) = js "18446744073709552000".
Proof. vm_compute; reflexivity. Qed.

Example toString_shortest :
  numToString 999999999999999868928 = js "999999999999999900000".
Proof. vm_compute; reflexivity. Qed.

(** From 10^21 on the notation has an exponent. *)
Example toString_1e21 : numToString (10 ^ 21) = js "1e+21".
Proof. vm_compute; reflexivity. Qed.

Example toString_2_70 : numToString (2 ^ 70) = js "1.1805916207174113e+21".
Proof. vm_compute; reflexivity. Qed.

Example toString_largest :
  numToString (2 ^ 1024 - 2 ^ 970 - 1) = js "1.7976931348623157e+308".
Proof. vm_compute; reflexivity. Qed.

Example toString_infinity : numToString (2 ^ 1024 - 2 ^ 970) = js "Infinity".
Proof. vm_compute; reflexivity. Qed.

(** Below 2^53 the search for the fewest digits would give the digits of
    the integer too. *)
Example shortest_below_2_53 :
  map (fun x => Num.format
                  (Num.shortest 17 x (Z.of_nat (List.length (Num.intDigits x))) 1))
      [30; 120; 1000; 4503599627370497; 9007199254740991]
  = map Num.intDigits [30; 120; 1000; 4503599627370497; 9007199254740991].
Proof. vm_compute; reflexivity. Qed.

End NumberText.

(* ================================================================== *)
(** * The duration as text, and back *)
(* ================================================================== *)

Section RoundTrip.

Import Settings.













End RoundTrip.

(* ================================================================== *)
(** * Concrete runs of the further theorems *)
(* ================================================================== *)

Section SimRuns.

Import Sim.

Lemma split_success_calls_witness :
  splitVideo clipFile 30 bootWorld
  = (fst (splitVideo clipFile 30 bootWorld), inl twoFiles)
  /\ exists w0 wx wl p msgs dir,
       ensureLoaded bootWorld = (w0, inl tt)
       /\ (mountStep (renameFile clipFile inputFileName (file_type clipFile)) ;;
           execStep 30)%service w0
          = (wx, inl tt)
       /\ tryCatch cleanup consoleWarn wx = (wl, inl tt)
       /\ ffListDir (js ".") (host wl) = (p, msgs, inl dir)
       /\ calls (fst (splitVideo clipFile 30 bootWorld))
          = calls w0
            ++ [CCreateDir mountDir;
                CMount (js "WORKERFS")
                       [renameFile clipFile inputFileName (file_type clipFile)]
                       mountDir;
                CExec (execArgs 30)]
            ++ match ffUnmount mountDir (host wx) with
               | (_, _, inl _) => [CUnmount mountDir; CDeleteDir mountDir]
               | (_, _, inr _) => [CUnmount mountDir]
               end
            ++ [CListDir (js ".")]
            ++ drainCalls dir
       /\ map file_name twoFiles = map name (filter isOutput dir).
Proof.
  assert (E : splitVideo clipFile 30 bootWorld
              = (fst (splitVideo clipFile 30 bootWorld), inl twoFiles))
    by (vm_compute; reflexivity).
  split; [exact E|].
  exact (split_success_calls clipFile 30 bootWorld _ twoFiles E).
Defined.

Lemma split_stops_at_failed_bootstrap_witness :
  loaded offlineWorld = false
  /\ splitVideo clipFile 30 offlineWorld
     = (fst (load offlineWorld),
        inr (JsError (js "FFmpeg Load Error: "
                      ++ errorText (JsError (js "Failed to fetch worker: "
                                             ++ js "Not Found")))))
  /\ exists x,
       BootFailure (host offlineWorld) x
       /\ JsError (js "FFmpeg Load Error: "
                   ++ errorText (JsError (js "Failed to fetch worker: "
                                          ++ js "Not Found")))
          = JsError (js "FFmpeg Load Error: " ++ errorText x).
Proof.
  assert (Hl : loaded offlineWorld = false) by reflexivity.
  assert (E : load offlineWorld
              = (fst (load offlineWorld),
                 inr (JsError (js "FFmpeg Load Error: "
                               ++ errorText (JsError (js "Failed to fetch worker: "
                                                      ++ js "Not Found"))))))
    by (vm_compute; reflexivity).
  split; [exact Hl|].
  exact (split_stops_at_failed_bootstrap clipFile 30 offlineWorld _ _ Hl E).
Defined.

Lemma split_throws_engine_rejections_witness :
  ensureLoaded readFailWorld = (readFailWorld, inl tt)
  /\ splitVideo clipFile 30 readFailWorld
     = (fst (splitVideo clipFile 30 readFailWorld),
        inr (JsOther (js "RangeError: Array buffer allocation failed")))
  /\ TryFailure (renameFile clipFile inputFileName (file_type clipFile)) 30
       readFailWorld
       (JsOther (js "RangeError: Array buffer allocation failed")).
Proof.
  assert (E0 : ensureLoaded readFailWorld = (readFailWorld, inl tt))
    by reflexivity.
  assert (E : splitVideo clipFile 30 readFailWorld
              = (fst (splitVideo clipFile 30 readFailWorld),
                 inr (JsOther (js "RangeError: Array buffer allocation failed"))))
    by (vm_compute; reflexivity).
  split; [exact E0|]. split; [exact E|].
  exact (split_throws_engine_rejections clipFile 30 readFailWorld _ _ _ E0 E).
Defined.

Lemma failure_ends_with_cleanup_witness :
  loaded readFailWorld = true
  /\ splitVideo clipFile 30 readFailWorld
     = (fst (splitVideo clipFile 30 readFailWorld),
        inr (JsOther (js "RangeError: Array buffer allocation failed")))
  /\ exists wb tried,
       (mountStep (renameFile clipFile inputFileName (file_type clipFile)) ;;
        segmentStep 30)%service readFailWorld
       = (wb, inr (JsOther (js "RangeError: Array buffer allocation failed")))
       /\ calls wb = calls readFailWorld ++ tried
       /\ ((calls (fst (splitVideo clipFile 30 readFailWorld))
            = calls wb ++ [CUnmount mountDir; CDeleteDir mountDir]
            /\ exists p msgs, ffUnmount mountDir (host wb) = (p, msgs, inl tt))
           \/ (calls (fst (splitVideo clipFile 30 readFailWorld))
               = calls wb ++ [CUnmount mountDir]
               /\ exists p msgs x,
                    ffUnmount mountDir (host wb) = (p, msgs, inr x))).
Proof.
  assert (Hl : loaded readFailWorld = true) by reflexivity.
  assert (E : splitVideo clipFile 30 readFailWorld
              = (fst (splitVideo clipFile 30 readFailWorld),
                 inr (JsOther (js "RangeError: Array buffer allocation failed"))))
    by (vm_compute; reflexivity).
  split; [exact Hl|]. split; [exact E|].
  exact (failure_ends_with_cleanup clipFile 30 readFailWorld _ _ Hl E).
Defined.

Lemma split_returns_loaded_witness :
  loaded bootWorld = false
  /\ splitVideo clipFile 30 bootWorld
     = (fst (splitVideo clipFile 30 bootWorld), inl twoFiles)
  /\ loaded (fst (splitVideo clipFile 30 bootWorld)) = true.
Proof.
  assert (E : splitVideo clipFile 30 bootWorld
              = (fst (splitVideo clipFile 30 bootWorld), inl twoFiles))
    by (vm_compute; reflexivity).
  split; [reflexivity|]. split; [exact E|].
  exact (split_returns_loaded clipFile 30 bootWorld _ twoFiles E).
Defined.

Lemma outputs_carry_read_bytes_witness :
  splitVideo clipFile 30 bootWorld
  = (fst (splitVideo clipFile 30 bootWorld), inl twoFiles)
  /\ exists w0 wl wd dir,
       ensureLoaded bootWorld = (w0, inl tt)
       /\ listingReady (renameFile clipFile inputFileName (file_type clipFile)) 30 w0
          = (wl, inl tt)
       /\ engine (CListDir (js ".")) (ffListDir (js ".")) wl = (wd, inl dir)
       /\ List.length twoFiles = List.length (filter isOutput dir)
       /\ forall pre f post,
            dir = pre ++ f :: post ->
            isOutput f = true ->
            exists acc wq p msgs data,
              drain pre [] wd = (wq, inl acc)
              /\ ffReadFile (name f) (host wq) = (p, msgs, inl data)
              /\ nth_error twoFiles (List.length (filter isOutput pre))
                 = Some (fileOfData data (name f) (js "video/mp4")).
Proof.
  assert (E : splitVideo clipFile 30 bootWorld
              = (fst (splitVideo clipFile 30 bootWorld), inl twoFiles))
    by (vm_compute; reflexivity).
  split; [exact E|].
  exact (outputs_carry_read_bytes clipFile 30 bootWorld _ twoFiles E).
Defined.

Lemma load_log_tells_outcome_witness :
  loaded offlineWorld = false
  /\ match load offlineWorld with
     | (w', inl _) =>
         exists pre t,
           logs w' = logs offlineWorld ++ pre
                     ++ [mkLog success (js "FFmpeg core loaded successfully.") t]
           /\ Forall calm pre
     | (w', inr x) =>
         exists pre t msg,
           logs w' = logs offlineWorld ++ pre
                     ++ [mkLog error (js "Failed to load FFmpeg: " ++ msg) t]
           /\ Forall calm pre
           /\ x = JsError (js "FFmpeg Load Error: " ++ msg)
     end.
Proof.
  assert (Hl : loaded offlineWorld = false) by reflexivity.
  split; [exact Hl|].
  exact (load_log_tells_outcome offlineWorld Hl).
Defined.

Lemma engine_given_local_urls_witness :
  loaded bootWorld = false
  /\ load bootWorld = (fst (load bootWorld), inl tt)
  /\ exists p1 resp script p2 url p3 core p4 wasm msgs,
       fetch workerScriptURL (host bootWorld) = (p1, inl resp)
       /\ ok resp = true
       /\ text resp = inl script
       /\ createObjectURL (Patch.patchWorker script) (js "text/javascript") p1
          = (p2, url)
       /\ toBlobURL coreScriptURL (js "text/javascript") p2 = (p3, inl core)
       /\ toBlobURL coreWasmURL (js "application/wasm") p3 = (p4, inl wasm)
       /\ ffLoad (mkConfig core wasm url url) p4
          = (host (fst (load bootWorld)), msgs, inl tt).
Proof.
  assert (Hl : loaded bootWorld = false) by reflexivity.
  assert (E : load bootWorld = (fst (load bootWorld), inl tt))
    by (vm_compute; reflexivity).
  split; [exact Hl|]. split; [exact E|].
  exact (engine_given_local_urls bootWorld _ Hl E).
Defined.

Lemma handleSplit_settles_witness :
  App.videoFile clipSelected = Some clipFile
  /\ App.serviceReady clipSelected = true
  /\ App.state (fst (handleSplit clipSelected bootWorld)) = App.COMPLETED
  /\ App.progress (fst (handleSplit clipSelected bootWorld)) = 100
  /\ App.outputFiles (fst (handleSplit clipSelected bootWorld)) = twoFiles
  /\ App.splitCalls (fst (handleSplit clipSelected bootWorld)) = [(clipFile, 30)].
Proof.
  assert (Hv : App.videoFile clipSelected = Some clipFile) by reflexivity.
  assert (Hr : App.serviceReady clipSelected = true) by reflexivity.
  assert (E : snd (splitVideo clipFile (App.splitDuration clipSelected) bootWorld)
              = inl twoFiles)
    by (vm_compute; reflexivity).
  pose proof (handleSplit_settles clipSelected bootWorld clipFile Hv Hr) as Hs.
  cbv zeta in Hs; destruct Hs as (_ & Hc & _ & _ & Hm).
  rewrite E in Hm; destruct Hm as (H1 & H2 & H3).
  split; [exact Hv|]. split; [exact Hr|]. split; [exact H1|].
  split; [exact H2|]. split; [exact H3|]. exact Hc.
Defined.


End SimRuns.
